(** * Identity resolution and aggregation of municipal voting data

    A shallow embedding of the SQL views built by
    [scripts/create_analysis_views.py] and [scripts/create_merger_views_old.py]
    and of the ingestion done by [scripts/import_municipal_changes.py].

    Tables are lists of records (one record per row, in scan order), a
    nullable column is an [option], TEXT is [string], INTEGER is [Z]
    (vote tallies stay far below the 64-bit range of SQLite, so sums are
    taken in [Z]), and a REAL that the views compute is an exact rational.
    A query is a function from the tables it reads to the list of rows it
    returns.  SQL leaves the order of the rows of a query unspecified; the
    model fixes the order of a nested-loop scan, and no theorem below
    depends on a particular order unless it says so. *)

From Stdlib Require Import List String Ascii ZArith QArith Qabs Bool Arith Lia.
From Stdlib Require Import DecimalString Permutation.
Import ListNotations.

Open Scope string_scope.
Open Scope list_scope.
Open Scope Z_scope.

(** ** The fragment of SQL the views use *)

Module Sql.

Section Rows.

Context {A : Type}.
Variable A_eq_dec : forall a b : A, {a = b} + {a <> b}.

Definition mem (x : A) (l : list A) : bool :=
  existsb (fun y => if A_eq_dec x y then true else false) l.

(** [SELECT DISTINCT] / [UNION] / the keys of a [GROUP BY]: every row
    once, at the place of its first occurrence. *)
Fixpoint distinct (l : list A) : list A :=
  match l with
  | [] => []
  | x :: t => x :: filter (fun y => if A_eq_dec x y then false else true) (distinct t)
  end.

End Rows.

(** [SUM(col)]: NULLs are skipped, and the sum of no value is NULL. *)
Definition sql_add (a b : option Z) : option Z :=
  match a, b with
  | None, _ => b
  | _, None => a
  | Some x, Some y => Some (x + y)
  end.

Definition sql_sum (l : list (option Z)) : option Z :=
  fold_right sql_add None l.

(** [MAX(col)] over INTEGER values, [MIN(col)] over TEXT values; NULL on
    no row. *)
Definition sql_max (l : list Z) : option Z :=
  match l with
  | [] => None
  | x :: t => Some (fold_left Z.max t x)
  end.

Definition text_min (a b : string) : string :=
  if String.leb a b then a else b.

Definition sql_min_text (l : list string) : option string :=
  match l with
  | [] => None
  | x :: t => Some (fold_left text_min t x)
  end.

(** Comparison of nullable TEXT in a [WHERE]: a comparison with NULL is
    not true. *)
Definition text_eq (a b : option string) : bool :=
  match a, b with
  | Some x, Some y => String.eqb x y
  | _, _ => false
  end.

Definition text_ne (a b : option string) : bool :=
  match a, b with
  | Some x, Some y => negb (String.eqb x y)
  | _, _ => false
  end.

Definition text_ge (a b : option string) : bool :=
  match a, b with
  | Some x, Some y => String.leb y x
  | _, _ => false
  end.

(** [WITH RECURSIVE t AS (initial UNION recursive)], the way SQLite runs
    it: the rows of the initial select go to a queue; one row at a time is
    taken from the queue, added to the result, and the recursive select is
    run with that row as the only row of [t]; with [UNION] a row it
    produces is added to the queue only if no identical row was ever added
    before (the rows ever added are those of the result and of the queue).
    [step r] is the recursive select run on the single row [r].  One unit
    of fuel is spent per row taken from the queue. *)
Section WithRecursive.

Context {A : Type}.
Variable A_eq_dec : forall a b : A, {a = b} + {a <> b}.
Variable step : A -> list A.

Fixpoint enqueue (out queue cands : list A) : list A :=
  match cands with
  | [] => queue
  | n :: ns =>
      if mem A_eq_dec n (out ++ queue)
      then enqueue out queue ns
      else enqueue out (queue ++ [n]) ns
  end.

Fixpoint run_queue (fuel : nat) (out queue : list A) : option (list A) :=
  match queue with
  | [] => Some out
  | r :: rest =>
      match fuel with
      | O => None
      | S fuel' => run_queue fuel' (out ++ [r]) (enqueue (out ++ [r]) rest (step r))
      end
  end.

Definition with_recursive (fuel : nat) (initial : list A) : option (list A) :=
  run_queue fuel [] (distinct A_eq_dec initial).

(** The rows of the recursive table: those of the initial select and
    those the recursive select derives from a row of the table. *)
Inductive derived (initial : list A) : A -> Prop :=
| derived_initial r : In r initial -> derived initial r
| derived_step p r : derived initial p -> In r (step p) -> derived initial r.

End WithRecursive.

(** [SELECT ..., MAX(depth) FROM rows GROUP BY key
     HAVING depth = (SELECT MAX(depth) FROM rows r2 WHERE r2.key = rows.key)]:
    the query that closes both mapping views.  In an aggregate query with
    [MAX], SQLite takes the bare columns of a group, those of the [HAVING]
    included, from a row that holds the maximum; which one, when several
    rows hold it, is left to the engine.  The model takes the first such
    row of the scan: the first row, replaced each time a row with a
    strictly greater value comes.  A group is returned as that row
    together with [MAX(depth)]. *)
Section GroupMax.

Context {R : Type}.
Variable key : R -> string.
Variable depth : R -> Z.

Fixpoint max_row (best : R) (rows : list R) : R :=
  match rows with
  | [] => best
  | r :: t => if depth best <? depth r then max_row r t else max_row best t
  end.

Definition group_max (rows : list R) (k : string) : list (R * Z) :=
  match filter (fun r => String.eqb (key r) k) rows with
  | [] => []
  | r0 :: rest =>
      let bare := max_row r0 rest in
      let having :=
        match sql_max (map depth
                         (filter (fun r2 => String.eqb (key r2) (key bare)) rows)) with
        | Some m => depth bare =? m
        | None => false
        end in
      if having then [(bare, fold_left Z.max (map depth rest) (depth r0))] else []
  end.

Definition group_by_max (rows : list R) : list (R * Z) :=
  flat_map (group_max rows) (distinct string_dec (map key rows)).

End GroupMax.

End Sql.


(** ** The tables ([00_import_all_data.py], [create_tables])

    Columns that no query modelled below reads (the stored percentages of
    [voting_results], timestamps, ...) are left out. *)

Module Schema.

Record voting := {
  v_voting_id : Z;                  (* INTEGER PRIMARY KEY *)
  v_voting_date : string            (* TEXT NOT NULL UNIQUE *)
}.

Record proposal := {
  p_proposal_id : Z;                (* INTEGER PRIMARY KEY *)
  p_voting_id : Z;                  (* INTEGER NOT NULL, REFERENCES votings *)
  p_title_de : option string;
  p_title_fr : option string;
  p_title_it : option string;
  p_angenommen : option bool
}.

Record voting_result := {
  vr_result_id : Z;                 (* INTEGER PRIMARY KEY *)
  vr_voting_id : Z;                 (* INTEGER NOT NULL, REFERENCES votings *)
  vr_proposal_id : Z;               (* INTEGER NOT NULL, REFERENCES proposals *)
  vr_geo_level : string;            (* TEXT NOT NULL *)
  vr_geo_id : string;               (* TEXT NOT NULL *)
  vr_geo_name : option string;
  vr_ja_stimmen_absolut : option Z;
  vr_nein_stimmen_absolut : option Z;
  vr_gueltige_stimmen : option Z;
  vr_eingelegte_stimmzettel : option Z;
  vr_anzahl_stimmberechtigte : option Z
}.

Record municipal_change := {
  mc_mutation_number : option string;
  mc_old_canton : option string;
  mc_old_district_number : option string;
  mc_old_bfs_number : option string;
  mc_old_name : option string;
  mc_new_canton : option string;
  mc_new_district_number : option string;
  mc_new_bfs_number : option string;
  mc_new_name : option string;
  mc_mutation_date : option string;
  mc_mutation_type : option string;
  mc_is_merger : option bool;
  mc_is_split : option bool;
  mc_is_rename : option bool;
  mc_is_reassignment : option bool
}.

Record database := {
  votings : list voting;
  proposals : list proposal;
  voting_results : list voting_result;
  municipal_changes : list municipal_change
}.

(** A change record that only carries what the views read. *)
Definition change (old_bfs old_name new_bfs new_name date : string) : municipal_change :=
  {| mc_mutation_number := None;
     mc_old_canton := None; mc_old_district_number := None;
     mc_old_bfs_number := Some old_bfs; mc_old_name := Some old_name;
     mc_new_canton := None; mc_new_district_number := None;
     mc_new_bfs_number := Some new_bfs; mc_new_name := Some new_name;
     mc_mutation_date := Some date; mc_mutation_type := None;
     mc_is_merger := None; mc_is_split := None;
     mc_is_rename := None; mc_is_reassignment := None |}.

(** A municipality-level result row. *)
Definition result (id voting prop : Z) (bfs name : string)
    (ja nein gueltig eingelegt berechtigt : Z) : voting_result :=
  {| vr_result_id := id; vr_voting_id := voting; vr_proposal_id := prop;
     vr_geo_level := "municipality"; vr_geo_id := bfs; vr_geo_name := Some name;
     vr_ja_stimmen_absolut := Some ja; vr_nein_stimmen_absolut := Some nein;
     vr_gueltige_stimmen := Some gueltig;
     vr_eingelegte_stimmzettel := Some eingelegt;
     vr_anzahl_stimmberechtigte := Some berechtigt |}.

Definition simple_proposal (id voting : Z) : proposal :=
  {| p_proposal_id := id; p_voting_id := voting;
     p_title_de := None; p_title_fr := None; p_title_it := None;
     p_angenommen := None |}.

Definition option_string_dec (a b : option string) : {a = b} + {a <> b}.
Proof. decide equality; apply string_dec. Defined.

Definition option_Z_dec (a b : option Z) : {a = b} + {a <> b}.
Proof. decide equality; apply Z.eq_dec. Defined.

Definition option_bool_dec (a b : option bool) : {a = b} + {a <> b}.
Proof. decide equality; apply bool_dec. Defined.

(** The constraints the schema declares: the two primary keys and the
    foreign keys of [proposals] and [voting_results] into [votings]. *)
Fixpoint unique (l : list Z) : bool :=
  match l with
  | [] => true
  | x :: t => negb (existsb (Z.eqb x) t) && unique t
  end.

Definition integrity (db : database) : bool :=
  unique (map v_voting_id (votings db)) &&
  unique (map p_proposal_id (proposals db)) &&
  forallb (fun p => existsb (fun v => v_voting_id v =? p_voting_id p) (votings db))
          (proposals db) &&
  forallb (fun vr => existsb (fun v => v_voting_id v =? vr_voting_id vr) (votings db))
          (voting_results db).

End Schema.

(** ** [scripts/create_analysis_views.py] *)

Module AnalysisViews.

Import Sql Schema.

Definition is_municipality (vr : voting_result) : bool :=
  String.eqb (vr_geo_level vr) "municipality".

(** *** [v_stable_municipality_mapping] *)

Record voting_municipality := {
  vm_bfs : string;
  vm_name : option string;
  vm_first_appearance : option string
}.

Definition voting_municipality_dec (a b : voting_municipality) : {a = b} + {a <> b}.
Proof. decide equality; auto using string_dec, option_string_dec. Defined.

Definition name_key_dec (a b : string * option string) : {a = b} + {a <> b}.
Proof. decide equality; auto using string_dec, option_string_dec. Defined.

(** [FROM voting_results vr INNER JOIN votings v ON vr.voting_id = v.voting_id
     WHERE vr.geo_level = 'municipality'] *)
Definition municipality_votings (db : database) : list (voting_result * voting) :=
  flat_map
    (fun vr => map (pair vr)
                 (filter (fun v => vr_voting_id vr =? v_voting_id v) (votings db)))
    (filter is_municipality (voting_results db)).

Definition name_key (j : voting_result * voting) : string * option string :=
  (vr_geo_id (fst j), vr_geo_name (fst j)).

(** [SELECT DISTINCT geo_id, geo_name, MIN(v.voting_date) ... GROUP BY geo_id, geo_name] *)
Definition voting_municipalities (db : database) : list voting_municipality :=
  let joined := municipality_votings db in
  distinct voting_municipality_dec
    (map (fun k =>
            {| vm_bfs := fst k;
               vm_name := snd k;
               vm_first_appearance :=
                 sql_min_text
                   (map (fun j => v_voting_date (snd j))
                      (filter (fun j => if name_key_dec (name_key j) k then true else false)
                         joined)) |})
       (distinct name_key_dec (map name_key joined))).

(** A change whose BFS number really changes. *)
Definition bfs_changed (mc : municipal_change) : bool :=
  text_ne (mc_old_bfs_number mc) (mc_new_bfs_number mc).

(** [true_splits]: one BFS number becomes several on the same date. *)
Definition true_splits (db : database) : list (option string) :=
  distinct option_string_dec
    (map mc_old_bfs_number
       (filter
          (fun mc1 =>
             bfs_changed mc1 &&
             existsb
               (fun mc2 =>
                  text_eq (mc_old_bfs_number mc2) (mc_old_bfs_number mc1) &&
                  text_ne (mc_new_bfs_number mc2) (mc_new_bfs_number mc1) &&
                  text_eq (mc_mutation_date mc2) (mc_mutation_date mc1) &&
                  bfs_changed mc2)
               (municipal_changes db))
          (municipal_changes db))).

(** [x NOT IN (SELECT ...)]: true on an empty list; otherwise true only
    if [x] compares different from every element, and a comparison with
    NULL is not true. *)
Definition sql_not_in (x : option string) (l : list (option string)) : bool :=
  match l with
  | [] => true
  | _ => forallb (text_ne x) l
  end.

Record chain_row := {
  original_bfs : string;
  original_name : option string;
  analysis_bfs : option string;
  analysis_name : option string;
  first_appearance : option string;
  depth : Z
}.

Definition chain_row_dec (a b : chain_row) : {a = b} + {a <> b}.
Proof. decide equality; auto using string_dec, option_string_dec, Z.eq_dec. Defined.

(** Base case of [merger_chain]. *)
Definition merger_chain_initial (db : database) : list chain_row :=
  map (fun vm =>
         {| original_bfs := vm_bfs vm;
            original_name := vm_name vm;
            analysis_bfs := Some (vm_bfs vm);
            analysis_name := vm_name vm;
            first_appearance := vm_first_appearance vm;
            depth := 0 |})
      (voting_municipalities db).

(** Recursive case of [merger_chain], run on one row [mc_recursive]. *)
Definition merger_chain_step (db : database) (mc_recursive : chain_row) : list chain_row :=
  map (fun mch =>
         {| original_bfs := original_bfs mc_recursive;
            original_name := original_name mc_recursive;
            analysis_bfs := mc_new_bfs_number mch;
            analysis_name := mc_new_name mch;
            first_appearance := first_appearance mc_recursive;
            depth := depth mc_recursive + 1 |})
      (filter
         (fun mch =>
            text_eq (analysis_bfs mc_recursive) (mc_old_bfs_number mch) &&
            (depth mc_recursive <? 10) &&
            bfs_changed mch &&
            text_ge (mc_mutation_date mch) (first_appearance mc_recursive) &&
            sql_not_in (analysis_bfs mc_recursive) (true_splits db))
         (municipal_changes db)).

Definition merger_chain_run (fuel : nat) (db : database) : option (list chain_row) :=
  with_recursive chain_row_dec (merger_chain_step db) fuel (merger_chain_initial db).

(** Enough fuel for every database (see [merger_chain_terminates]): one
    more than the number of rows that can exist, a seed at depth 0 or a
    seed with the successor of a change record at depth 1 to 10. *)
Definition merger_chain_fuel (db : database) : nat :=
  S (List.length (voting_municipalities db)
     * S (List.length (municipal_changes db) * 10)).

Definition merger_chain (db : database) : list chain_row :=
  match merger_chain_run (merger_chain_fuel db) db with
  | Some rows => rows
  | None => []
  end.

Record mapping_row := {
  m_original_bfs : string;
  m_original_name : option string;
  m_analysis_bfs : option string;
  m_analysis_name : option string;
  m_first_appearance : option string;
  m_merge_depth : Z
}.

(** [SELECT original_bfs, original_name, analysis_bfs, analysis_name,
            first_appearance, MAX(depth) as merge_depth
     FROM merger_chain GROUP BY original_bfs
     HAVING depth = (SELECT MAX(depth) FROM merger_chain mc2
                     WHERE mc2.original_bfs = merger_chain.original_bfs)] *)
Definition stable_mapping_of (chain : list chain_row) : list mapping_row :=
  map (fun g =>
         {| m_original_bfs := original_bfs (fst g);
            m_original_name := original_name (fst g);
            m_analysis_bfs := analysis_bfs (fst g);
            m_analysis_name := analysis_name (fst g);
            m_first_appearance := first_appearance (fst g);
            m_merge_depth := snd g |})
      (group_by_max original_bfs depth chain).

Definition v_stable_municipality_mapping (db : database) : list mapping_row :=
  stable_mapping_of (merger_chain db).


(** *** [v_voting_results_analysis] *)

(** A row of
    [votings v INNER JOIN proposals p ON v.voting_id = p.voting_id
     INNER JOIN voting_results vr ON p.proposal_id = vr.proposal_id
     INNER JOIN v_stable_municipality_mapping m ON vr.geo_id = m.original_bfs]. *)
Record joined_row := {
  j_v : voting;
  j_p : proposal;
  j_vr : voting_result;
  j_m : mapping_row
}.

Definition analysis_join (db : database) : list joined_row :=
  let mapping := v_stable_municipality_mapping db in
  flat_map
    (fun v =>
       flat_map
         (fun p =>
            flat_map
              (fun vr =>
                 map (fun m => {| j_v := v; j_p := p; j_vr := vr; j_m := m |})
                     (filter (fun m => String.eqb (vr_geo_id vr) (m_original_bfs m))
                             mapping))
              (filter (fun vr => (p_proposal_id p =? vr_proposal_id vr)
                                 && is_municipality vr)
                      (voting_results db)))
         (filter (fun p => v_voting_id v =? p_voting_id p) (proposals db)))
    (votings db).

(** The columns of the [GROUP BY]. *)
Record analysis_key := {
  k_voting_id : Z;
  k_voting_date : string;
  k_proposal_id : Z;
  k_title_de : option string;
  k_title_fr : option string;
  k_title_it : option string;
  k_angenommen : option bool;
  k_analysis_bfs : option string;
  k_analysis_name : option string
}.

Definition analysis_key_dec (a b : analysis_key) : {a = b} + {a <> b}.
Proof.
  decide equality;
    auto using string_dec, option_string_dec, option_bool_dec, Z.eq_dec.
Defined.

Definition key_of (j : joined_row) : analysis_key :=
  {| k_voting_id := v_voting_id (j_v j);
     k_voting_date := v_voting_date (j_v j);
     k_proposal_id := p_proposal_id (j_p j);
     k_title_de := p_title_de (j_p j);
     k_title_fr := p_title_fr (j_p j);
     k_title_it := p_title_it (j_p j);
     k_angenommen := p_angenommen (j_p j);
     k_analysis_bfs := m_analysis_bfs (j_m j);
     k_analysis_name := m_analysis_name (j_m j) |}.

Definition in_group (k : analysis_key) (j : joined_row) : bool :=
  if analysis_key_dec (key_of j) k then true else false.

(** [ROUND(x, 2)] on an exact rational: the nearest hundredth, a tie
    going away from zero (SQLite rounds the decimal expansion of the
    double that way). *)
Definition round2 (x : Q) : Q :=
  let h := (x * 100)%Q in
  let n := Qnum h in
  let d := Zpos (Qden h) in
  Qmake (Z.sgn n * ((2 * Z.abs n + d) / (2 * d))) 100.

(** [CASE WHEN den > 0 THEN ROUND(100.0 * num / den, 2) ELSE NULL END] *)
Definition percent (num den : option Z) : option Q :=
  match den with
  | Some d =>
      if 0 <? d
      then match num with
           | Some n => Some (round2 (100 * inject_Z n / inject_Z d)%Q)
           | None => None
           end
      else None
  | None => None
  end.

Record analysis_row := {
  voting_id : Z;
  voting_date : string;
  proposal_id : Z;
  title_de : option string;
  title_fr : option string;
  title_it : option string;
  angenommen : option bool;
  municipality_id : option string;
  municipality_name : option string;
  ja_stimmen_absolut : option Z;
  nein_stimmen_absolut : option Z;
  gueltige_stimmen : option Z;
  eingelegte_stimmzettel : option Z;
  anzahl_stimmberechtigte : option Z;
  ja_prozent : option Q;
  stimmbeteiligung : option Q;
  source_municipality_count : Z;
  (** [GROUP_CONCAT(DISTINCT vr.geo_id)]: the ids it joins with commas. *)
  source_bfs_numbers : list string
}.

(** The select list, evaluated on the rows of one group. *)
Definition aggregate (k : analysis_key) (rows : list joined_row) : analysis_row :=
  let sum col := sql_sum (map (fun j => col (j_vr j)) rows) in
  let sources := distinct string_dec (map (fun j => vr_geo_id (j_vr j)) rows) in
  {| voting_id := k_voting_id k;
     voting_date := k_voting_date k;
     proposal_id := k_proposal_id k;
     title_de := k_title_de k;
     title_fr := k_title_fr k;
     title_it := k_title_it k;
     angenommen := k_angenommen k;
     municipality_id := k_analysis_bfs k;
     municipality_name := k_analysis_name k;
     ja_stimmen_absolut := sum vr_ja_stimmen_absolut;
     nein_stimmen_absolut := sum vr_nein_stimmen_absolut;
     gueltige_stimmen := sum vr_gueltige_stimmen;
     eingelegte_stimmzettel := sum vr_eingelegte_stimmzettel;
     anzahl_stimmberechtigte := sum vr_anzahl_stimmberechtigte;
     ja_prozent := percent (sum vr_ja_stimmen_absolut) (sum vr_gueltige_stimmen);
     stimmbeteiligung :=
       percent (sum vr_eingelegte_stimmzettel) (sum vr_anzahl_stimmberechtigte);
     source_municipality_count := Z.of_nat (List.length sources);
     source_bfs_numbers := sources |}.

Definition v_voting_results_analysis (db : database) : list analysis_row :=
  let joined := analysis_join db in
  map (fun k => aggregate k (filter (in_group k) joined))
      (distinct analysis_key_dec (map key_of joined)).

(** *** [verify_perfect_matching] and [main] *)

(** [original_sums]: [voting_results vr INNER JOIN proposals p
     ON vr.proposal_id = p.proposal_id WHERE vr.geo_level = 'municipality'
     GROUP BY p.proposal_id]. *)
Record sums_row := {
  s_proposal_id : Z;
  s_ja : option Z;
  s_nein : option Z
}.

Definition original_sums (db : database) : list sums_row :=
  let joined :=
    flat_map
      (fun vr => map (pair vr)
                   (filter (fun p => vr_proposal_id vr =? p_proposal_id p) (proposals db)))
      (filter is_municipality (voting_results db)) in
  map (fun k =>
         let rows := filter (fun j => p_proposal_id (snd j) =? k) joined in
         {| s_proposal_id := k;
            s_ja := sql_sum (map (fun j => vr_ja_stimmen_absolut (fst j)) rows);
            s_nein := sql_sum (map (fun j => vr_nein_stimmen_absolut (fst j)) rows) |})
      (distinct Z.eq_dec (map (fun j => p_proposal_id (snd j)) joined)).

(** [aggregated_sums]: [v_voting_results_analysis GROUP BY proposal_id]. *)
Definition aggregated_sums (db : database) : list sums_row :=
  let view := v_voting_results_analysis db in
  map (fun k =>
         let rows := filter (fun a => proposal_id a =? k) view in
         {| s_proposal_id := k;
            s_ja := sql_sum (map ja_stimmen_absolut rows);
            s_nein := sql_sum (map nein_stimmen_absolut rows) |})
      (distinct Z.eq_dec (map proposal_id view)).

Record mismatch_row := {
  mm_proposal_id : Z;
  mm_original_ja : option Z;
  mm_aggregated_ja : option Z;
  mm_original_nein : option Z;
  mm_aggregated_nein : option Z;
  mm_ja_diff : option Z;
  mm_nein_diff : option Z
}.

(** [ABS(o - a)]; NULL as soon as one side is NULL. *)
Definition abs_diff (o a : option Z) : option Z :=
  match o, a with
  | Some x, Some y => Some (Z.abs (x - y))
  | _, _ => None
  end.

(** [d > 0.1]; a comparison with NULL is not true. *)
Definition exceeds_tolerance (d : option Z) : bool :=
  match d with
  | Some x => negb (Qle_bool (inject_Z x) (1 # 10))
  | None => false
  end.

(** [ORDER BY ja_diff DESC]: NULL sorts as the smallest value.  SQLite
    does not fix the order of rows with equal keys; the model keeps them
    in scan order. *)
Definition diff_geb (a b : option Z) : bool :=
  match a, b with
  | _, None => true
  | None, Some _ => false
  | Some x, Some y => y <=? x
  end.

Fixpoint insert_by_ja_diff (r : mismatch_row) (l : list mismatch_row) : list mismatch_row :=
  match l with
  | [] => [r]
  | h :: t =>
      if diff_geb (mm_ja_diff h) (mm_ja_diff r)
      then h :: insert_by_ja_diff r t
      else r :: l
  end.

Definition order_by_ja_diff_desc (l : list mismatch_row) : list mismatch_row :=
  fold_left (fun acc r => insert_by_ja_diff r acc) l [].

(** The query of [verify_perfect_matching]. *)
Definition mismatches (db : database) : list mismatch_row :=
  let compared :=
    flat_map
      (fun o =>
         map (fun a =>
                {| mm_proposal_id := s_proposal_id o;
                   mm_original_ja := s_ja o;
                   mm_aggregated_ja := s_ja a;
                   mm_original_nein := s_nein o;
                   mm_aggregated_nein := s_nein a;
                   mm_ja_diff := abs_diff (s_ja o) (s_ja a);
                   mm_nein_diff := abs_diff (s_nein o) (s_nein a) |})
             (filter (fun a => s_proposal_id o =? s_proposal_id a) (aggregated_sums db)))
      (original_sums db) in
  firstn 10
    (order_by_ja_diff_desc
       (filter (fun r => exceeds_tolerance (mm_ja_diff r)
                         || exceeds_tolerance (mm_nein_diff r))
               compared)).

(** What [verify_perfect_matching] logs about the comparison (the
    municipality statistics it logs afterwards are left out). *)
Inductive log_entry :=
| InfoPerfectMatch
| WarningMismatchCount (n : nat)
| WarningMismatch (proposal : Z) (ja_diff nein_diff : option Z)
| ErrorDatabaseNotFound.

Definition verify_perfect_matching (db : database) : list log_entry :=
  match mismatches db with
  | [] => [InfoPerfectMatch]
  | rows =>
      WarningMismatchCount (List.length rows)
      :: map (fun r => WarningMismatch (mm_proposal_id r) (mm_ja_diff r) (mm_nein_diff r))
             rows
  end.

(** [main]: the exit status and the log of the verification.  [None] is a
    missing database file.  The views are created before the verification
    and nothing is done with its outcome but logging it. *)
Definition main (file : option database) : Z * list log_entry :=
  match file with
  | None => (1, [ErrorDatabaseNotFound])
  | Some db => (0, verify_perfect_matching db)
  end.
End AnalysisViews.

(** ** [scripts/create_merger_views_old.py] *)

Module MergerViewsOld.

Import Sql Schema.

Record successor_row := {
  sc_original_bfs : string;
  sc_original_name : option string;
  sc_current_bfs : option string;
  sc_current_name : option string;
  sc_merge_depth : Z
}.

Definition successor_row_dec (a b : successor_row) : {a = b} + {a <> b}.
Proof. decide equality; auto using string_dec, option_string_dec, Z.eq_dec. Defined.

(** Base case of [successor_chain]:
    [SELECT DISTINCT geo_id, geo_name, geo_id, geo_name, 0
     FROM voting_results WHERE geo_level = 'municipality']. *)
Definition successor_chain_initial (db : database) : list successor_row :=
  distinct successor_row_dec
    (map (fun vr =>
            {| sc_original_bfs := vr_geo_id vr;
               sc_original_name := vr_geo_name vr;
               sc_current_bfs := Some (vr_geo_id vr);
               sc_current_name := vr_geo_name vr;
               sc_merge_depth := 0 |})
         (filter (fun vr => String.eqb (vr_geo_level vr) "municipality")
                 (voting_results db))).

(** Recursive case of [successor_chain], run on one row [sc]. *)
Definition successor_chain_step (db : database) (sc : successor_row) : list successor_row :=
  map (fun mc =>
         {| sc_original_bfs := sc_original_bfs sc;
            sc_original_name := sc_original_name sc;
            sc_current_bfs := mc_new_bfs_number mc;
            sc_current_name := mc_new_name mc;
            sc_merge_depth := sc_merge_depth sc + 1 |})
      (filter
         (fun mc =>
            text_eq (sc_current_bfs sc) (mc_old_bfs_number mc) &&
            (sc_merge_depth sc <? 10) &&
            text_ne (mc_old_bfs_number mc) (mc_new_bfs_number mc))
         (municipal_changes db)).

Definition successor_chain_run (fuel : nat) (db : database) : option (list successor_row) :=
  with_recursive successor_row_dec (successor_chain_step db) fuel
    (successor_chain_initial db).

Definition successor_chain_fuel (db : database) : nat :=
  S (List.length (successor_chain_initial db)
     * S (List.length (municipal_changes db) * 10)).

Definition successor_chain (db : database) : list successor_row :=
  match successor_chain_run (successor_chain_fuel db) db with
  | Some rows => rows
  | None => []
  end.

Record current_mapping_row := {
  cm_original_bfs : string;
  cm_original_name : option string;
  cm_current_bfs : option string;
  cm_current_name : option string;
  cm_total_mergers : Z
}.

(** [SELECT original_bfs, original_name, current_bfs, current_name,
            MAX(merge_depth) as total_mergers
     FROM successor_chain GROUP BY original_bfs HAVING merge_depth = (...)] *)
Definition v_municipality_mapping (db : database) : list current_mapping_row :=
  map (fun g =>
         {| cm_original_bfs := sc_original_bfs (fst g);
            cm_original_name := sc_original_name (fst g);
            cm_current_bfs := sc_current_bfs (fst g);
            cm_current_name := sc_current_name (fst g);
            cm_total_mergers := snd g |})
      (group_by_max sc_original_bfs sc_merge_depth (successor_chain db)).

End MergerViewsOld.

(** ** [scripts/import_municipal_changes.py]

    The sheet as pandas hands it over: one record per row, a cell being
    empty, a number, a text or a date.  (Numbers are the integers of the
    BFS registers; a date cell carries a calendar day.) *)

Module ImportMunicipalChanges.

Import Schema.

Inductive cell :=
| NaN
| Int (z : Z)
| Str (s : string)
| Date (year month day : Z).

Definition cell_dec (a b : cell) : {a = b} + {a <> b}.
Proof. decide equality; auto using string_dec, Z.eq_dec. Defined.

Record sheet_row := {
  mutation_number : cell;
  old_canton : cell;
  old_district_number : cell;
  old_bfs_number : cell;
  old_name : cell;
  new_canton : cell;
  new_district_number : cell;
  new_bfs_number : cell;
  new_name : cell;
  mutation_date : cell
}.

Definition notna (c : cell) : bool :=
  match c with NaN => false | _ => true end.

(** Elementwise [==] and [!=] of pandas: an empty cell equals nothing,
    itself included. *)
Definition cell_eq (a b : cell) : bool :=
  match a, b with
  | NaN, _ | _, NaN => false
  | _, _ => if cell_dec a b then true else false
  end.

Definition cell_ne (a b : cell) : bool := negb (cell_eq a b).

Definition decimal (z : Z) : string := NilZero.string_of_int (Z.to_int z).

(** A number of at most [width] digits, padded with zeros on the left. *)
Definition padded (width : nat) (z : Z) : string :=
  let s := decimal z in
  String.concat "" (repeat "0" (width - String.length s)) ++ s.

(** [strftime('%Y%m%d')] *)
Definition yyyymmdd (y m d : Z) : string :=
  padded 4 y ++ padded 2 m ++ padded 2 d.

(** [str(value)] *)
Definition str (c : cell) : string :=
  match c with
  | NaN => "nan"
  | Int z => decimal z
  | Str s => s
  | Date y m d => padded 4 y ++ "-" ++ padded 2 m ++ "-" ++ padded 2 d ++ " 00:00:00"
  end.

Definition lower_ascii (c : ascii) : ascii :=
  let n := nat_of_ascii c in
  if ((65 <=? n) && (n <=? 90))%nat then ascii_of_nat (n + 32) else c.

Fixpoint lower (s : string) : string :=
  match s with
  | EmptyString => EmptyString
  | String c t => String (lower_ascii c) (lower t)
  end.

Definition is_digit (c : ascii) : bool :=
  let n := nat_of_ascii c in ((48 <=? n) && (n <=? 57))%nat.

Fixpoint all_digits (s : string) : bool :=
  match s with
  | EmptyString => true
  | String c t => is_digit c && all_digits t
  end.

Fixpoint digits_then_fraction (seen_digit : bool) (s : string) : bool :=
  match s with
  | EmptyString => seen_digit
  | String c t =>
      if is_digit c then digits_then_fraction true t
      else if Ascii.eqb c "." then seen_digit && all_digits t
      else false
  end.

(** The texts [pd.to_numeric] turns into a number: signed decimal
    numerals (its parser also takes exponents and blanks around the
    numeral, which no BFS register uses). *)
Definition numeric_text (s : string) : bool :=
  match s with
  | String c t =>
      if Ascii.eqb c "-" || Ascii.eqb c "+"
      then digits_then_fraction false t
      else digits_then_fraction false s
  | EmptyString => false
  end.

(** [pd.to_numeric(col, errors='coerce').isna() & col.notna()] *)
Definition non_numeric (c : cell) : bool :=
  match c with
  | Str s => negb (numeric_text s)
  | Date _ _ _ => true
  | NaN | Int _ => false
  end.

Inductive warning :=
| HeaderRowInData
| NonNumericOld (rows : nat)
| NonNumericNew (rows : nat).

(** [read_excel_with_validation], from the renamed frame on: a header row
    repeated in the data is removed, non-numeric BFS numbers are counted
    and warned about, and the frame is returned. *)
Definition read_excel_with_validation (df : list sheet_row)
    : list sheet_row * list warning :=
  let header :=
    match df with
    | first :: _ => String.eqb (lower (str (mutation_number first))) "mutationsnummer"
    | [] => false
    end in
  let df' :=
    if header
    then filter (fun r => cell_ne (mutation_number r) (Str "Mutationsnummer")) df
    else df in
  let non_numeric_old := filter (fun r => non_numeric (old_bfs_number r)) df' in
  let non_numeric_new := filter (fun r => non_numeric (new_bfs_number r)) df' in
  (df',
   (if header then [HeaderRowInData] else [])
   ++ (if (0 <? List.length non_numeric_old)%nat
       then [NonNumericOld (List.length non_numeric_old)] else [])
   ++ (if (0 <? List.length non_numeric_new)%nat
       then [NonNumericNew (List.length non_numeric_new)] else [])).

Record analyzed_row := {
  sheet : sheet_row;
  mutation_type : string;
  is_merger : bool;
  is_split : bool;
  is_rename : bool;
  is_reassignment : bool
}.

(** [get_change_type] *)
Definition get_change_type (row : sheet_row) : string :=
  let changes :=
    (if notna (old_bfs_number row) && notna (new_bfs_number row)
        && negb (String.eqb (str (old_bfs_number row)) (str (new_bfs_number row)))
     then ["bfs_change"] else [])
    ++ (if notna (old_name row) && notna (new_name row)
           && cell_ne (old_name row) (new_name row)
        then ["name_change"] else [])
    ++ (if notna (old_canton row) && notna (new_canton row)
           && cell_ne (old_canton row) (new_canton row)
        then ["canton_change"] else [])
    ++ (if notna (old_district_number row) && notna (new_district_number row)
           && negb (String.eqb (str (old_district_number row))
                               (str (new_district_number row)))
        then ["district_change"] else []) in
  match changes with
  | [] => "unknown"
  | _ => String.concat "|" changes
  end.

(** [df[col].isin(counts[counts > 1].index)] for
    [counts = df.groupby(col).size()]: the cell is not empty and more than
    one row carries its value in the column. *)
Definition shared_value (col : sheet_row -> cell) (df : list sheet_row) (row : sheet_row) : bool :=
  notna (col row)
  && (1 <? List.length (filter (fun r => cell_eq (col r) (col row)) df))%nat.

(** [analyze_changes] *)
Definition analyze_changes (df : list sheet_row) : list analyzed_row :=
  map (fun row =>
         {| sheet := row;
            mutation_type := get_change_type row;
            is_merger := shared_value new_bfs_number df row;
            is_split := shared_value old_bfs_number df row;
            is_rename := cell_eq (old_bfs_number row) (new_bfs_number row)
                         && cell_ne (old_name row) (new_name row);
            is_reassignment := cell_ne (old_canton row) (new_canton row)
                               || cell_ne (old_district_number row)
                                          (new_district_number row) |})
      df.

(** [pd.api.types.is_datetime64_any_dtype(df['mutation_date'])]: the
    column holds dates (and empty cells) only. *)
Definition is_datetime_column (df : list analyzed_row) : bool :=
  forallb (fun r => match mutation_date (sheet r) with
                    | Date _ _ _ | NaN => true
                    | _ => false
                    end) df
  && existsb (fun r => match mutation_date (sheet r) with
                       | Date _ _ _ => true
                       | _ => false
                       end) df.

(** The value SQLite stores in a TEXT column for a bound cell: NULL for an
    empty cell, the decimal numeral of a number, the text itself, and the
    ISO text of a date that was not formatted before. *)
Definition bind_text (c : cell) : option string :=
  match c with
  | NaN => None
  | _ => Some (str c)
  end.

(** [import_to_database]: dates are formatted [%Y%m%d] when the column is
    a date column, and every row is inserted. *)
Definition import_to_database (df : list analyzed_row) : list municipal_change * (nat * nat) :=
  let dates := is_datetime_column df in
  let date_of c :=
    match c with
    | Date y m d => if dates then Str (yyyymmdd y m d) else c
    | _ => c
    end in
  let rows :=
    map (fun r =>
           let row := sheet r in
           {| mc_mutation_number := bind_text (mutation_number row);
              mc_old_canton := bind_text (old_canton row);
              mc_old_district_number := bind_text (old_district_number row);
              mc_old_bfs_number := bind_text (old_bfs_number row);
              mc_old_name := bind_text (old_name row);
              mc_new_canton := bind_text (new_canton row);
              mc_new_district_number := bind_text (new_district_number row);
              mc_new_bfs_number := bind_text (new_bfs_number row);
              mc_new_name := bind_text (new_name row);
              mc_mutation_date := bind_text (date_of (mutation_date row));
              mc_mutation_type := Some (mutation_type r);
              mc_is_merger := Some (is_merger r);
              mc_is_split := Some (is_split r);
              mc_is_rename := Some (is_rename r);
              mc_is_reassignment := Some (is_reassignment r) |})
        df in
  (rows, (List.length rows, 0%nat)).

(** [main], from the sheet to the table [municipal_changes]. *)
Definition imported_table (df : list sheet_row) : list municipal_change :=
  fst (import_to_database (analyze_changes (fst (read_excel_with_validation df)))).

End ImportMunicipalChanges.

(** ** Example databases *)

Module Examples.

Import Schema.

(** The end-to-end example: 1001 merges into 2002 in 2010, 2002 into
    3003 in 2015; 1001 votes in 2005. *)
Definition db_e2e : database :=
  {| votings := [ {| v_voting_id := 1; v_voting_date := "20050605" |} ];
     proposals := [ simple_proposal 1 1 ];
     voting_results := [ result 1 1 1 "1001" "OldTown" 40 60 100 110 200 ];
     municipal_changes :=
       [ change "1001" "OldTown" "2002" "NewTown" "20100101";
         change "2002" "NewTown" "3003" "Capital" "20150101" ] |}.

(** A cycle in the change records: 100 becomes 200, 200 becomes 100. *)
Definition db_cycle : database :=
  {| votings := [ {| v_voting_id := 1; v_voting_date := "20050605" |} ];
     proposals := [ simple_proposal 1 1 ];
     voting_results := [ result 1 1 1 "100" "Dorf" 40 60 100 110 200 ];
     municipal_changes :=
       [ change "100" "Dorf" "200" "Stadt" "20100101";
         change "200" "Stadt" "100" "Dorf" "20150101" ] |}.

(** Two municipalities of unequal size that merge after the vote. *)
Definition db_ratio : database :=
  {| votings := [ {| v_voting_id := 1; v_voting_date := "20050605" |} ];
     proposals := [ simple_proposal 1 1 ];
     voting_results :=
       [ result 1 1 1 "100" "Dorf" 90 10 100 110 200;
         result 2 1 1 "200" "Stadt" 10 890 900 910 2000 ];
     municipal_changes :=
       [ change "100" "Dorf" "300" "Burg" "20100101";
         change "200" "Stadt" "300" "Burg" "20100101" ] |}.

(** Two changes of 100 on different dates, to different successors. *)
Definition db_sequential : database :=
  {| votings := []; proposals := []; voting_results := [];
     municipal_changes :=
       [ change "100" "Dorf" "200" "Stadt" "20100101";
         change "100" "Dorf" "300" "Burg" "20120101" ] |}.

(** A true split: 100 becomes 200 and 300 on the same day, after it
    voted. *)
Definition db_split : database :=
  {| votings := [ {| v_voting_id := 1; v_voting_date := "20050605" |} ];
     proposals := [ simple_proposal 1 1 ];
     voting_results := [ result 1 1 1 "100" "Dorf" 40 60 100 110 200 ];
     municipal_changes :=
       [ change "100" "Dorf" "200" "Stadt" "20100101";
         change "100" "Dorf" "300" "Burg" "20100101" ] |}.

(** Two changes of 100 on different dates again, with 100 voting before
    both. *)
Definition db_conflict : database :=
  {| votings := [ {| v_voting_id := 1; v_voting_date := "20050605" |} ];
     proposals := [ simple_proposal 1 1 ];
     voting_results := [ result 1 1 1 "100" "Dorf" 40 60 100 110 200 ];
     municipal_changes :=
       [ change "100" "Dorf" "200" "Stadt" "20100101";
         change "100" "Dorf" "300" "Burg" "20120101" ] |}.

(** A result row whose [voting_id] names no voting: the foreign key is
    declared, but SQLite does not enforce it unless asked to. *)
Definition db_dangling : database :=
  {| votings := [ {| v_voting_id := 1; v_voting_date := "20050605" |} ];
     proposals := [ simple_proposal 1 1 ];
     voting_results :=
       [ result 1 1 1 "100" "Dorf" 40 60 100 110 200;
         result 2 9 1 "200" "Stadt" 7 3 10 10 20 ];
     municipal_changes := [] |}.

(** A sheet with a BFS number that is no number and a date that is no
    date. *)
Definition sheet_malformed : list ImportMunicipalChanges.sheet_row :=
  let row number old_bfs new_bfs new_name date :=
    ImportMunicipalChanges.Build_sheet_row
      (ImportMunicipalChanges.Int number)
      (ImportMunicipalChanges.Str "ZH") (ImportMunicipalChanges.Int 101)
      old_bfs (ImportMunicipalChanges.Str "Dorf")
      (ImportMunicipalChanges.Str "ZH") (ImportMunicipalChanges.Int 101)
      (ImportMunicipalChanges.Int new_bfs) (ImportMunicipalChanges.Str new_name)
      date in
  [ row 1000 (ImportMunicipalChanges.Str "abc") 200 "Stadt"
        (ImportMunicipalChanges.Str "n/a");
    row 1001 (ImportMunicipalChanges.Str "abc") 300 "Burg"
        (ImportMunicipalChanges.Str "20120101") ].

(** The table imported from it, with votes of "abc". *)
Definition db_malformed : database :=
  {| votings := [ {| v_voting_id := 1; v_voting_date := "20050605" |} ];
     proposals := [ simple_proposal 1 1 ];
     voting_results := [ result 1 1 1 "abc" "Dorf" 40 60 100 110 200 ];
     municipal_changes := ImportMunicipalChanges.imported_table sheet_malformed |}.

End Examples.

(** ** The vocabulary of the properties

    The notions of the specification stated on the model, and the lists
    the proofs count with. *)

Module Statements.

Import Sql Schema AnalysisViews MergerViewsOld.

(** *** Seeds and true split origins *)

(** [g] appears in municipality-level voting data. *)
Definition in_voting_data (db : database) (g : string) : Prop :=
  exists vr, In vr (voting_results db) /\ is_municipality vr = true /\ vr_geo_id vr = g.

(** A true split origin in the words of the specification: two structural
    change records (old number different from new number) with that old
    number, the same date and different successors. *)
Definition simultaneous_divergence (db : database) (x : string) : Prop :=
  exists mc1 mc2 n1 n2 d,
    In mc1 (municipal_changes db) /\ In mc2 (municipal_changes db) /\
    mc_old_bfs_number mc1 = Some x /\ mc_old_bfs_number mc2 = Some x /\
    mc_new_bfs_number mc1 = Some n1 /\ mc_new_bfs_number mc2 = Some n2 /\
    x <> n1 /\ x <> n2 /\ n1 <> n2 /\
    mc_mutation_date mc1 = Some d /\ mc_mutation_date mc2 = Some d.

(** Changes of [x] that are sequential: no two different records that
    start from [x] carry the same date. *)
Definition sequential_only (db : database) (x : string) : Prop :=
  forall mc1 mc2,
    In mc1 (municipal_changes db) -> In mc2 (municipal_changes db) ->
    mc_old_bfs_number mc1 = Some x -> mc_old_bfs_number mc2 = Some x ->
    mc1 <> mc2 -> mc_mutation_date mc1 <> mc_mutation_date mc2.

(** *** The chains *)

(** Every row the recursion of [merger_chain] can produce: a seed
    unchanged at depth 0, or a seed with the successor of some change
    record at depth 1 to 10. *)
Definition chain_universe (db : database) : list chain_row :=
  flat_map
    (fun vm =>
       {| original_bfs := vm_bfs vm; original_name := vm_name vm;
          analysis_bfs := Some (vm_bfs vm); analysis_name := vm_name vm;
          first_appearance := vm_first_appearance vm; depth := 0 |}
       :: flat_map
            (fun mch =>
               map (fun d =>
                      {| original_bfs := vm_bfs vm; original_name := vm_name vm;
                         analysis_bfs := mc_new_bfs_number mch;
                         analysis_name := mc_new_name mch;
                         first_appearance := vm_first_appearance vm;
                         depth := Z.of_nat d |})
                   (seq 1 10))
            (municipal_changes db))
    (voting_municipalities db).

(** The same for [successor_chain]. *)
Definition successor_universe (db : database) : list successor_row :=
  flat_map
    (fun b =>
       b :: flat_map
              (fun mc =>
                 map (fun d =>
                        {| sc_original_bfs := sc_original_bfs b;
                           sc_original_name := sc_original_name b;
                           sc_current_bfs := mc_new_bfs_number mc;
                           sc_current_name := mc_new_name mc;
                           sc_merge_depth := Z.of_nat d |})
                     (seq 1 10))
              (municipal_changes db))
    (successor_chain_initial db).

(** The mapping row taken from a chain row. *)
Definition mapping_of_row (r : chain_row) : mapping_row :=
  {| m_original_bfs := original_bfs r; m_original_name := original_name r;
     m_analysis_bfs := analysis_bfs r; m_analysis_name := analysis_name r;
     m_first_appearance := first_appearance r; m_merge_depth := depth r |}.

(** The resolver reached its step bound while resolving seed [g]. *)
Definition bound_reached (db : database) (g : string) : Prop :=
  exists r, In r (merger_chain db) /\ original_bfs r = g /\ depth r = 10.

(** Row [p] of the chain has two qualifying outgoing edges with different
    successors (it is then no true split origin: a true split origin has
    no qualifying edge). *)
Definition conflicting (db : database) (p : chain_row) : Prop :=
  exists r1 r2,
    In r1 (merger_chain_step db p) /\ In r2 (merger_chain_step db p) /\
    analysis_bfs r1 <> analysis_bfs r2.

(** *** Totals *)

(** The additive count columns. *)
Inductive count_field := Ja | Nein | Gueltig | Eingelegt | Berechtigt.

(** The column in [voting_results] and in [v_voting_results_analysis]. *)
Definition original_count (f : count_field) (vr : voting_result) : option Z :=
  match f with
  | Ja => vr_ja_stimmen_absolut vr
  | Nein => vr_nein_stimmen_absolut vr
  | Gueltig => vr_gueltige_stimmen vr
  | Eingelegt => vr_eingelegte_stimmzettel vr
  | Berechtigt => vr_anzahl_stimmberechtigte vr
  end.

Definition aggregated_count (f : count_field) (a : analysis_row) : option Z :=
  match f with
  | Ja => ja_stimmen_absolut a
  | Nein => nein_stimmen_absolut a
  | Gueltig => gueltige_stimmen a
  | Eingelegt => eingelegte_stimmzettel a
  | Berechtigt => anzahl_stimmberechtigte a
  end.

(** [SUM(field)] over the municipality-level rows of [voting_results] of
    a proposal, and over the rows of the aggregated view of a proposal. *)
Definition original_total (f : count_field) (db : database) (pid : Z) : option Z :=
  sql_sum (map (original_count f)
             (filter (fun vr => is_municipality vr && (vr_proposal_id vr =? pid))
                     (voting_results db))).

Definition aggregated_total (f : count_field) (db : database) (pid : Z) : option Z :=
  sql_sum (map (aggregated_count f)
             (filter (fun a => proposal_id a =? pid) (v_voting_results_analysis db))).

(** The rows of the join of one proposal. *)
Definition of_proposal (pid : Z) (j : joined_row) : bool :=
  p_proposal_id (j_p j) =? pid.

(** The rows the join has for a voting and one of its proposals. *)
Definition proposal_rows (db : database) (v : voting) (p : proposal) : list joined_row :=
  flat_map
    (fun vr =>
       map (fun m => {| j_v := v; j_p := p; j_vr := vr; j_m := m |})
           (filter (fun m => String.eqb (vr_geo_id vr) (m_original_bfs m))
                   (v_stable_municipality_mapping db)))
    (filter (fun vr => (p_proposal_id p =? vr_proposal_id vr) && is_municipality vr)
            (voting_results db)).

(** *** What the specification asks for and the views do not do *)

(** A seed for which the bound was reached is kept out of the aggregated
    results. *)
Definition halted_excluded (db : database) : Prop :=
  forall g, bound_reached db g ->
  forall a, In a (v_voting_results_analysis db) -> ~ In g (source_bfs_numbers a).

(** A seed whose resolution meets conflicting edges is kept out of the
    identity mapping. *)
Definition conflicts_excluded (db : database) : Prop :=
  forall p, In p (merger_chain db) -> conflicting db p ->
  forall m, In m (v_stable_municipality_mapping db) ->
            m_original_bfs m <> original_bfs p.




End Statements.

Module ImportStatements.

Import Schema ImportMunicipalChanges.




End ImportStatements.

(** ** [scripts/create_analysis_views.py]: the lifecycle table, the data
    quality view and the statistics *)

Module DataQuality.

Import Sql Schema AnalysisViews.

(** The values of a nullable column that are not NULL. *)
Definition non_null {A} (l : list (option A)) : list A :=
  flat_map (fun x => match x with Some a => [a] | None => [] end) l.

Definition text_max (a b : string) : string :=
  if String.leb a b then b else a.

(** [MAX(col)] over TEXT values. *)
Definition sql_max_text (l : list string) : option string :=
  match l with
  | [] => None
  | x :: t => Some (fold_left text_max t x)
  end.

(** *** [analyze_municipality_lifecycle] *)

Record lifecycle_row := {
  lc_geo_id : string;
  lc_geo_name : option string;
  lc_first_appearance : option string;
  lc_last_appearance : option string;
  lc_voting_count : Z
}.

(** [CREATE TEMP TABLE municipality_lifecycle AS
     SELECT geo_id, geo_name, MIN(v.voting_date), MAX(v.voting_date),
            COUNT(DISTINCT v.voting_id)
     FROM voting_results vr INNER JOIN votings v ON vr.voting_id = v.voting_id
     WHERE vr.geo_level = 'municipality' GROUP BY geo_id, geo_name] *)
Definition municipality_lifecycle (db : database) : list lifecycle_row :=
  let joined := municipality_votings db in
  map (fun k =>
         let rows :=
           filter (fun j => if name_key_dec (name_key j) k then true else false) joined in
         {| lc_geo_id := fst k;
            lc_geo_name := snd k;
            lc_first_appearance := sql_min_text (map (fun j => v_voting_date (snd j)) rows);
            lc_last_appearance := sql_max_text (map (fun j => v_voting_date (snd j)) rows);
            lc_voting_count :=
              Z.of_nat (List.length
                          (distinct Z.eq_dec (map (fun j => v_voting_id (snd j)) rows))) |})
      (distinct name_key_dec (map name_key joined)).

(** [SELECT COUNT( * ) FROM municipality_lifecycle], logged as the total
    of municipalities in voting data. *)
Definition lifecycle_total (db : database) : Z :=
  Z.of_nat (List.length (municipality_lifecycle db)).

(** *** [create_data_quality_view] *)

(** [v_stable_municipality_mapping m LEFT JOIN voting_results vr
     ON m.original_bfs = vr.geo_id AND vr.geo_level = 'municipality']:
    a mapping row without a partner is kept once, with NULLs. *)
Definition quality_join (db : database) : list (mapping_row * option voting_result) :=
  flat_map
    (fun m =>
       match filter (fun vr => String.eqb (m_original_bfs m) (vr_geo_id vr)
                               && is_municipality vr)
                    (voting_results db) with
       | [] => [(m, None)]
       | rows => map (fun vr => (m, Some vr)) rows
       end)
    (v_stable_municipality_mapping db).

Definition quality_key_dec (a b : option string * option string) : {a = b} + {a <> b}.
Proof. decide equality; auto using option_string_dec. Defined.

Definition quality_key (j : mapping_row * option voting_result)
    : option string * option string :=
  (m_analysis_bfs (fst j), m_analysis_name (fst j)).

Definition in_quality_group (k : option string * option string)
    (j : mapping_row * option voting_result) : bool :=
  if quality_key_dec (quality_key j) k then true else false.

(** [m.original_bfs || ' (' || m.original_name || ')']: NULL when the
    name is NULL. *)
Definition source_label (m : mapping_row) : option string :=
  match m_original_name m with
  | Some n => Some (m_original_bfs m ++ " (" ++ n ++ ")")%string
  | None => None
  end.

Record quality_row := {
  q_analysis_bfs : option string;
  q_analysis_name : option string;
  q_source_count : Z;
  (** [GROUP_CONCAT(DISTINCT ...)]: the labels it joins with commas. *)
  q_sources : list string;
  q_first_appearance : option string;
  q_merge_depth : option Z;
  q_voting_participation_count : Z
}.

(** The select list, evaluated on the rows of one group. *)
Definition quality_aggregate (k : option string * option string)
    (rows : list (mapping_row * option voting_result)) : quality_row :=
  {| q_analysis_bfs := fst k;
     q_analysis_name := snd k;
     q_source_count :=
       Z.of_nat (List.length
                   (distinct string_dec (map (fun j => m_original_bfs (fst j)) rows)));
     q_sources := distinct string_dec (non_null (map (fun j => source_label (fst j)) rows));
     q_first_appearance :=
       sql_min_text (non_null (map (fun j => m_first_appearance (fst j)) rows));
     q_merge_depth := sql_max (map (fun j => m_merge_depth (fst j)) rows);
     q_voting_participation_count :=
       Z.of_nat (List.length
                   (distinct Z.eq_dec
                      (non_null (map (fun j => option_map vr_voting_id (snd j)) rows)))) |}.

(** [ORDER BY source_count DESC, m.analysis_name]: NULL sorts first in
    ascending order.  SQLite does not fix the order of rows with equal
    keys; the model keeps them in scan order. *)
Definition name_leb (a b : option string) : bool :=
  match a, b with
  | None, _ => true
  | Some _, None => false
  | Some x, Some y => String.leb x y
  end.

Definition quality_before (a b : quality_row) : bool :=
  (q_source_count b <? q_source_count a)
  || ((q_source_count a =? q_source_count b)
      && name_leb (q_analysis_name a) (q_analysis_name b)).

Fixpoint insert_quality (r : quality_row) (l : list quality_row) : list quality_row :=
  match l with
  | [] => [r]
  | h :: t => if quality_before h r then h :: insert_quality r t else r :: l
  end.

Definition order_quality (l : list quality_row) : list quality_row :=
  fold_left (fun acc r => insert_quality r acc) l [].

(** The rows of the view before [ORDER BY], one for each group. *)
Definition quality_groups (db : database) : list quality_row :=
  let joined := quality_join db in
  map (fun k => quality_aggregate k (filter (in_quality_group k) joined))
      (distinct quality_key_dec (map quality_key joined)).

Definition v_municipality_data_quality (db : database) : list quality_row :=
  order_quality (quality_groups db).

(** *** The statistics of [verify_perfect_matching] *)

Record quality_statistics := {
  st_total_municipalities : Z;
  st_analysis_municipalities : Z;
  st_aggregated_count : option Z;
  st_max_aggregation : option Z
}.

(** [SELECT COUNT( * ), COUNT(DISTINCT analysis_bfs),
            SUM(CASE WHEN source_count > 1 THEN 1 ELSE 0 END), MAX(source_count)
     FROM v_municipality_data_quality] *)
Definition municipality_statistics (db : database) : quality_statistics :=
  let rows := v_municipality_data_quality db in
  {| st_total_municipalities := Z.of_nat (List.length rows);
     st_analysis_municipalities :=
       Z.of_nat (List.length (distinct string_dec (non_null (map q_analysis_bfs rows))));
     st_aggregated_count :=
       sql_sum (map (fun r => Some (if 1 <? q_source_count r then 1 else 0)) rows);
     st_max_aggregation := sql_max (map q_source_count rows) |}.

End DataQuality.

(** ** [scripts/create_merger_views_old.py]: the views built on the
    mapping *)

Module MergerViewsOldResults.

Import Sql Schema AnalysisViews MergerViewsOld DataQuality.

(** *** [v_voting_results_current] *)

(** A row of
    [votings v INNER JOIN proposals p ON v.voting_id = p.voting_id
     INNER JOIN voting_results vr ON p.proposal_id = vr.proposal_id
     INNER JOIN v_municipality_mapping m ON vr.geo_id = m.original_bfs]. *)
Record current_joined_row := {
  cj_v : voting;
  cj_p : proposal;
  cj_vr : voting_result;
  cj_m : current_mapping_row
}.

(** The rows of the join for one voting and one of its proposals. *)
Definition current_proposal_rows (db : database) (v : voting) (p : proposal)
    : list current_joined_row :=
  flat_map
    (fun vr =>
       map (fun m => {| cj_v := v; cj_p := p; cj_vr := vr; cj_m := m |})
           (filter (fun m => String.eqb (vr_geo_id vr) (cm_original_bfs m))
                   (v_municipality_mapping db)))
    (filter (fun vr => p_proposal_id p =? vr_proposal_id vr) (voting_results db)).

(** The join, and [WHERE vr.geo_level = 'municipality']. *)
Definition current_join (db : database) : list current_joined_row :=
  filter (fun j => is_municipality (cj_vr j))
    (flat_map
       (fun v =>
          flat_map (current_proposal_rows db v)
            (filter (fun p => v_voting_id v =? p_voting_id p) (proposals db)))
       (votings db)).

(** The columns of the [GROUP BY]. *)
Record current_key := {
  ck_voting_id : Z;
  ck_voting_date : string;
  ck_proposal_id : Z;
  ck_title_de : option string;
  ck_title_fr : option string;
  ck_title_it : option string;
  ck_angenommen : option bool;
  ck_current_bfs : option string;
  ck_current_name : option string
}.

Definition current_key_dec (a b : current_key) : {a = b} + {a <> b}.
Proof.
  decide equality;
    auto using string_dec, option_string_dec, option_bool_dec, Z.eq_dec.
Defined.

Definition current_key_of (j : current_joined_row) : current_key :=
  {| ck_voting_id := v_voting_id (cj_v j);
     ck_voting_date := v_voting_date (cj_v j);
     ck_proposal_id := p_proposal_id (cj_p j);
     ck_title_de := p_title_de (cj_p j);
     ck_title_fr := p_title_fr (cj_p j);
     ck_title_it := p_title_it (cj_p j);
     ck_angenommen := p_angenommen (cj_p j);
     ck_current_bfs := cm_current_bfs (cj_m j);
     ck_current_name := cm_current_name (cj_m j) |}.

Definition in_current_group (k : current_key) (j : current_joined_row) : bool :=
  if current_key_dec (current_key_of j) k then true else false.

Record current_row := {
  c_voting_id : Z;
  c_voting_date : string;
  c_proposal_id : Z;
  c_title_de : option string;
  c_title_fr : option string;
  c_title_it : option string;
  c_angenommen : option bool;
  c_municipality_id : option string;
  c_municipality_name : option string;
  c_ja_stimmen_absolut : option Z;
  c_nein_stimmen_absolut : option Z;
  c_gueltige_stimmen : option Z;
  c_eingelegte_stimmzettel : option Z;
  c_anzahl_stimmberechtigte : option Z;
  c_ja_prozent : option Q;
  c_stimmbeteiligung : option Q;
  c_merged_municipality_count : Z;
  (** [GROUP_CONCAT(DISTINCT vr.geo_id)]: the ids it joins with commas. *)
  c_original_bfs_numbers : list string
}.

(** The select list, evaluated on the rows of one group. *)
Definition current_aggregate (k : current_key) (rows : list current_joined_row)
    : current_row :=
  let sum col := sql_sum (map (fun j => col (cj_vr j)) rows) in
  let sources := distinct string_dec (map (fun j => vr_geo_id (cj_vr j)) rows) in
  {| c_voting_id := ck_voting_id k;
     c_voting_date := ck_voting_date k;
     c_proposal_id := ck_proposal_id k;
     c_title_de := ck_title_de k;
     c_title_fr := ck_title_fr k;
     c_title_it := ck_title_it k;
     c_angenommen := ck_angenommen k;
     c_municipality_id := ck_current_bfs k;
     c_municipality_name := ck_current_name k;
     c_ja_stimmen_absolut := sum vr_ja_stimmen_absolut;
     c_nein_stimmen_absolut := sum vr_nein_stimmen_absolut;
     c_gueltige_stimmen := sum vr_gueltige_stimmen;
     c_eingelegte_stimmzettel := sum vr_eingelegte_stimmzettel;
     c_anzahl_stimmberechtigte := sum vr_anzahl_stimmberechtigte;
     c_ja_prozent := percent (sum vr_ja_stimmen_absolut) (sum vr_gueltige_stimmen);
     c_stimmbeteiligung :=
       percent (sum vr_eingelegte_stimmzettel) (sum vr_anzahl_stimmberechtigte);
     c_merged_municipality_count := Z.of_nat (List.length sources);
     c_original_bfs_numbers := sources |}.

Definition v_voting_results_current (db : database) : list current_row :=
  let joined := current_join db in
  map (fun k => current_aggregate k (filter (in_current_group k) joined))
      (distinct current_key_dec (map current_key_of joined)).

(** *** [v_municipality_evolution] *)

(** [a > b] on nullable TEXT. *)
Definition text_gt (a b : option string) : bool :=
  match a, b with
  | Some x, Some y => negb (String.leb x y)
  | _, _ => false
  end.

Record evolution_row := {
  ev_old_bfs_number : option string;
  ev_old_name : option string;
  ev_old_canton : option string;
  ev_new_bfs_number : option string;
  ev_new_name : option string;
  ev_new_canton : option string;
  ev_mutation_date : option string;
  ev_mutation_type : option string;
  ev_change_category : string;
  ev_municipalities_in_merger : Z;
  ev_was_in_voting_data : bool;
  ev_merged_again_later : bool
}.

(** [flag = 1] on a nullable BOOLEAN. *)
Definition is_set (flag : option bool) : bool :=
  match flag with
  | Some true => true
  | _ => false
  end.

(** The [CASE] of [change_category]. *)
Definition change_category (mc : municipal_change) : string :=
  if is_set (mc_is_merger mc) then "Merger"
  else if is_set (mc_is_split mc) then "Split"
  else if is_set (mc_is_rename mc) then "Rename"
  else if is_set (mc_is_reassignment mc) then "Reassignment"
  else "Other".

Definition evolution_of (db : database) (mc : municipal_change) : evolution_row :=
  {| ev_old_bfs_number := mc_old_bfs_number mc;
     ev_old_name := mc_old_name mc;
     ev_old_canton := mc_old_canton mc;
     ev_new_bfs_number := mc_new_bfs_number mc;
     ev_new_name := mc_new_name mc;
     ev_new_canton := mc_new_canton mc;
     ev_mutation_date := mc_mutation_date mc;
     ev_mutation_type := mc_mutation_type mc;
     ev_change_category := change_category mc;
     ev_municipalities_in_merger :=
       Z.of_nat (List.length
                   (filter (fun mc2 =>
                              text_eq (mc_new_bfs_number mc2) (mc_new_bfs_number mc)
                              && text_eq (mc_mutation_date mc2) (mc_mutation_date mc)
                              && text_ne (mc_old_bfs_number mc2) (mc_new_bfs_number mc2))
                           (municipal_changes db)));
     ev_was_in_voting_data :=
       existsb (fun vr => text_eq (Some (vr_geo_id vr)) (mc_old_bfs_number mc)
                          && is_municipality vr)
               (voting_results db);
     ev_merged_again_later :=
       existsb (fun mc3 =>
                  text_eq (mc_old_bfs_number mc3) (mc_new_bfs_number mc)
                  && text_gt (mc_mutation_date mc3) (mc_mutation_date mc)
                  && text_ne (mc_old_bfs_number mc3) (mc_new_bfs_number mc3))
               (municipal_changes db) |}.

(** [ORDER BY mc.mutation_date, mc.new_bfs_number]: NULL sorts first;
    rows with equal keys are kept in scan order. *)
Definition evolution_before (a b : municipal_change) : bool :=
  if option_string_dec (mc_mutation_date a) (mc_mutation_date b)
  then name_leb (mc_new_bfs_number a) (mc_new_bfs_number b)
  else name_leb (mc_mutation_date a) (mc_mutation_date b).

Fixpoint insert_evolution (r : municipal_change) (l : list municipal_change)
    : list municipal_change :=
  match l with
  | [] => [r]
  | h :: t => if evolution_before h r then h :: insert_evolution r t else r :: l
  end.

Definition v_municipality_evolution (db : database) : list evolution_row :=
  map (evolution_of db)
      (fold_left (fun acc r => insert_evolution r acc)
         (filter (fun mc => text_ne (mc_old_bfs_number mc) (mc_new_bfs_number mc))
                 (municipal_changes db))
         []).

(** *** [v_merger_statistics] *)

(** A row of
    [votings v INNER JOIN proposals p ON v.voting_id = p.voting_id
     INNER JOIN voting_results vr ON p.proposal_id = vr.proposal_id
     LEFT JOIN v_municipality_mapping m ON vr.geo_id = m.original_bfs]:
    a result row without a mapping row is kept once, with NULLs. *)
Record statistics_joined_row := {
  sj_v : voting;
  sj_p : proposal;
  sj_vr : voting_result;
  sj_m : option current_mapping_row
}.

Definition statistics_join (db : database) : list statistics_joined_row :=
  flat_map
    (fun v =>
       flat_map
         (fun p =>
            flat_map
              (fun vr =>
                 match filter (fun m => String.eqb (vr_geo_id vr) (cm_original_bfs m))
                              (v_municipality_mapping db) with
                 | [] => [ {| sj_v := v; sj_p := p; sj_vr := vr; sj_m := None |} ]
                 | ms => map (fun m => {| sj_v := v; sj_p := p; sj_vr := vr;
                                          sj_m := Some m |}) ms
                 end)
              (filter (fun vr => p_proposal_id p =? vr_proposal_id vr)
                      (voting_results db)))
         (filter (fun p => v_voting_id v =? p_voting_id p) (proposals db)))
    (votings db).

Definition statistics_key : Type := Z * string * Z * option string.

Definition statistics_key_dec (a b : statistics_key) : {a = b} + {a <> b}.
Proof. repeat decide equality. Defined.

Definition statistics_key_of (j : statistics_joined_row) : statistics_key :=
  (v_voting_id (sj_v j), v_voting_date (sj_v j), p_proposal_id (sj_p j),
   p_title_de (sj_p j)).

Record merger_statistics_row := {
  ms_voting_id : Z;
  ms_voting_date : string;
  ms_proposal_id : Z;
  ms_title_de : option string;
  ms_original_municipality_count : Z;
  ms_current_municipality_count : Z;
  ms_municipalities_merged_count : Z;
  ms_total_yes_votes : option Z;
  ms_total_no_votes : option Z
}.

(** [CASE WHEN vr.geo_level = 'municipality' THEN vr.geo_id END] and
    [CASE WHEN vr.geo_level = 'municipality' THEN m.current_bfs END]. *)
Definition original_id (j : statistics_joined_row) : option string :=
  if is_municipality (sj_vr j) then Some (vr_geo_id (sj_vr j)) else None.

Definition current_id (j : statistics_joined_row) : option string :=
  if is_municipality (sj_vr j)
  then match sj_m j with
       | Some m => cm_current_bfs m
       | None => None
       end
  else None.

(** [CASE WHEN vr.geo_level = 'municipality' THEN col ELSE 0 END] *)
Definition municipal_votes (col : voting_result -> option Z)
    (j : statistics_joined_row) : option Z :=
  if is_municipality (sj_vr j) then col (sj_vr j) else Some 0.

Definition statistics_aggregate (k : statistics_key) (rows : list statistics_joined_row)
    : merger_statistics_row :=
  let originals := distinct string_dec (non_null (map original_id rows)) in
  let currents := distinct string_dec (non_null (map current_id rows)) in
  {| ms_voting_id := fst (fst (fst k));
     ms_voting_date := snd (fst (fst k));
     ms_proposal_id := snd (fst k);
     ms_title_de := snd k;
     ms_original_municipality_count := Z.of_nat (List.length originals);
     ms_current_municipality_count := Z.of_nat (List.length currents);
     ms_municipalities_merged_count :=
       Z.of_nat (List.length originals) - Z.of_nat (List.length currents);
     ms_total_yes_votes := sql_sum (map (municipal_votes vr_ja_stimmen_absolut) rows);
     ms_total_no_votes := sql_sum (map (municipal_votes vr_nein_stimmen_absolut) rows) |}.

Definition v_merger_statistics (db : database) : list merger_statistics_row :=
  let joined := statistics_join db in
  map (fun k =>
         statistics_aggregate k
           (filter (fun j => if statistics_key_dec (statistics_key_of j) k
                             then true else false)
                   joined))
      (distinct statistics_key_dec (map statistics_key_of joined)).

(** *** The mapping statistics of [verify_views] *)

Record mapping_statistics := {
  mst_total_municipalities : Z;
  mst_unique_historical : Z;
  mst_unique_current : Z;
  mst_merged_count : option Z;
  mst_max_merger_depth : option Z
}.

(** [SELECT COUNT( * ), COUNT(DISTINCT original_bfs), COUNT(DISTINCT current_bfs),
            SUM(CASE WHEN total_mergers > 0 THEN 1 ELSE 0 END), MAX(total_mergers)
     FROM v_municipality_mapping] *)
Definition verify_mapping (db : database) : mapping_statistics :=
  let rows := v_municipality_mapping db in
  {| mst_total_municipalities := Z.of_nat (List.length rows);
     mst_unique_historical :=
       Z.of_nat (List.length (distinct string_dec (map cm_original_bfs rows)));
     mst_unique_current :=
       Z.of_nat (List.length (distinct string_dec (non_null (map cm_current_bfs rows))));
     mst_merged_count :=
       sql_sum (map (fun r => Some (if 0 <? cm_total_mergers r then 1 else 0)) rows);
     mst_max_merger_depth := sql_max (map cm_total_mergers rows) |}.

End MergerViewsOldResults.

(** ** Further vocabulary: the totals of the old view *)

Module OldStatements.

Import Sql Schema AnalysisViews MergerViewsOld MergerViewsOldResults Statements.

(** A count column of [v_voting_results_current]. *)
Definition current_count (f : count_field) (c : current_row) : option Z :=
  match f with
  | Ja => c_ja_stimmen_absolut c
  | Nein => c_nein_stimmen_absolut c
  | Gueltig => c_gueltige_stimmen c
  | Eingelegt => c_eingelegte_stimmzettel c
  | Berechtigt => c_anzahl_stimmberechtigte c
  end.

(** [SUM(field)] over the rows of [v_voting_results_current] of a
    proposal. *)
Definition current_total (f : count_field) (db : database) (pid : Z) : option Z :=
  sql_sum (map (current_count f)
             (filter (fun c => c_proposal_id c =? pid) (v_voting_results_current db))).

(** The current BFS number the old mapping gives for [g]. *)
Definition current_of (db : database) (g : string) : option string :=
  match filter (fun m => String.eqb g (cm_original_bfs m)) (v_municipality_mapping db) with
  | m :: _ => cm_current_bfs m
  | [] => None
  end.

End OldStatements.

(** ** [00_import_all_data.py]: the import of the municipal changes *)

Module ImportAllChanges.

Import Schema ImportMunicipalChanges.

(** [get_mutation_type] *)
Definition get_mutation_type (merger split rename reassignment : bool) : string :=
  let types :=
    (if merger then ["merger"] else [])
    ++ (if split then ["split"] else [])
    ++ (if rename then ["rename"] else [])
    ++ (if reassignment then ["reassignment"] else []) in
  match types with
  | [] => "other"
  | _ => String.concat "|" types
  end.

(** [pd.api.types.is_datetime64_any_dtype(df['mutation_date'])] on the
    frame read from the sheet. *)
Definition is_datetime_sheet (df : list sheet_row) : bool :=
  forallb (fun r => match mutation_date r with
                    | Date _ _ _ | NaN => true
                    | _ => false
                    end) df
  && existsb (fun r => match mutation_date r with
                       | Date _ _ _ => true
                       | _ => false
                       end) df.

(** [import_municipal_changes], from the renamed frame on: the header
    row is removed, the flags and the mutation type are computed, the
    dates are formatted when the column is a date column, and every row
    is inserted; the result is the table and the count of rows
    inserted. *)
Definition import_municipal_changes (sheet : list sheet_row) : list municipal_change * nat :=
  let header :=
    match sheet with
    | first :: _ => String.eqb (lower (str (mutation_number first))) "mutationsnummer"
    | [] => false
    end in
  let df :=
    if header
    then filter (fun r => cell_ne (mutation_number r) (Str "Mutationsnummer")) sheet
    else sheet in
  let dates := is_datetime_sheet df in
  let date_of c :=
    match c with
    | Date y m d => if dates then Str (yyyymmdd y m d) else c
    | _ => c
    end in
  let rows :=
    map (fun row =>
           let merger := shared_value new_bfs_number df row in
           let split := shared_value old_bfs_number df row in
           let rename := cell_eq (old_bfs_number row) (new_bfs_number row)
                         && cell_ne (old_name row) (new_name row) in
           let reassignment := cell_ne (old_canton row) (new_canton row)
                               || cell_ne (old_district_number row)
                                          (new_district_number row) in
           {| mc_mutation_number := bind_text (mutation_number row);
              mc_old_canton := bind_text (old_canton row);
              mc_old_district_number := bind_text (old_district_number row);
              mc_old_bfs_number := bind_text (old_bfs_number row);
              mc_old_name := bind_text (old_name row);
              mc_new_canton := bind_text (new_canton row);
              mc_new_district_number := bind_text (new_district_number row);
              mc_new_bfs_number := bind_text (new_bfs_number row);
              mc_new_name := bind_text (new_name row);
              mc_mutation_date := bind_text (date_of (mutation_date row));
              mc_mutation_type :=
                Some (get_mutation_type merger split rename reassignment);
              mc_is_merger := Some merger;
              mc_is_split := Some split;
              mc_is_rename := Some rename;
              mc_is_reassignment := Some reassignment |})
        df in
  (rows, List.length rows).

(** A row of [municipal_changes] without its mutation type. *)
Definition without_type (mc : municipal_change) : municipal_change :=
  {| mc_mutation_number := mc_mutation_number mc;
     mc_old_canton := mc_old_canton mc;
     mc_old_district_number := mc_old_district_number mc;
     mc_old_bfs_number := mc_old_bfs_number mc;
     mc_old_name := mc_old_name mc;
     mc_new_canton := mc_new_canton mc;
     mc_new_district_number := mc_new_district_number mc;
     mc_new_bfs_number := mc_new_bfs_number mc;
     mc_new_name := mc_new_name mc;
     mc_mutation_date := mc_mutation_date mc;
     mc_mutation_type := None;
     mc_is_merger := mc_is_merger mc;
     mc_is_split := mc_is_split mc;
     mc_is_rename := mc_is_rename mc;
     mc_is_reassignment := mc_is_reassignment mc |}.

End ImportAllChanges.

(** ** Further vocabulary: calendar days *)

Module Calendar.

Import ImportMunicipalChanges.

(** A day a date cell can carry, with a year of four digits. *)
Definition valid_day (y m d : Z) : Prop :=
  1000 <= y <= 9999 /\ 1 <= m <= 12 /\ 1 <= d <= 31.

(** The order of the calendar: [(y, m, d)] is not after [(y', m', d')]. *)
Definition day_le (y m d y' m' d' : Z) : Prop :=
  y < y' \/ (y = y' /\ (m < m' \/ (m = m' /\ d <= d'))).

(** The numbers from [lo] to [hi]. *)
Definition numbers (lo hi : Z) : list Z :=
  map (fun i => lo + Z.of_nat i) (seq 0 (Z.to_nat (hi - lo + 1))).

(** Every number from [lo] to [hi] is written with [width] characters,
    and the text of each of them but the last sorts before the text of
    the next one. *)
Definition ascending_texts (width : nat) (lo hi : Z) : bool :=
  forallb (fun z => (String.length (padded width z) =? width)%nat) (numbers lo hi)
  && forallb (fun z => match String.compare (padded width z) (padded width (z + 1)) with
                       | Lt => true
                       | _ => false
                       end)
             (numbers lo (hi - 1)).

End Calendar.

(** ** [00_export_voting_data_csv.py]

    A frame of the export has the columns [geo_type], [geo_id] and
    [geo_name] and, for every proposal merged so far, the three columns
    [<id>_ja], [<id>_nein] and [<id>_pct]; a row carries the three cells
    of a proposal together with the proposal id that names their
    columns. *)

Module ExportCsv.

Import Sql Schema AnalysisViews DataQuality.

(** *** [get_all_proposals] *)

(** [ORDER BY v.voting_date, p.proposal_id]; rows with equal keys are
    kept in scan order. *)
Definition proposal_before (a b : proposal * voting) : bool :=
  if string_dec (v_voting_date (snd a)) (v_voting_date (snd b))
  then p_proposal_id (fst a) <=? p_proposal_id (fst b)
  else String.leb (v_voting_date (snd a)) (v_voting_date (snd b)).

Fixpoint insert_proposal (r : proposal * voting) (l : list (proposal * voting))
    : list (proposal * voting) :=
  match l with
  | [] => [r]
  | h :: t => if proposal_before h r then h :: insert_proposal r t else r :: l
  end.

(** [SELECT p.proposal_id, v.voting_date, p.title_de
     FROM proposals p INNER JOIN votings v ON p.voting_id = v.voting_id
     ORDER BY v.voting_date, p.proposal_id] *)
Definition get_all_proposals (db : database) : list (Z * string * option string) :=
  map (fun j => (p_proposal_id (fst j), v_voting_date (snd j), p_title_de (fst j)))
      (fold_left (fun acc r => insert_proposal r acc)
         (flat_map
            (fun p => map (pair p)
                        (filter (fun v => p_voting_id p =? v_voting_id v) (votings db)))
            (proposals db))
         []).

(** *** The frames *)

Record export_row := {
  geo_type : string;
  geo_id : option string;
  geo_name : option string;
  cells : list (Z * (option Z * option Z * option Q))
}.

(** [ORDER BY municipality_name] / [ORDER BY geo_name]: NULL sorts
    first; rows with equal names are kept in scan order. *)
Fixpoint insert_by_name (r : option string * option string)
    (l : list (option string * option string)) : list (option string * option string) :=
  match l with
  | [] => [r]
  | h :: t => if name_leb (snd h) (snd r) then h :: insert_by_name r t else r :: l
  end.

Definition order_by_name (l : list (option string * option string))
    : list (option string * option string) :=
  fold_left (fun acc r => insert_by_name r acc) l [].

(** [pd.DataFrame({'geo_type': ..., 'geo_id': ..., 'geo_name': ...})] *)
Definition base_frame (level : string) (units : list (option string * option string))
    : list export_row :=
  map (fun u => {| geo_type := level; geo_id := fst u; geo_name := snd u; cells := [] |})
      units.

(** The keys of a pandas merge match when they are equal; two missing
    keys match each other. *)
Definition key_matches (a b : option string) : bool :=
  if option_string_dec a b then true else false.

(** [result_df.merge(proposal_data, left_on='geo_id', right_on=..., how='left')]
    followed by the renaming of the three new columns after
    [proposal_id]: every row of the frame, in order, once for each row of
    [proposal_data] with its key, in their order, and once with empty
    cells when there is none. *)
Definition merge_proposal (proposal_id : Z)
    (proposal_data : list (option string * (option Z * option Z * option Q)))
    (result_df : list export_row) : list export_row :=
  flat_map
    (fun row =>
       let extended c :=
         {| geo_type := geo_type row; geo_id := geo_id row; geo_name := geo_name row;
            cells := cells row ++ [(proposal_id, c)] |} in
       match filter (fun d => key_matches (geo_id row) (fst d)) proposal_data with
       | [] => [extended (None, None, None)]
       | matches => map (fun d => extended (snd d)) matches
       end)
    result_df.

(** *** [export_municipalities] *)

(** [SELECT DISTINCT municipality_id, municipality_name
     FROM v_voting_results_analysis ORDER BY municipality_name] *)
Definition municipalities (db : database) : list (option string * option string) :=
  order_by_name
    (distinct quality_key_dec
       (map (fun a => (municipality_id a, municipality_name a))
            (v_voting_results_analysis db))).

(** [SELECT municipality_id, ja_stimmen_absolut, nein_stimmen_absolut, ja_prozent
     FROM v_voting_results_analysis WHERE proposal_id = ...] *)
Definition municipality_data (db : database) (pid : Z)
    : list (option string * (option Z * option Z * option Q)) :=
  map (fun a => (municipality_id a,
                 (ja_stimmen_absolut a, nein_stimmen_absolut a, ja_prozent a)))
      (filter (fun a => proposal_id a =? pid) (v_voting_results_analysis db)).

Definition export_municipalities (db : database) : list export_row :=
  fold_left
    (fun result_df proposal =>
       let proposal_id := fst (fst proposal) in
       merge_proposal proposal_id (municipality_data db proposal_id) result_df)
    (get_all_proposals db)
    (base_frame "municipality" (municipalities db)).

(** *** [export_districts] and [export_cantons] *)

(** [ROUND(100.0 * ja_stimmen_absolut / NULLIF(gueltige_stimmen, 0), 2)] *)
Definition ratio_percent (ja gueltige : option Z) : option Q :=
  match ja, gueltige with
  | Some y, Some v =>
      if v =? 0 then None else Some (round2 (100 * inject_Z y / inject_Z v)%Q)
  | _, _ => None
  end.

(** [SELECT DISTINCT geo_id, geo_name FROM voting_results
     WHERE geo_level = ... ORDER BY geo_name] *)
Definition level_units (level : string) (db : database)
    : list (option string * option string) :=
  order_by_name
    (distinct quality_key_dec
       (map (fun vr => (Some (vr_geo_id vr), vr_geo_name vr))
            (filter (fun vr => String.eqb (vr_geo_level vr) level) (voting_results db)))).

(** [SELECT geo_id, ja_stimmen_absolut, nein_stimmen_absolut, ROUND(...)
     FROM voting_results WHERE proposal_id = ... AND geo_level = ...] *)
Definition level_data (level : string) (db : database) (pid : Z)
    : list (option string * (option Z * option Z * option Q)) :=
  map (fun vr => (Some (vr_geo_id vr),
                  (vr_ja_stimmen_absolut vr, vr_nein_stimmen_absolut vr,
                   ratio_percent (vr_ja_stimmen_absolut vr) (vr_gueltige_stimmen vr))))
      (filter (fun vr => (vr_proposal_id vr =? pid) && String.eqb (vr_geo_level vr) level)
              (voting_results db)).

Definition export_level (level : string) (db : database) : list export_row :=
  fold_left
    (fun result_df proposal =>
       let proposal_id := fst (fst proposal) in
       merge_proposal proposal_id (level_data level db proposal_id) result_df)
    (get_all_proposals db)
    (base_frame level (level_units level db)).

Definition export_districts (db : database) : list export_row :=
  export_level "district" db.

Definition export_cantons (db : database) : list export_row :=
  export_level "canton" db.

(** [main]: the three frames, one after the other. *)
Definition export (db : database) : list export_row :=
  export_municipalities db ++ export_districts db ++ export_cantons db.

End ExportCsv.

(** ** Further vocabulary: the export *)

Module ExportStatements.

Import Sql Schema AnalysisViews ExportCsv.

(** In the aggregated view a municipality id has one name. *)
Definition single_named (db : database) : Prop :=
  forall a b, In a (v_voting_results_analysis db) -> In b (v_voting_results_analysis db) ->
    municipality_id a = municipality_id b -> municipality_name a = municipality_name b.

(** The cells of proposal [pid] for the municipality [g]: those of the
    row of the aggregated view, empty when there is none. *)
Definition municipality_cells (db : database) (g : option string) (pid : Z)
    : option Z * option Z * option Q :=
  match filter (fun d => key_matches g (fst d)) (municipality_data db pid) with
  | d :: _ => snd d
  | [] => (None, None, None)
  end.

(** The table to expect: a row for each municipality, in the order of
    the names, with the cells of every proposal, in the order of the
    proposals. *)
Definition municipality_table (db : database) : list export_row :=
  map (fun m =>
         {| geo_type := "municipality"; geo_id := fst m; geo_name := snd m;
            cells := map (fun p => (fst (fst p), municipality_cells db (fst m) (fst (fst p))))
                         (get_all_proposals db) |})
      (municipalities db).


End ExportStatements.

(** ** [00_import_all_data.py]: the import of the voting files

    A voting file is taken as the JSON object the script expects: every
    key the script reads holds a value of the kind the script uses it
    as, or is absent.  Of a result the five counts the views read are
    kept; the other values go to columns no view reads.

    The script runs on one connection, opened on a database it has just
    created, with [PRAGMA foreign_keys = ON]: the foreign keys are
    enforced.  A statement that breaks a constraint raises, and the file
    is rolled back; [INSERT OR IGNORE] skips the row instead when the
    constraint is a NOT NULL or a uniqueness constraint. *)

Module ImportVotings.

Import Sql Schema DataQuality ImportMunicipalChanges ImportAllChanges.

(** *** The voting files *)

Record resultat := {
  jaStimmenAbsolut : option Z;
  neinStimmenAbsolut : option Z;
  gueltigeStimmen : option Z;
  eingelegteStimmzettel : option Z;
  anzahlStimmberechtigte : option Z
}.

Record gemeinde := {
  g_geoLevelnummer : option string;
  g_geoLevelname : option string;
  g_geoLevelParentnummer : option string;
  g_resultat : option resultat
}.

Record bezirk := {
  b_geoLevelnummer : option string;
  b_geoLevelname : option string;
  b_resultat : option resultat
}.

Record kanton := {
  k_geoLevelnummer : option string;
  k_geoLevelname : option string;
  k_resultat : option resultat;
  k_bezirke : option (list bezirk);
  k_gemeinden : option (list gemeinde)
}.

(** A title is the pair of [langKey] and [text]. *)
Record vorlage := {
  vorlagenId : option Z;
  vorlagenTitel : option (list (string * option string));
  vorlageAngenommen : option bool;
  v_resultat : option resultat;
  v_kantone : option (list kanton)
}.

(** [abstimmtag] is [data.get('abstimmtag', '')]; [vorlagen] is present
    when [schweiz] and its [vorlagen] are; a spatial reference is the
    pair of [spatial_unit] and [spatial_date]. *)
Record voting_file := {
  abstimmtag : option string;
  spatial_reference : option (list (option string * option string));
  vorlagen : option (list vorlage)
}.

(** *** The database and the connection *)

Record canton_row := {
  ct_canton_id : option string;
  ct_canton_name : string;
  ct_first_seen_date : option string;
  ct_last_seen_date : option string
}.

Record district_row := {
  dt_district_id : option string;
  dt_district_name : string;
  dt_canton_id : option string;
  dt_first_seen_date : option string;
  dt_last_seen_date : option string
}.

Record municipality_row := {
  mu_municipality_id : option string;
  mu_municipality_name : string;
  mu_parent_id : option string;
  mu_canton_id : option string;
  mu_first_seen_date : option string;
  mu_last_seen_date : option string
}.

Record spatial_row := {
  sr_reference_id : Z;
  sr_voting_id : Z;
  sr_spatial_unit : string;
  sr_spatial_date : string
}.

(** The tables, and for each table with an AUTOINCREMENT key its entry
    in [sqlite_sequence]: the largest key ever handed out. *)
Record store := {
  st_votings : list voting;
  st_proposals : list proposal;
  st_voting_results : list voting_result;
  st_municipal_changes : list municipal_change;
  st_cantons : list canton_row;
  st_districts : list district_row;
  st_municipalities : list municipality_row;
  st_spatial_references : list spatial_row;
  seq_votings : Z;
  seq_proposals : Z;
  seq_voting_results : Z;
  seq_spatial_references : Z
}.

(** The connection: the tables as the open transaction sees them, and
    the rowid of the last row inserted through the connection, which a
    rollback does not reset. *)
Record connection := {
  tables : store;
  last_insert_rowid : Z
}.

(** The tables the views read. *)
Definition database_of (s : store) : database :=
  {| votings := st_votings s;
     proposals := st_proposals s;
     voting_results := st_voting_results s;
     municipal_changes := st_municipal_changes s |}.

(** [create_database]: every table is empty. *)
Definition create_database : connection :=
  {| tables :=
       {| st_votings := []; st_proposals := []; st_voting_results := [];
          st_municipal_changes := []; st_cantons := []; st_districts := [];
          st_municipalities := []; st_spatial_references := [];
          seq_votings := 0; seq_proposals := 0; seq_voting_results := 0;
          seq_spatial_references := 0 |};
     last_insert_rowid := 0 |}.

(** *** Statements that may raise *)

(** A step of the script: it returns a value or raises, and leaves the
    connection in a new state either way. *)
Definition action (A : Type) : Type := connection -> option A * connection.

Definition ret {A} (x : A) : action A := fun c => (Some x, c).

Definition raise {A} : action A := fun c => (None, c).

Definition bind {A B} (a : action A) (f : A -> action B) : action B :=
  fun c =>
    match a c with
    | (Some x, c') => f x c'
    | (None, c') => (None, c')
    end.

Declare Scope action_scope.
Delimit Scope action_scope with action.

Notation "x <- a ;; b" := (bind a (fun x => b))
  (at level 61, a at next level, right associativity) : action_scope.
Notation "a ;; b" := (bind a (fun _ => b))
  (at level 61, right associativity) : action_scope.

Open Scope action_scope.

(** [for x in l: body] *)
Fixpoint for_each {X} (l : list X) (body : X -> action unit) : action unit :=
  match l with
  | [] => ret tt
  | x :: t => body x ;; for_each t body
  end.

(** [if key in data: body(data[key])] *)
Definition when_present {X} (value : option X) (body : X -> action unit) : action unit :=
  match value with
  | Some x => body x
  | None => ret tt
  end.

(** [cursor.lastrowid] after an INSERT statement: the rowid of the last
    row inserted through the connection, whether or not the statement
    inserted a row. *)
Definition lastrowid : action Z :=
  fun c => (Some (last_insert_rowid c), c).

(** A change of the tables that inserts no row. *)
Definition update_tables (f : store -> store) : action unit :=
  fun c => (Some tt, {| tables := f (tables c);
                        last_insert_rowid := last_insert_rowid c |}).

(** A change of the tables that inserts a row with the rowid [rowid]. *)
Definition insert_row (rowid : Z) (f : store -> store) : action unit :=
  fun c => (Some tt, {| tables := f (tables c); last_insert_rowid := rowid |}).

(** The tables, read. *)
Definition read_tables : action store :=
  fun c => (Some (tables c), c).

(** *** The statements of [process_voting_file] *)

(** [INSERT OR IGNORE INTO votings (voting_date, timestamp, source_file)]:
    a key is taken from the sequence in any case; the row is skipped when
    the date is NULL or already there. *)
Definition insert_voting (voting_date : option string) : action unit :=
  s <- read_tables ;;
  let voting_id := seq_votings s + 1 in
  let taken (s : store) : store :=
    {| st_votings := st_votings s; st_proposals := st_proposals s;
       st_voting_results := st_voting_results s;
       st_municipal_changes := st_municipal_changes s;
       st_cantons := st_cantons s; st_districts := st_districts s;
       st_municipalities := st_municipalities s;
       st_spatial_references := st_spatial_references s;
       seq_votings := voting_id; seq_proposals := seq_proposals s;
       seq_voting_results := seq_voting_results s;
       seq_spatial_references := seq_spatial_references s |} in
  match voting_date with
  | Some d =>
      if existsb (fun v => String.eqb (v_voting_date v) d) (st_votings s)
      then update_tables taken
      else insert_row voting_id
             (fun s =>
                {| st_votings := st_votings s
                                 ++ [ {| v_voting_id := voting_id; v_voting_date := d |} ];
                   st_proposals := st_proposals s;
                   st_voting_results := st_voting_results s;
                   st_municipal_changes := st_municipal_changes s;
                   st_cantons := st_cantons s; st_districts := st_districts s;
                   st_municipalities := st_municipalities s;
                   st_spatial_references := st_spatial_references s;
                   seq_votings := voting_id; seq_proposals := seq_proposals s;
                   seq_voting_results := seq_voting_results s;
                   seq_spatial_references := seq_spatial_references s |})
  | None => update_tables taken
  end.

(** [SELECT voting_id FROM votings WHERE voting_date = ?] and
    [cursor.fetchone()[0]]: raises when there is no row. *)
Definition select_voting_id (voting_date : option string) : action Z :=
  s <- read_tables ;;
  match voting_date with
  | Some d =>
      match filter (fun v => String.eqb (v_voting_date v) d) (st_votings s) with
      | v :: _ => ret (v_voting_id v)
      | [] => raise
      end
  | None => raise
  end.

(** The foreign key into [votings]. *)
Definition voting_exists (s : store) (voting_id : Z) : bool :=
  existsb (fun v => v_voting_id v =? voting_id) (st_votings s).

(** [INSERT INTO spatial_references (voting_id, spatial_unit, spatial_date)] *)
Definition insert_spatial_reference (voting_id : Z) (ref : option string * option string)
    : action unit :=
  s <- read_tables ;;
  match ref with
  | (Some unit_, Some date) =>
      if voting_exists s voting_id
      then
        let reference_id := seq_spatial_references s + 1 in
        insert_row reference_id
          (fun s =>
             {| st_votings := st_votings s; st_proposals := st_proposals s;
                st_voting_results := st_voting_results s;
                st_municipal_changes := st_municipal_changes s;
                st_cantons := st_cantons s; st_districts := st_districts s;
                st_municipalities := st_municipalities s;
                st_spatial_references :=
                  st_spatial_references s
                  ++ [ {| sr_reference_id := reference_id; sr_voting_id := voting_id;
                          sr_spatial_unit := unit_; sr_spatial_date := date |} ];
                seq_votings := seq_votings s; seq_proposals := seq_proposals s;
                seq_voting_results := seq_voting_results s;
                seq_spatial_references := reference_id |})
      else raise
  | _ => raise
  end.

(** [titles.get('title_' + lang)]: the text of the last title with the
    language key, as a later title overwrites an earlier one. *)
Definition title_of (lang : string) (titles : option (list (string * option string)))
    : option string :=
  match titles with
  | Some l =>
      fold_left (fun found t => if String.eqb (fst t) lang then snd t else found) l None
  | None => None
  end.

(** [INSERT INTO proposals (voting_id, vorlage_id, title_de, ...)] *)
Definition insert_proposal (voting_id : Z) (v : vorlage) : action unit :=
  s <- read_tables ;;
  if voting_exists s voting_id
  then
    let proposal_id := seq_proposals s + 1 in
    insert_row proposal_id
      (fun s =>
         {| st_votings := st_votings s;
            st_proposals :=
              st_proposals s
              ++ [ {| p_proposal_id := proposal_id; p_voting_id := voting_id;
                      p_title_de := title_of "de" (vorlagenTitel v);
                      p_title_fr := title_of "fr" (vorlagenTitel v);
                      p_title_it := title_of "it" (vorlagenTitel v);
                      p_angenommen := vorlageAngenommen v |} ];
            st_voting_results := st_voting_results s;
            st_municipal_changes := st_municipal_changes s;
            st_cantons := st_cantons s; st_districts := st_districts s;
            st_municipalities := st_municipalities s;
            st_spatial_references := st_spatial_references s;
            seq_votings := seq_votings s; seq_proposals := proposal_id;
            seq_voting_results := seq_voting_results s;
            seq_spatial_references := seq_spatial_references s |})
  else raise.

(** [INSERT INTO voting_results (voting_id, proposal_id, geo_level, geo_id,
     geo_name, ...)] *)
Definition insert_result (voting_id proposal_id : Z) (geo_level : string)
    (geo_id geo_name : option string) (res : resultat) : action unit :=
  s <- read_tables ;;
  match geo_id with
  | Some id =>
      if voting_exists s voting_id
         && existsb (fun p => p_proposal_id p =? proposal_id) (st_proposals s)
      then
        let result_id := seq_voting_results s + 1 in
        insert_row result_id
          (fun s =>
             {| st_votings := st_votings s; st_proposals := st_proposals s;
                st_voting_results :=
                  st_voting_results s
                  ++ [ {| vr_result_id := result_id; vr_voting_id := voting_id;
                          vr_proposal_id := proposal_id; vr_geo_level := geo_level;
                          vr_geo_id := id; vr_geo_name := geo_name;
                          vr_ja_stimmen_absolut := jaStimmenAbsolut res;
                          vr_nein_stimmen_absolut := neinStimmenAbsolut res;
                          vr_gueltige_stimmen := gueltigeStimmen res;
                          vr_eingelegte_stimmzettel := eingelegteStimmzettel res;
                          vr_anzahl_stimmberechtigte := anzahlStimmberechtigte res |} ];
                st_municipal_changes := st_municipal_changes s;
                st_cantons := st_cantons s; st_districts := st_districts s;
                st_municipalities := st_municipalities s;
                st_spatial_references := st_spatial_references s;
                seq_votings := seq_votings s; seq_proposals := seq_proposals s;
                seq_voting_results := result_id;
                seq_spatial_references := seq_spatial_references s |})
      else raise
  | None => raise
  end.

(** [MIN(IFNULL(first_seen_date, ?), ?)] and
    [MAX(IFNULL(last_seen_date, ?), ?)] with the voting date for both
    parameters: NULL when the voting date is NULL. *)
Definition seen_first (first_seen_date voting_date : option string) : option string :=
  match voting_date with
  | Some d => Some (text_min (match first_seen_date with Some f => f | None => d end) d)
  | None => None
  end.

Definition seen_last (last_seen_date voting_date : option string) : option string :=
  match voting_date with
  | Some d => Some (text_max (match last_seen_date with Some l => l | None => d end) d)
  | None => None
  end.

(** A row with the key [id] is there. *)
Definition key_present {R} (key : R -> option string) (rows : list R) (id : string) : bool :=
  existsb (fun r => text_eq (key r) (Some id)) rows.

(** The rowid of a new row of a table without AUTOINCREMENT: one more
    than the largest in use, which is the number of rows, as the tables
    start empty and no row is ever deleted. *)
Definition next_rowid {R} (rows : list R) : Z := Z.of_nat (List.length rows) + 1.

(** [INSERT OR IGNORE INTO cantons (canton_id, canton_name)] *)
Definition insert_canton (canton_id canton_name : option string) : action unit :=
  s <- read_tables ;;
  match canton_name with
  | Some name =>
      if match canton_id with
         | Some id => key_present ct_canton_id (st_cantons s) id
         | None => false
         end
      then ret tt
      else insert_row (next_rowid (st_cantons s))
             (fun s =>
                {| st_votings := st_votings s; st_proposals := st_proposals s;
                   st_voting_results := st_voting_results s;
                   st_municipal_changes := st_municipal_changes s;
                   st_cantons :=
                     st_cantons s
                     ++ [ {| ct_canton_id := canton_id; ct_canton_name := name;
                             ct_first_seen_date := None; ct_last_seen_date := None |} ];
                   st_districts := st_districts s;
                   st_municipalities := st_municipalities s;
                   st_spatial_references := st_spatial_references s;
                   seq_votings := seq_votings s; seq_proposals := seq_proposals s;
                   seq_voting_results := seq_voting_results s;
                   seq_spatial_references := seq_spatial_references s |})
  | None => ret tt
  end.

(** [UPDATE cantons SET first_seen_date = ..., last_seen_date = ...
     WHERE canton_id = ?] *)
Definition update_canton (voting_date canton_id : option string) : action unit :=
  update_tables
    (fun s =>
       {| st_votings := st_votings s; st_proposals := st_proposals s;
          st_voting_results := st_voting_results s;
          st_municipal_changes := st_municipal_changes s;
          st_cantons :=
            map (fun r =>
                   if text_eq (ct_canton_id r) canton_id
                   then {| ct_canton_id := ct_canton_id r;
                           ct_canton_name := ct_canton_name r;
                           ct_first_seen_date :=
                             seen_first (ct_first_seen_date r) voting_date;
                           ct_last_seen_date :=
                             seen_last (ct_last_seen_date r) voting_date |}
                   else r)
                (st_cantons s);
          st_districts := st_districts s;
          st_municipalities := st_municipalities s;
          st_spatial_references := st_spatial_references s;
          seq_votings := seq_votings s; seq_proposals := seq_proposals s;
          seq_voting_results := seq_voting_results s;
          seq_spatial_references := seq_spatial_references s |}).

(** The foreign key into [cantons]: NULL refers to nothing. *)
Definition canton_exists (s : store) (canton_id : option string) : bool :=
  match canton_id with
  | Some id => key_present ct_canton_id (st_cantons s) id
  | None => true
  end.

(** [INSERT OR IGNORE INTO districts (district_id, district_name, canton_id)] *)
Definition insert_district (district_id district_name canton_id : option string)
    : action unit :=
  s <- read_tables ;;
  match district_name with
  | Some name =>
      if match district_id with
         | Some id => key_present dt_district_id (st_districts s) id
         | None => false
         end
      then ret tt
      else if canton_exists s canton_id
      then insert_row (next_rowid (st_districts s))
             (fun s =>
                {| st_votings := st_votings s; st_proposals := st_proposals s;
                   st_voting_results := st_voting_results s;
                   st_municipal_changes := st_municipal_changes s;
                   st_cantons := st_cantons s;
                   st_districts :=
                     st_districts s
                     ++ [ {| dt_district_id := district_id; dt_district_name := name;
                             dt_canton_id := canton_id;
                             dt_first_seen_date := None; dt_last_seen_date := None |} ];
                   st_municipalities := st_municipalities s;
                   st_spatial_references := st_spatial_references s;
                   seq_votings := seq_votings s; seq_proposals := seq_proposals s;
                   seq_voting_results := seq_voting_results s;
                   seq_spatial_references := seq_spatial_references s |})
      else raise
  | None => ret tt
  end.

(** [UPDATE districts SET ... WHERE district_id = ?] *)
Definition update_district (voting_date district_id : option string) : action unit :=
  update_tables
    (fun s =>
       {| st_votings := st_votings s; st_proposals := st_proposals s;
          st_voting_results := st_voting_results s;
          st_municipal_changes := st_municipal_changes s;
          st_cantons := st_cantons s;
          st_districts :=
            map (fun r =>
                   if text_eq (dt_district_id r) district_id
                   then {| dt_district_id := dt_district_id r;
                           dt_district_name := dt_district_name r;
                           dt_canton_id := dt_canton_id r;
                           dt_first_seen_date :=
                             seen_first (dt_first_seen_date r) voting_date;
                           dt_last_seen_date :=
                             seen_last (dt_last_seen_date r) voting_date |}
                   else r)
                (st_districts s);
          st_municipalities := st_municipalities s;
          st_spatial_references := st_spatial_references s;
          seq_votings := seq_votings s; seq_proposals := seq_proposals s;
          seq_voting_results := seq_voting_results s;
          seq_spatial_references := seq_spatial_references s |}).

(** [INSERT OR IGNORE INTO municipalities (municipality_id,
     municipality_name, parent_id, canton_id)] *)
Definition insert_municipality
    (municipality_id municipality_name parent_id canton_id : option string)
    : action unit :=
  s <- read_tables ;;
  match municipality_name with
  | Some name =>
      if match municipality_id with
         | Some id => key_present mu_municipality_id (st_municipalities s) id
         | None => false
         end
      then ret tt
      else if canton_exists s canton_id
      then insert_row (next_rowid (st_municipalities s))
             (fun s =>
                {| st_votings := st_votings s; st_proposals := st_proposals s;
                   st_voting_results := st_voting_results s;
                   st_municipal_changes := st_municipal_changes s;
                   st_cantons := st_cantons s; st_districts := st_districts s;
                   st_municipalities :=
                     st_municipalities s
                     ++ [ {| mu_municipality_id := municipality_id;
                             mu_municipality_name := name;
                             mu_parent_id := parent_id; mu_canton_id := canton_id;
                             mu_first_seen_date := None; mu_last_seen_date := None |} ];
                   st_spatial_references := st_spatial_references s;
                   seq_votings := seq_votings s; seq_proposals := seq_proposals s;
                   seq_voting_results := seq_voting_results s;
                   seq_spatial_references := seq_spatial_references s |})
      else raise
  | None => ret tt
  end.

(** [UPDATE municipalities SET ... WHERE municipality_id = ?] *)
Definition update_municipality (voting_date municipality_id : option string)
    : action unit :=
  update_tables
    (fun s =>
       {| st_votings := st_votings s; st_proposals := st_proposals s;
          st_voting_results := st_voting_results s;
          st_municipal_changes := st_municipal_changes s;
          st_cantons := st_cantons s; st_districts := st_districts s;
          st_municipalities :=
            map (fun r =>
                   if text_eq (mu_municipality_id r) municipality_id
                   then {| mu_municipality_id := mu_municipality_id r;
                           mu_municipality_name := mu_municipality_name r;
                           mu_parent_id := mu_parent_id r;
                           mu_canton_id := mu_canton_id r;
                           mu_first_seen_date :=
                             seen_first (mu_first_seen_date r) voting_date;
                           mu_last_seen_date :=
                             seen_last (mu_last_seen_date r) voting_date |}
                   else r)
                (st_municipalities s);
          st_spatial_references := st_spatial_references s;
          seq_votings := seq_votings s; seq_proposals := seq_proposals s;
          seq_voting_results := seq_voting_results s;
          seq_spatial_references := seq_spatial_references s |}).

(** *** [process_voting_file] *)

Definition process_bezirk (voting_date : option string) (voting_id proposal_id : Z)
    (canton_id : option string) (b : bezirk) : action unit :=
  let district_id := b_geoLevelnummer b in
  let district_name := b_geoLevelname b in
  insert_district district_id district_name canton_id ;;
  update_district voting_date district_id ;;
  when_present (b_resultat b)
    (insert_result voting_id proposal_id "district" district_id district_name).

Definition process_gemeinde (voting_date : option string) (voting_id proposal_id : Z)
    (canton_id : option string) (g : gemeinde) : action unit :=
  let municipality_id := g_geoLevelnummer g in
  let municipality_name := g_geoLevelname g in
  let parent_id := g_geoLevelParentnummer g in
  insert_municipality municipality_id municipality_name parent_id canton_id ;;
  update_municipality voting_date municipality_id ;;
  when_present (g_resultat g)
    (insert_result voting_id proposal_id "municipality" municipality_id municipality_name).

Definition process_kanton (voting_date : option string) (voting_id proposal_id : Z)
    (k : kanton) : action unit :=
  let canton_id := k_geoLevelnummer k in
  let canton_name := k_geoLevelname k in
  insert_canton canton_id canton_name ;;
  update_canton voting_date canton_id ;;
  when_present (k_resultat k)
    (insert_result voting_id proposal_id "canton" canton_id canton_name) ;;
  when_present (k_bezirke k)
    (fun bezirke =>
       for_each bezirke (process_bezirk voting_date voting_id proposal_id canton_id)) ;;
  when_present (k_gemeinden k)
    (fun gemeinden =>
       for_each gemeinden (process_gemeinde voting_date voting_id proposal_id canton_id)).

Definition process_vorlage (voting_date : option string) (voting_id : Z) (v : vorlage)
    : action unit :=
  insert_proposal voting_id v ;;
  proposal_id <- lastrowid ;;
  when_present (v_resultat v)
    (insert_result voting_id proposal_id "switzerland" (Some "0") (Some "Schweiz")) ;;
  when_present (v_kantone v)
    (fun kantone => for_each kantone (process_kanton voting_date voting_id proposal_id)).

(** The id the rows of the file are attached to: [cursor.lastrowid]
    after the insert into [votings], and the id of the voting of the date
    only when that is 0. *)
Definition attach_voting (voting_date : option string) : action Z :=
  insert_voting voting_date ;;
  voting_id <- lastrowid ;;
  if voting_id =? 0 then select_voting_id voting_date else ret voting_id.

(** The body of the [try]. *)
Definition process_statements (data : voting_file) : action unit :=
  let voting_date := abstimmtag data in
  voting_id <- attach_voting voting_date ;;
  when_present (spatial_reference data)
    (fun refs => for_each refs (insert_spatial_reference voting_id)) ;;
  when_present (vorlagen data)
    (fun vorlagen => for_each vorlagen (process_vorlage voting_date voting_id)).

(** [process_voting_file]: the statements are committed, or rolled back
    when one of them raises; the rollback restores the tables and the
    sequences, not the rowid of the last insert. *)
Definition process_voting_file (data : voting_file) (conn : connection)
    : bool * connection :=
  match process_statements data conn with
  | (Some _, conn') => (true, conn')
  | (None, conn') =>
      (false, {| tables := tables conn;
                 last_insert_rowid := last_insert_rowid conn' |})
  end.

(** [import_voting_data], for the files in the order of their names: the
    connection in the end, with the counts of the files that succeeded
    and failed. *)
Fixpoint import_voting_data (files : list voting_file) (conn : connection)
    : connection * (nat * nat) :=
  match files with
  | [] => (conn, (0%nat, 0%nat))
  | f :: rest =>
      let (ok, conn') := process_voting_file f conn in
      let (conn'', counts) := import_voting_data rest conn' in
      (conn'', if ok then (S (fst counts), snd counts) else (fst counts, S (snd counts)))
  end.

(** [main]: the database is created, the municipal changes are imported
    (every row is inserted, the last with the number of rows as its
    key), then the voting files.  The exit status is 1 when the sheet is
    missing or when there is no voting file. *)
Definition main (sheet : option (list sheet_row)) (files : list voting_file)
    : Z * connection :=
  match sheet with
  | None => (1, create_database)
  | Some df =>
      let changes := fst (import_municipal_changes df) in
      let conn :=
        {| tables :=
             {| st_votings := []; st_proposals := []; st_voting_results := [];
                st_municipal_changes := changes;
                st_cantons := []; st_districts := []; st_municipalities := [];
                st_spatial_references := [];
                seq_votings := 0; seq_proposals := 0; seq_voting_results := 0;
                seq_spatial_references := 0 |};
           last_insert_rowid := Z.of_nat (List.length changes) |} in
      match files with
      | [] => (1, conn)
      | _ => (0, fst (import_voting_data files conn))
      end
  end.

Close Scope action_scope.

End ImportVotings.

(** ** Further vocabulary: the import of the voting files *)

Module ImportVotingsStatements.

Import Sql Schema ImportVotings.

(** Every run of [a] that does not raise takes the tables from a state to
    a state related by [R]. *)
Definition relates (R : store -> store -> Prop) {A} (a : action A) : Prop :=
  forall c x c', a c = (Some x, c') -> R (tables c) (tables c').

(** The keys the views rely on, and the sequences that keep new keys
    fresh. *)
Definition keys_kept (s : store) : Prop :=
  NoDup (map v_voting_id (st_votings s)) /\
  (forall v, In v (st_votings s) -> v_voting_id v <= seq_votings s) /\
  NoDup (map p_proposal_id (st_proposals s)) /\
  (forall p, In p (st_proposals s) -> p_proposal_id p <= seq_proposals s) /\
  (forall p, In p (st_proposals s) -> voting_exists s (p_voting_id p) = true) /\
  (forall vr, In vr (st_voting_results s) -> voting_exists s (vr_voting_id vr) = true).

(** The rows added from [s] to [s']: rows of [proposals],
    [voting_results] and [spatial_references], added at the end, all of
    them with the voting id [voting_id]. *)
Definition rows_added (voting_id : Z) (s s' : store) : Prop :=
  (exists new, st_proposals s' = st_proposals s ++ new /\
               forall p, In p new -> p_voting_id p = voting_id) /\
  (exists new, st_voting_results s' = st_voting_results s ++ new /\
               forall vr, In vr new -> vr_voting_id vr = voting_id) /\
  (exists new, st_spatial_references s' = st_spatial_references s ++ new /\
               forall r, In r new -> sr_voting_id r = voting_id).

(** From [s] to [s'] such rows were added, and [votings] is the same. *)
Definition attached (voting_id : Z) (s s' : store) : Prop :=
  st_votings s' = st_votings s /\ rows_added voting_id s s'.

(** The two dates of a row of [cantons], [districts] or
    [municipalities]: both NULL, or the first not after the last. *)
Definition dates_ordered (first last : option string) : Prop :=
  (first = None /\ last = None) \/
  (exists f l, first = Some f /\ last = Some l /\ String.leb f l = true).

Definition seen_dates_ordered (s : store) : Prop :=
  (forall r, In r (st_cantons s) ->
             dates_ordered (ct_first_seen_date r) (ct_last_seen_date r)) /\
  (forall r, In r (st_districts s) ->
             dates_ordered (dt_first_seen_date r) (dt_last_seen_date r)) /\
  (forall r, In r (st_municipalities s) ->
             dates_ordered (mu_first_seen_date r) (mu_last_seen_date r)).

(** The id of the first voting with the date [d]. *)
Definition voting_of_date (s : store) (d : string) : option Z :=
  match filter (fun v => String.eqb (v_voting_date v) d) (st_votings s) with
  | v :: _ => Some (v_voting_id v)
  | [] => None
  end.

(** A statement keeps the keys; it keeps the order of the seen dates. *)
Definition keeps_keys (s s' : store) : Prop := keys_kept s -> keys_kept s'.

Definition keeps_dates (s s' : store) : Prop :=
  seen_dates_ordered s -> seen_dates_ordered s'.

(** The voting id [process_voting_file] attaches the rows of a file to,
    and what it does to [votings]: a new voting with the next key of the
    sequence when the date is new; otherwise no new voting, and the
    rowid of the last insert of the connection, or, when that is 0, the
    voting of the date. *)
Definition attachment (data : voting_file) (conn conn' : connection) (voting_id : Z)
    : Prop :=
  match abstimmtag data with
  | Some d =>
      match voting_of_date (tables conn) d with
      | Some existing =>
          voting_id = (if last_insert_rowid conn =? 0 then existing
                       else last_insert_rowid conn) /\
          st_votings (tables conn') = st_votings (tables conn)
      | None =>
          voting_id = seq_votings (tables conn) + 1 /\
          st_votings (tables conn')
          = st_votings (tables conn)
            ++ [ {| v_voting_id := voting_id; v_voting_date := d |} ]
      end
  | None =>
      voting_id = last_insert_rowid conn /\ last_insert_rowid conn <> 0 /\
      st_votings (tables conn') = st_votings (tables conn)
  end.

End ImportVotingsStatements.

(** ** Example voting files *)

Module ImportExamples.

Import Schema ImportVotings.

(** A file with one proposal and the result of one municipality of one
    canton. *)
Definition file_of (date : string) (ja nein : Z) : voting_file :=
  {| abstimmtag := Some date;
     spatial_reference := None;
     vorlagen :=
       Some [ {| vorlagenId := Some 1;
                 vorlagenTitel := Some [ ("de", Some "Vorlage") ];
                 vorlageAngenommen := Some true;
                 v_resultat := None;
                 v_kantone :=
                   Some [ {| k_geoLevelnummer := Some "1";
                             k_geoLevelname := Some "Kanton";
                             k_resultat := None;
                             k_bezirke := None;
                             k_gemeinden :=
                               Some [ {| g_geoLevelnummer := Some "261";
                                         g_geoLevelname := Some "Stadt";
                                         g_geoLevelParentnummer := Some "112";
                                         g_resultat :=
                                           Some {| jaStimmenAbsolut := Some ja;
                                                   neinStimmenAbsolut := Some nein;
                                                   gueltigeStimmen := Some (ja + nein);
                                                   eingelegteStimmzettel :=
                                                     Some (ja + nein);
                                                   anzahlStimmberechtigte :=
                                                     Some (2 * (ja + nein)) |} |} ]
                          |} ] |} ] |}.

Definition first_file : voting_file := file_of "20200209" 60 40.
Definition second_file : voting_file := file_of "20200927" 30 70.

(** A second file for the date of the first. *)
Definition repeated_file : voting_file := file_of "20200209" 5 5.

(** The connection after the first two files, on an empty sheet. *)
Definition after_two_files : connection :=
  snd (main (Some []) [first_file; second_file]).

End ImportExamples.

(** ** [validation/validate_merger_data.py]: [find_most_complex_mergers] *)

Module ValidateMergerData.

Import Sql Schema AnalysisViews DataQuality.

(** *** [LIKE] *)

(** SQLite matches character by character, and reads the characters
    from the UTF-8 bytes of a text: a byte from 0xC0 on starts a
    character and takes every continuation byte (0x80 to 0xBF) that
    follows it; any other byte is a character of its own.  Python's
    [sqlite3] stores every [str] as well-formed UTF-8, where two
    characters are equal exactly when their bytes are. *)
Definition is_continuation (c : ascii) : bool :=
  let n := nat_of_ascii c in ((128 <=? n) && (n <? 192))%nat.

Definition is_lead (c : ascii) : bool := (192 <=? nat_of_ascii c)%nat.

Fixpoint singles (s : string) : list string :=
  match s with
  | EmptyString => []
  | String c t => String c EmptyString :: singles t
  end.

(** Read from the right: the continuation bytes not yet taken by a lead
    byte, and the characters read behind them. *)
Fixpoint utf8_state (s : string) : string * list string :=
  match s with
  | EmptyString => (EmptyString, [])
  | String c rest =>
      let (pending, done) := utf8_state rest in
      if is_continuation c then (String c pending, done)
      else if is_lead c then (EmptyString, String c pending :: done)
      else (EmptyString, String c EmptyString :: singles pending ++ done)
  end.

Definition characters (s : string) : list string :=
  let (pending, done) := utf8_state s in singles pending ++ done.

(** Two characters match when they are equal, or are the same ASCII
    letter in upper and lower case. *)
Definition same_character (c d : string) : bool :=
  match c, d with
  | String a EmptyString, String b EmptyString =>
      Ascii.eqb (ImportMunicipalChanges.lower_ascii a) (ImportMunicipalChanges.lower_ascii b)
  | _, _ => String.eqb c d
  end.

(** [%] stands for any run of characters, [_] for one character; there
    is no escape character. *)
Fixpoint like_characters (pattern : list string) : list string -> bool :=
  match pattern with
  | [] => fun s => match s with [] => true | _ :: _ => false end
  | c :: rest =>
      if String.eqb c "%" then
        fix any (s : list string) : bool :=
          like_characters rest s
          || match s with [] => false | _ :: t => any t end
      else if String.eqb c "_" then
        fun s => match s with [] => false | _ :: t => like_characters rest t end
      else
        fun s => match s with
                 | [] => false
                 | d :: t => same_character c d && like_characters rest t
                 end
  end.

(** [x LIKE pattern] *)
Definition like (x pattern : string) : bool :=
  like_characters (characters pattern) (characters x).

(** *** The common table [merger_complexity] *)

Record complexity_row := {
  cx_current_bfs : option string;
  cx_current_name : option string;
  cx_predecessor_count : Z;
  cx_max_merge_depth : option Z;
  cx_all_predecessors : string
}.

Definition complexity_key (m : mapping_row) : option string * option string :=
  (m_analysis_bfs m, m_analysis_name m).

Definition in_complexity_group (k : option string * option string)
    (m : mapping_row) : bool :=
  if quality_key_dec (complexity_key m) k then true else false.

(** The original numbers [GROUP_CONCAT(DISTINCT m.original_bfs)] joins
    with commas.  SQLite does not fix their order; the model keeps them
    in the order of their first rows. *)
Definition predecessors (rows : list mapping_row) : list string :=
  distinct string_dec (map m_original_bfs rows).

(** [SELECT m.analysis_bfs, m.analysis_name, COUNT(DISTINCT m.original_bfs),
            MAX(m.merge_depth), GROUP_CONCAT(DISTINCT m.original_bfs)
     FROM v_stable_municipality_mapping m WHERE m.merge_depth > 0
     GROUP BY m.analysis_bfs, m.analysis_name] *)
Definition merger_complexity (db : database) : list complexity_row :=
  let merged := filter (fun m => 0 <? m_merge_depth m) (v_stable_municipality_mapping db) in
  map (fun k =>
         let rows := filter (in_complexity_group k) merged in
         {| cx_current_bfs := fst k;
            cx_current_name := snd k;
            cx_predecessor_count := Z.of_nat (List.length (predecessors rows));
            cx_max_merge_depth := sql_max (map m_merge_depth rows);
            cx_all_predecessors := String.concat "," (predecessors rows) |})
      (distinct quality_key_dec (map complexity_key merged)).

(** *** The common table [voting_participation] *)

Record participation_row := {
  vp_geo_id : string;
  vp_voting_count : Z
}.

(** [SELECT geo_id, COUNT(DISTINCT voting_id) FROM voting_results
     WHERE geo_level = 'municipality' GROUP BY geo_id] *)
Definition voting_participation (db : database) : list participation_row :=
  let rows := filter is_municipality (voting_results db) in
  map (fun g =>
         {| vp_geo_id := g;
            vp_voting_count :=
              Z.of_nat (List.length
                          (distinct Z.eq_dec
                             (map vr_voting_id
                                  (filter (fun vr => String.eqb (vr_geo_id vr) g) rows)))) |})
      (distinct string_dec (map vr_geo_id rows)).

(** *** The select of [find_most_complex_mergers] *)

(** [mc.all_predecessors LIKE '%' || vp.geo_id || '%'] *)
Definition names_predecessor (mc : complexity_row) (vp : participation_row) : bool :=
  like (cx_all_predecessors mc) ("%" ++ vp_geo_id vp ++ "%").

(** [merger_complexity mc LEFT JOIN voting_participation vp ON ...]: a row
    of [merger_complexity] without a partner is kept once, with NULLs. *)
Definition complexity_join (db : database)
    : list (complexity_row * option participation_row) :=
  flat_map
    (fun mc =>
       match filter (names_predecessor mc) (voting_participation db) with
       | [] => [(mc, None)]
       | rows => map (fun vp => (mc, Some vp)) rows
       end)
    (merger_complexity db).

Definition complexity_row_dec (a b : complexity_row) : {a = b} + {a <> b}.
Proof.
  decide equality;
    auto using option_string_dec, option_Z_dec, Z.eq_dec, string_dec.
Defined.

Record complex_merger := {
  mx_complexity : complexity_row;
  mx_max_voting_count : Z
}.

(** The select list, evaluated on the rows of one group:
    [COALESCE(MAX(vp.voting_count), 0)] beside the five grouping columns. *)
Definition complex_aggregate (k : complexity_row)
    (rows : list (complexity_row * option participation_row)) : complex_merger :=
  {| mx_complexity := k;
     mx_max_voting_count :=
       match sql_max (non_null (map (fun j => option_map vp_voting_count (snd j)) rows)) with
       | Some n => n
       | None => 0
       end |}.

(** The rows before [ORDER BY], one for each group of
    [GROUP BY mc.current_bfs, mc.current_name, mc.predecessor_count,
              mc.max_merge_depth, mc.all_predecessors]. *)
Definition complex_groups (db : database) : list complex_merger :=
  let joined := complexity_join db in
  map (fun k =>
         complex_aggregate k
           (filter (fun j => if complexity_row_dec (fst j) k then true else false) joined))
      (distinct complexity_row_dec (map fst joined)).

(** [ORDER BY mc.predecessor_count DESC, mc.max_merge_depth DESC]: NULL
    sorts last in descending order.  SQLite does not fix the order of
    rows with equal keys; the model keeps them in scan order. *)
Definition depth_geb (a b : option Z) : bool :=
  match a, b with
  | _, None => true
  | None, Some _ => false
  | Some x, Some y => y <=? x
  end.

Definition complex_before (a b : complex_merger) : bool :=
  let ca := cx_predecessor_count (mx_complexity a) in
  let cb := cx_predecessor_count (mx_complexity b) in
  (cb <? ca)
  || ((ca =? cb)
      && depth_geb (cx_max_merge_depth (mx_complexity a))
                   (cx_max_merge_depth (mx_complexity b))).

Fixpoint insert_complex (r : complex_merger) (l : list complex_merger)
    : list complex_merger :=
  match l with
  | [] => [r]
  | h :: t => if complex_before h r then h :: insert_complex r t else r :: l
  end.

Definition find_most_complex_mergers (db : database) : list complex_merger :=
  fold_left (fun acc r => insert_complex r acc) (complex_groups db) [].

End ValidateMergerData.

(** ** Example: municipality numbers that contain one another *)

Module ValidationExamples.

Import Schema.

(** 261 votes once and merges into 300; 26 votes twice and never
    changes. *)
Definition db_substring : database :=
  {| votings := [ {| v_voting_id := 1; v_voting_date := "20050605" |};
                  {| v_voting_id := 2; v_voting_date := "20060521" |} ];
     proposals := [ simple_proposal 1 1; simple_proposal 2 2 ];
     voting_results :=
       [ result 1 1 1 "261" "Dorf" 40 60 100 110 200;
         result 2 1 1 "26" "Stadt" 10 90 100 110 200;
         result 3 2 2 "26" "Stadt" 70 30 100 110 200 ];
     municipal_changes := [ change "261" "Dorf" "300" "Burg" "20100101" ] |}.

End ValidationExamples.

(** ** Further example databases *)

Module MoreExamples.

Import Schema.

(** A change of 100 dated before 100 first votes. *)
Definition db_early : database :=
  {| votings := [ {| v_voting_id := 1; v_voting_date := "20150308" |} ];
     proposals := [ simple_proposal 1 1 ];
     voting_results := [ result 1 1 1 "100" "Dorf" 40 60 100 110 200 ];
     municipal_changes := [ change "100" "Dorf" "200" "Stadt" "20100101" ] |}.

(** Two votings with two proposals on the first; 100 and 200 merge into
    300 between the votings, and 300 votes in the second. *)
Definition db_two_votings : database :=
  {| votings := [ {| v_voting_id := 1; v_voting_date := "20050605" |};
                  {| v_voting_id := 2; v_voting_date := "20150308" |} ];
     proposals := [ simple_proposal 1 1; simple_proposal 2 1; simple_proposal 3 2 ];
     voting_results :=
       [ result 1 1 1 "100" "Dorf" 90 10 100 110 200;
         result 2 1 1 "200" "Stadt" 10 890 900 910 2000;
         result 3 1 2 "100" "Dorf" 30 70 100 110 200;
         result 4 1 2 "200" "Stadt" 500 400 900 910 2000;
         result 5 2 3 "300" "Burg" 600 400 1000 1100 2300 ];
     municipal_changes :=
       [ change "100" "Dorf" "300" "Burg" "20100101";
         change "200" "Stadt" "300" "Burg" "20100101" ] |}.

End MoreExamples.

(** ** Further vocabulary: lineages *)

Module Lineage.

Import Sql Schema AnalysisViews.

(** A lineage from [x] to [y] of [d] change records, as the recursive
    select of [merger_chain] follows them for a seed that first appeared
    on [first]: each record changes the BFS number, is dated on or after
    [first] (in the order of TEXT), and starts from a number that is no
    true split origin. *)
Inductive lineage (db : database) (first : option string)
    : option string -> option string -> Z -> Prop :=
| lineage_here x : lineage db first x x 0
| lineage_next x y d mc :
    lineage db first x y d ->
    In mc (municipal_changes db) ->
    text_eq y (mc_old_bfs_number mc) = true ->
    bfs_changed mc = true ->
    text_ge (mc_mutation_date mc) first = true ->
    ~ In y (true_splits db) ->
    lineage db first x (mc_new_bfs_number mc) (d + 1).

(** No change record that changes the BFS number of [g] is dated on or
    after a first appearance of [g]. *)
Definition no_later_change (db : database) (g : string) : Prop :=
  forall mc vm,
    In mc (municipal_changes db) -> In vm (voting_municipalities db) ->
    vm_bfs vm = g -> mc_old_bfs_number mc = Some g -> bfs_changed mc = true ->
    text_ge (mc_mutation_date mc) (vm_first_appearance vm) = false.

(** Every municipality-level result row carries its yes and valid counts,
    and the yes votes do not exceed the valid votes. *)
Definition plausible_counts (db : database) : Prop :=
  forall vr, In vr (voting_results db) -> is_municipality vr = true ->
  exists y v, vr_ja_stimmen_absolut vr = Some y /\ vr_gueltige_stimmen vr = Some v /\
              0 <= y <= v.

(** A percentage column holds a number of hundredths between 0 and 100,
    or is NULL, and then the divisor [den] is 0. *)
Definition percentage_or_null (pct : option Q) (den : option Z) : Prop :=
  match pct with
  | Some q => exists n, q = n # 100 /\ 0 <= n <= 10000
  | None => den = Some 0
  end.

End Lineage.

(** * Properties *)

(** ** Facts about the SQL fragment *)

Module SqlFacts.

Import Sql.

Section Rows.

Context {A : Type}.
Variable A_eq_dec : forall a b : A, {a = b} + {a <> b}.

Local Abbreviation mem := (Sql.mem A_eq_dec).
Local Abbreviation distinct := (Sql.distinct A_eq_dec).

Lemma mem_In x l : mem x l = true <-> In x l.
Proof.
  unfold mem. rewrite existsb_exists. split.
  - intros [y [Hy E]]. destruct (A_eq_dec x y); [subst; assumption | discriminate].
  - intros H. exists x. split; [assumption|]. destruct (A_eq_dec x x); congruence.
Qed.

Lemma mem_false x l : mem x l = false <-> ~ In x l.
Proof.
  rewrite <- mem_In. destruct (mem x l); split; congruence.
Qed.

Lemma distinct_In x l : In x (distinct l) <-> In x l.
Proof.
  induction l as [|a t IH]; simpl; [tauto|].
  rewrite filter_In, IH. destruct (A_eq_dec a x); split; intros H.
  - now left.
  - now left.
  - destruct H as [H|[H _]]; [now left | now right].
  - destruct H as [H|H]; [now left | right; split; [assumption | reflexivity]].
Qed.

Lemma distinct_NoDup l : NoDup (distinct l).
Proof.
  induction l as [|a t IH]; simpl; constructor.
  - rewrite filter_In. intros [_ H]. destruct (A_eq_dec a a); congruence.
  - now apply NoDup_filter.
Qed.

Lemma filter_filter_comm (f g : A -> bool) l :
  filter f (filter g l) = filter g (filter f l).
Proof.
  induction l as [|a t IH]; simpl; [reflexivity|].
  destruct (f a) eqn:Ef, (g a) eqn:Eg; simpl; rewrite ?Ef, ?Eg, IH; reflexivity.
Qed.

Lemma filter_id (f : A -> bool) l :
  (forall y, In y l -> f y = true) -> filter f l = l.
Proof.
  induction l as [|a t IH]; simpl; intros H; [reflexivity|].
  rewrite (H a (or_introl eq_refl)), IH; [reflexivity|].
  intros y Hy. apply H. now right.
Qed.

Lemma distinct_filter (f : A -> bool) l :
  distinct (filter f l) = filter f (distinct l).
Proof.
  induction l as [|a t IH]; simpl; [reflexivity|].
  destruct (f a) eqn:Ef; simpl.
  - rewrite ?Ef, IH. f_equal. apply filter_filter_comm.
  - rewrite ?Ef, IH, filter_filter_comm.
    symmetry. apply filter_id.
    intros y Hy. apply filter_In in Hy. destruct Hy as [_ Hy].
    destruct (A_eq_dec a y); [subst; congruence | reflexivity].
Qed.

End Rows.

Lemma sql_add_assoc a b c : sql_add a (sql_add b c) = sql_add (sql_add a b) c.
Proof. destruct a, b, c; simpl; try reflexivity. now rewrite Z.add_assoc. Qed.

Lemma sql_add_comm a b : sql_add a b = sql_add b a.
Proof. destruct a, b; simpl; try reflexivity. now rewrite Z.add_comm. Qed.

Lemma sql_add_None_r a : sql_add a None = a.
Proof. now destruct a. Qed.



Section WithRecursive.

Context {A : Type}.
Variable A_eq_dec : forall a b : A, {a = b} + {a <> b}.
Variable step : A -> list A.

Local Abbreviation enqueue := (Sql.enqueue A_eq_dec).
Local Abbreviation run_queue := (Sql.run_queue A_eq_dec step).
Local Abbreviation with_recursive := (Sql.with_recursive A_eq_dec step).
Local Abbreviation derived := (Sql.derived step).

Lemma enqueue_fresh out cands : forall queue,
  exists fresh,
    enqueue out queue cands = queue ++ fresh /\
    NoDup fresh /\
    forall x, In x fresh <-> In x cands /\ ~ In x (out ++ queue).
Proof.
  induction cands as [|n ns IH]; intros queue; simpl.
  - exists []. rewrite app_nil_r. split; [reflexivity|]. split; [constructor|].
    simpl. tauto.
  - destruct (Sql.mem A_eq_dec n (out ++ queue)) eqn:E.
    + apply mem_In in E. destruct (IH queue) as [fresh [E1 [N1 M1]]].
      exists fresh. split; [assumption|]. split; [assumption|].
      intros x. rewrite M1. split.
      * tauto.
      * intros [[Hx|Hx] Hn]; [subst; contradiction | tauto].
    + apply mem_false in E. destruct (IH (queue ++ [n])) as [fresh [E1 [N1 M1]]].
      exists (n :: fresh). rewrite E1, <- app_assoc. simpl.
      assert (Hq : forall x, In x (out ++ queue ++ [n]) <-> In x (out ++ queue) \/ n = x).
      { intros x. rewrite app_assoc, in_app_iff. simpl. tauto. }
      split; [reflexivity|]. split.
      * constructor; [|assumption]. rewrite M1, Hq. tauto.
      * intros x. simpl. rewrite M1, Hq.
        destruct (A_eq_dec n x) as [->|Hne]; tauto.
Qed.

Lemma pop_shape out r rest :
  exists fresh,
    (out ++ [r]) ++ enqueue (out ++ [r]) rest (step r) = (out ++ r :: rest) ++ fresh /\
    NoDup fresh /\
    forall x, In x fresh <-> In x (step r) /\ ~ In x (out ++ r :: rest).
Proof.
  destruct (enqueue_fresh (out ++ [r]) (step r) rest) as [fresh [E [NF MF]]].
  exists fresh. rewrite E. split; [now rewrite <- !app_assoc|].
  split; [assumption|]. intros x. rewrite MF, <- app_assoc. reflexivity.
Qed.

(** Termination: the queue runs empty before the fuel does as soon as
    the rows that can ever be produced lie in a finite list [U]. *)
Lemma run_queue_terminates (U : list A) :
  (forall r, In r U -> incl (step r) U) ->
  forall fuel out queue,
    NoDup (out ++ queue) -> incl (out ++ queue) U ->
    (List.length U < List.length out + fuel)%nat ->
    exists res, run_queue fuel out queue = Some res.
Proof.
  intros HU. induction fuel as [|fuel IH]; intros out queue ND Hin Hlen.
  - pose proof (NoDup_incl_length ND Hin) as L. rewrite length_app in L.
    destruct queue; simpl in *; [eauto | lia].
  - destruct queue as [|r rest]; simpl; [eauto|].
    destruct (pop_shape out r rest) as [fresh [E [NF MF]]].
    apply IH; rewrite ?E.
    + apply NoDup_app; [assumption | assumption |].
      intros x Hx Hf. apply MF in Hf. tauto.
    + intros x Hx. apply in_app_or in Hx. destruct Hx as [Hx|Hx].
      * now apply Hin.
      * apply MF in Hx. destruct Hx as [Hx _].
        apply (HU r); [|assumption]. apply Hin, in_or_app. right. now left.
    + pose proof (NoDup_incl_length ND Hin) as L.
      rewrite !length_app in *. simpl in *. lia.
Qed.

Lemma run_queue_more_fuel : forall fuel out queue res,
  run_queue fuel out queue = Some res ->
  forall fuel', (fuel <= fuel')%nat -> run_queue fuel' out queue = Some res.
Proof.
  induction fuel as [|fuel IH]; intros out queue res H fuel' Hle.
  - destruct queue; simpl in H; [|discriminate].
    destruct fuel'; simpl; assumption.
  - destruct queue as [|r rest]; simpl in H.
    + destruct fuel'; simpl; assumption.
    + destruct fuel' as [|fuel']; [lia|]. simpl. apply IH with (1 := H). lia.
Qed.

Lemma run_queue_sound (P : A -> Prop) :
  (forall p r, P p -> In r (step p) -> P r) ->
  forall fuel out queue res,
    (forall x, In x (out ++ queue) -> P x) ->
    run_queue fuel out queue = Some res ->
    forall x, In x res -> P x.
Proof.
  intros HP. induction fuel as [|fuel IH]; intros out queue res Hall H.
  - destruct queue; simpl in H; [|discriminate]. injection H as <-.
    intros x Hx. apply Hall. now rewrite app_nil_r.
  - destruct queue as [|r rest]; simpl in H.
    + injection H as <-. intros x Hx. apply Hall. now rewrite app_nil_r.
    + destruct (pop_shape out r rest) as [fresh [E [NF MF]]].
      apply IH with (2 := H). rewrite E.
      intros x Hx. apply in_app_or in Hx. destruct Hx as [Hx|Hx].
      * now apply Hall.
      * apply MF in Hx. destruct Hx as [Hx _].
        apply HP with (p := r); [|assumption].
        apply Hall, in_or_app. right. now left.
Qed.

Lemma run_queue_complete : forall fuel out queue res,
  (forall p r, In p out -> In r (step p) -> In r (out ++ queue)) ->
  run_queue fuel out queue = Some res ->
  incl (out ++ queue) res /\
  (forall p r, In p res -> In r (step p) -> In r res).
Proof.
  induction fuel as [|fuel IH]; intros out queue res Hcl H.
  - destruct queue; simpl in H; [|discriminate]. injection H as <-.
    rewrite app_nil_r in *. split; [apply incl_refl | assumption].
  - destruct queue as [|r rest]; simpl in H.
    + injection H as <-. rewrite app_nil_r in *.
      split; [apply incl_refl | assumption].
    + destruct (pop_shape out r rest) as [fresh [E [NF MF]]].
      apply IH in H; rewrite ?E in *.
      * destruct H as [H1 H2]. split; [|assumption].
        intros x Hx. apply H1, in_or_app. now left.
      * intros p x Hp Hx. apply in_or_app.
        destruct (in_dec A_eq_dec x (out ++ r :: rest)) as [Hi|Hi]; [now left|].
        right. apply in_app_or in Hp. destruct Hp as [Hp|[<-|[]]].
        -- exfalso. apply Hi. apply (Hcl p x Hp Hx).
        -- apply MF. split; assumption.
Qed.

Lemma run_queue_NoDup : forall fuel out queue res,
  NoDup (out ++ queue) ->
  run_queue fuel out queue = Some res -> NoDup res.
Proof.
  induction fuel as [|fuel IH]; intros out queue res ND H.
  - destruct queue; simpl in H; [|discriminate]. injection H as <-.
    now rewrite app_nil_r in ND.
  - destruct queue as [|r rest]; simpl in H.
    + injection H as <-. now rewrite app_nil_r in ND.
    + destruct (pop_shape out r rest) as [fresh [E [NF MF]]].
      apply IH in H; [assumption|]. rewrite E.
      apply NoDup_app; [assumption | assumption |].
      intros x Hx Hf. apply MF in Hf. tauto.
Qed.

(** What a terminated run returns: exactly the derived rows, each once. *)
Lemma with_recursive_spec fuel initial res :
  with_recursive fuel initial = Some res ->
  NoDup res /\ forall r, In r res <-> derived initial r.
Proof.
  unfold with_recursive. intros H. split.
  - apply run_queue_NoDup in H; [assumption|]. apply distinct_NoDup.
  - intros r. split.
    + apply (run_queue_sound (derived initial)) with (3 := H).
      * intros p x Hp Hx. now apply derived_step with p.
      * simpl. intros x Hx. apply distinct_In in Hx. now apply derived_initial.
    + apply run_queue_complete in H; [|intros p x []].
      destruct H as [H1 H2]. induction 1 as [x Hx|p x Hp IH Hx].
      * apply H1. simpl. now apply distinct_In.
      * now apply H2 with p.
Qed.

Lemma with_recursive_terminates (U : list A) initial fuel :
  incl initial U ->
  (forall r, In r U -> incl (step r) U) ->
  (List.length U < fuel)%nat ->
  exists res, with_recursive fuel initial = Some res.
Proof.
  intros Hi HU Hlen. unfold with_recursive.
  apply run_queue_terminates with U; simpl; try assumption.
  - apply distinct_NoDup.
  - intros x Hx. apply distinct_In in Hx. now apply Hi.
Qed.

End WithRecursive.

Lemma filter_none {B} (f : B -> bool) (l : list B) :
  (forall y, In y l -> f y = false) -> filter f l = [].
Proof.
  induction l as [|a t IH]; simpl; intros H; [reflexivity|].
  rewrite (H a (or_introl eq_refl)). apply IH. intros y Hy. apply H. now right.
Qed.

Lemma filter_map_swap {B C} (f : C -> bool) (g : B -> C) (l : list B) :
  filter f (map g l) = map g (filter (fun x => f (g x)) l).
Proof.
  induction l as [|a t IH]; simpl; [reflexivity|].
  destruct (f (g a)); simpl; now rewrite IH.
Qed.

Lemma filter_flat_map {B C} (f : C -> bool) (g : B -> list C) (l : list B) :
  filter f (flat_map g l) = flat_map (fun x => filter f (g x)) l.
Proof.
  induction l as [|a t IH]; simpl; [reflexivity|].
  now rewrite filter_app, IH.
Qed.

Lemma flat_map_filter {B C} (c : B -> bool) (g : B -> list C) (l : list B) :
  flat_map g (filter c l) = flat_map (fun x => if c x then g x else []) l.
Proof.
  induction l as [|a t IH]; simpl; [reflexivity|].
  destruct (c a); simpl; now rewrite IH.
Qed.

Lemma flat_map_nil {B C} (g : B -> list C) (l : list B) :
  (forall x, In x l -> g x = []) -> flat_map g l = [].
Proof.
  induction l as [|a t IH]; simpl; intros H; [reflexivity|].
  rewrite (H a (or_introl eq_refl)), IH; [reflexivity|].
  intros x Hx. apply H. now right.
Qed.

(** Filtering the rows of a keyed [flat_map] by one key leaves the rows of
    that key. *)
Lemma filter_flat_map_key {K B} (key : B -> K) (eqb : K -> K -> bool)
    (g : K -> list B) (k0 : K) :
  (forall a b, eqb a b = true <-> a = b) ->
  (forall k x, In x (g k) -> key x = k) ->
  forall ks, NoDup ks ->
    filter (fun x => eqb (key x) k0) (flat_map g ks)
    = if existsb (fun k => eqb k k0) ks then g k0 else [].
Proof.
  intros He Hg. induction ks as [|k t IH]; intros ND; simpl; [reflexivity|].
  inversion ND as [|? ? Hnk NDt]; subst.
  rewrite filter_app, (IH NDt).
  destruct (eqb k k0) eqn:E; simpl.
  - apply He in E. subst k0.
    replace (existsb (fun k' => eqb k' k) t) with false.
    + rewrite app_nil_r. apply filter_id.
      intros y Hy. apply He. now apply Hg.
    + symmetry. apply not_true_is_false. intros H.
      apply existsb_exists in H. destruct H as [k' [Hk' H]].
      apply He in H. now subst.
  - rewrite filter_none; [reflexivity|].
    intros y Hy. now rewrite (Hg k y Hy).
Qed.

Lemma fold_max_ge (l : list Z) : forall a, a <= fold_left Z.max l a.
Proof.
  induction l as [|x t IH]; intros a; simpl; [lia|].
  specialize (IH (Z.max a x)). lia.
Qed.

Lemma fold_max_upper (l : list Z) : forall a x,
  In x l -> x <= fold_left Z.max l a.
Proof.
  induction l as [|y t IH]; intros a x H; simpl; [destruct H|].
  destruct H as [->|H]; [|now apply IH].
  pose proof (fold_max_ge t (Z.max a x)). lia.
Qed.

Section GroupMax.

Context {R : Type}.
Variable key : R -> string.
Variable depth : R -> Z.

Local Abbreviation max_row := (Sql.max_row depth).
Local Abbreviation group_max := (Sql.group_max key depth).
Local Abbreviation group_by_max := (Sql.group_by_max key depth).

Lemma max_row_In rows : forall best,
  In (max_row best rows) (best :: rows).
Proof.
  induction rows as [|r t IH]; intros best; simpl; [now left|].
  destruct (depth best <? depth r).
  - destruct (IH r) as [H|H]; [right; now left | right; now right].
  - destruct (IH best) as [H|H]; [now left | right; now right].
Qed.

Lemma max_row_depth rows : forall best,
  depth (max_row best rows) = fold_left Z.max (map depth rows) (depth best).
Proof.
  induction rows as [|r t IH]; intros best; simpl; [reflexivity|].
  destruct (depth best <? depth r) eqn:E; rewrite IH; f_equal.
  - apply Z.ltb_lt in E. lia.
  - apply Z.ltb_ge in E. lia.
Qed.

(** A group that has a row returns exactly one row: the [HAVING] always
    holds, because the bare [depth] is the one of the row with the maximum. *)
Lemma group_max_row rows k :
  In k (map key rows) ->
  exists r, In r rows /\ key r = k /\
    (forall r', In r' rows -> key r' = k -> depth r' <= depth r) /\
    group_max rows k = [(r, depth r)].
Proof.
  intros Hk. apply in_map_iff in Hk. destruct Hk as [x [Hx Hin]].
  unfold Sql.group_max.
  destruct (filter (fun r => String.eqb (key r) k) rows) as [|r0 rest] eqn:G.
  - exfalso. assert (H : In x []); [|destruct H].
    rewrite <- G. apply filter_In. split; [assumption|]. now apply String.eqb_eq.
  - set (bare := max_row r0 rest).
    assert (Hb : In bare (r0 :: rest)) by apply max_row_In.
    assert (Hbc := Hb). rewrite <- G in Hbc. apply filter_In in Hbc.
    destruct Hbc as [Hbc Hbk]. apply String.eqb_eq in Hbk.
    assert (Hd : depth bare = fold_left Z.max (map depth rest) (depth r0))
      by apply max_row_depth.
    exists bare. split; [assumption|]. split; [assumption|]. split.
    + intros r' Hr' Hk'.
      assert (H : In r' (r0 :: rest)).
      { rewrite <- G. apply filter_In. split; [assumption|]. now apply String.eqb_eq. }
      rewrite Hd. destruct H as [<-|H]; [apply fold_max_ge|].
      apply fold_max_upper. now apply in_map.
    + rewrite Hbk, G. simpl. now rewrite <- Hd, Z.eqb_refl.
Qed.

Lemma group_max_key rows k g :
  In g (group_max rows k) -> key (fst g) = k.
Proof.
  unfold Sql.group_max.
  destruct (filter (fun r => String.eqb (key r) k) rows) as [|r0 rest] eqn:G;
    [intros []|].
  set (bare := max_row r0 rest).
  assert (Hb : In bare (filter (fun r => String.eqb (key r) k) rows)).
  { rewrite G. apply max_row_In. }
  apply filter_In in Hb. destruct Hb as [_ Hb]. apply String.eqb_eq in Hb.
  match goal with |- context [if ?c then _ else _] => destruct c end; [|intros []].
  intros [<-|[]]. exact Hb.
Qed.

Lemma group_by_max_rows_of rows k :
  filter (fun g => String.eqb (key (fst g)) k) (group_by_max rows)
  = if existsb (fun k' => String.eqb k' k) (Sql.distinct string_dec (map key rows))
    then group_max rows k else [].
Proof.
  apply (filter_flat_map_key (fun g : R * Z => key (fst g)) String.eqb (group_max rows) k).
  - apply String.eqb_eq.
  - intros k' x. apply group_max_key.
  - apply distinct_NoDup.
Qed.

Lemma group_by_max_seed rows k :
  In k (map key rows) ->
  exists r, In r rows /\ key r = k /\
    (forall r', In r' rows -> key r' = k -> depth r' <= depth r) /\
    filter (fun g => String.eqb (key (fst g)) k) (group_by_max rows) = [(r, depth r)].
Proof.
  intros Hk. destruct (group_max_row rows k Hk) as [r [H1 [H2 [H3 H4]]]].
  exists r. repeat split; try assumption.
  rewrite group_by_max_rows_of, <- H4.
  replace (existsb (fun k' => String.eqb k' k) (Sql.distinct string_dec (map key rows)))
    with true; [reflexivity|].
  symmetry. apply existsb_exists. exists k. split.
  - now apply distinct_In.
  - apply String.eqb_refl.
Qed.

Lemma group_by_max_other rows k :
  ~ In k (map key rows) ->
  filter (fun g => String.eqb (key (fst g)) k) (group_by_max rows) = [].
Proof.
  intros Hk. rewrite group_by_max_rows_of.
  replace (existsb (fun k' => String.eqb k' k) (Sql.distinct string_dec (map key rows)))
    with false; [reflexivity|].
  symmetry. apply not_true_is_false. intros H. apply existsb_exists in H.
  destruct H as [k' [Hk' H]]. apply String.eqb_eq in H. subst k'.
  apply Hk. now apply distinct_In in Hk'.
Qed.

(** Every returned group is a row of maximal depth among the rows of its
    key, together with that depth. *)
Lemma group_by_max_In rows g :
  In g (group_by_max rows) ->
  In (fst g) rows /\ snd g = depth (fst g) /\
  forall r', In r' rows -> key r' = key (fst g) -> depth r' <= depth (fst g).
Proof.
  intros Hg. unfold Sql.group_by_max in Hg. apply in_flat_map in Hg.
  destruct Hg as [k [Hk Hg]]. apply distinct_In in Hk.
  destruct (group_max_row rows k Hk) as [r [H1 [H2 [H3 H4]]]].
  rewrite H4 in Hg. destruct Hg as [<-|[]]. simpl.
  split; [assumption|]. split; [reflexivity|]. now rewrite H2.
Qed.

End GroupMax.

(** Summing group by group is summing everything: [GROUP BY] followed by
    [SUM] neither loses nor repeats a row. *)
Section GroupSum.

Context {B K : Type}.
Variable K_dec : forall a b : K, {a = b} + {a <> b}.
Variable key : B -> K.
Variable f : B -> option Z.

Lemma sql_sum_none (ks : list K) : sql_sum (map (fun _ => None) ks) = None.
Proof. induction ks; simpl; auto. Qed.

Lemma sql_sum_pointwise (a b : K -> option Z) (ks : list K) :
  sql_sum (map (fun k => sql_add (a k) (b k)) ks)
  = sql_add (sql_sum (map a ks)) (sql_sum (map b ks)).
Proof.
  induction ks as [|k t IH]; simpl; [reflexivity|].
  rewrite IH, !sql_add_assoc. f_equal.
  rewrite <- !sql_add_assoc. f_equal. apply sql_add_comm.
Qed.

Lemma sql_sum_single (v : option Z) (k0 : K) (ks : list K) :
  NoDup ks -> In k0 ks ->
  sql_sum (map (fun k => if K_dec k0 k then v else None) ks) = v.
Proof.
  induction ks as [|k t IH]; intros ND Hin; [destruct Hin|].
  inversion ND as [|? ? Hnk NDt]; subst. simpl.
  destruct (K_dec k0 k) as [->|Hne].
  - replace (sql_sum (map (fun k' => if K_dec k k' then v else None) t)) with (@None Z).
    + apply sql_add_None_r.
    + symmetry. transitivity (sql_sum (map (fun _ : K => @None Z) t));
        [|apply sql_sum_none].
      f_equal. apply map_ext_in.
      intros k' Hk'. destruct (K_dec k k'); [subst; contradiction | reflexivity].
  - destruct Hin as [->|Hin]; [contradiction|]. simpl. now apply IH.
Qed.

Lemma sql_sum_partition (ks : list K) : NoDup ks ->
  forall l, (forall x, In x l -> In (key x) ks) ->
  sql_sum (map (fun k => sql_sum (map f (filter (fun x => if K_dec (key x) k then true else false) l))) ks)
  = sql_sum (map f l).
Proof.
  intros ND. induction l as [|x t IH]; intros Hin.
  - simpl. apply sql_sum_none.
  - transitivity
      (sql_add
         (sql_sum (map (fun k => if K_dec (key x) k then f x else None) ks))
         (sql_sum (map (fun k => sql_sum (map f (filter (fun y => if K_dec (key y) k then true else false) t))) ks))).
    + rewrite <- sql_sum_pointwise. f_equal. apply map_ext.
      intros k. simpl. destruct (K_dec (key x) k); reflexivity.
    + rewrite sql_sum_single, IH; try assumption.
      * reflexivity.
      * intros y Hy. apply Hin. now right.
      * apply Hin. now left.
Qed.

Lemma sql_sum_groups (l : list B) :
  sql_sum (map (fun k => sql_sum (map f (filter (fun x => if K_dec (key x) k then true else false) l)))
               (Sql.distinct K_dec (map key l)))
  = sql_sum (map f l).
Proof.
  apply sql_sum_partition.
  - apply distinct_NoDup.
  - intros x Hx. apply distinct_In. now apply in_map.
Qed.

End GroupSum.

(** A [flat_map] over a list in which one element only, found by its
    key, contributes. *)
Lemma flat_map_unique {B C K} (key : B -> K) (h : B -> list C) (x0 : B) (l : list B) :
  NoDup (map key l) -> In x0 l ->
  (forall x, In x l -> key x <> key x0 -> h x = []) ->
  flat_map h l = h x0.
Proof.
  induction l as [|a t IH]; intros ND Hin Hh; [destruct Hin|].
  simpl in ND. inversion ND as [|? ? Hna NDt]; subst. simpl.
  destruct Hin as [->|Hin].
  - rewrite flat_map_nil; [apply app_nil_r|].
    intros x Hx. apply Hh; [now right|].
    intros E. apply Hna. rewrite <- E. now apply in_map.
  - rewrite (Hh a (or_introl eq_refl)).
    + simpl. apply IH; try assumption. intros x Hx. apply Hh. now right.
    + intros E. apply Hna. rewrite E. now apply in_map.
Qed.

Lemma map_flat_map_single {B C} (g : B -> list C) (proj : C -> B) (l : list B) :
  (forall x, In x l -> exists y, g x = [y] /\ proj y = x) ->
  map proj (flat_map g l) = l.
Proof.
  induction l as [|a t IH]; intros H; simpl; [reflexivity|].
  destruct (H a (or_introl eq_refl)) as [y [-> Hy]]. simpl.
  rewrite Hy, IH; [reflexivity|]. intros x Hx. apply H. now right.
Qed.

Lemma filter_implied {B} (f g : B -> bool) (l : list B) :
  (forall x, In x l -> f x = true -> g x = true) ->
  filter f (filter g l) = filter f l.
Proof.
  induction l as [|a t IH]; intros H; simpl; [reflexivity|].
  destruct (g a) eqn:Eg; simpl.
  - destruct (f a); rewrite IH; auto; intros x Hx; apply H; now right.
  - destruct (f a) eqn:Ef.
    + rewrite (H a (or_introl eq_refl) Ef) in Eg. discriminate.
    + apply IH. intros x Hx. apply H. now right.
Qed.

End SqlFacts.

(** ** Facts about [v_stable_municipality_mapping] *)

Module MappingFacts.

Import Sql SqlFacts Schema AnalysisViews Examples Statements.

Lemma text_eq_true a b :
  text_eq a b = true <-> exists s, a = Some s /\ b = Some s.
Proof.
  destruct a as [x|], b as [y|]; simpl; split;
    try discriminate; try (intros [s [H1 H2]]; discriminate).
  - intros H. apply String.eqb_eq in H. subst. eauto.
  - intros [s [H1 H2]]. apply String.eqb_eq. congruence.
Qed.

Lemma text_ne_true a b :
  text_ne a b = true <-> exists s t, a = Some s /\ b = Some t /\ s <> t.
Proof.
  destruct a as [x|], b as [y|]; simpl; split;
    try discriminate; try (intros [s [t [H1 [H2 _]]]]; discriminate).
  - intros H. apply negb_true_iff, String.eqb_neq in H. eauto.
  - intros [s [t [H1 [H2 H3]]]]. apply negb_true_iff, String.eqb_neq. congruence.
Qed.

Lemma true_splits_In db x :
  In (Some x) (true_splits db) <-> simultaneous_divergence db x.
Proof.
  unfold true_splits, simultaneous_divergence.
  rewrite distinct_In, in_map_iff. split.
  - intros [mc1 [Ho H]]. apply filter_In in H. destruct H as [Hi H].
    apply andb_true_iff in H. destruct H as [Hc H].
    apply existsb_exists in H. destruct H as [mc2 [Hi2 H]].
    rewrite !andb_true_iff in H. destruct H as [[[H1 H2] H3] H4].
    apply text_eq_true in H1, H3. apply text_ne_true in H2, Hc, H4.
    destruct H1 as [o [Ho2 Ho1]], H3 as [d [Hd2 Hd1]].
    destruct H2 as [n2 [n1 [Hn2 [Hn1 Hne]]]].
    destruct Hc as [o1 [n1' [Ho1' [Hn1' Hc]]]], H4 as [o2 [n2' [Ho2' [Hn2' H4]]]].
    exists mc1, mc2, n1, n2, d.
    repeat split; try assumption; try congruence.
  - intros [mc1 [mc2 [n1 [n2 [d H]]]]].
    destruct H as (Hi1 & Hi2 & Ho1 & Ho2 & Hn1 & Hn2 & Hx1 & Hx2 & Hne & Hd1 & Hd2).
    exists mc1. split; [assumption|]. apply filter_In. split; [assumption|].
    apply andb_true_iff. split.
    + apply text_ne_true. eauto.
    + apply existsb_exists. exists mc2. split; [assumption|].
      rewrite !andb_true_iff. repeat split.
      * apply text_eq_true. eauto.
      * apply text_ne_true. exists n2, n1. auto.
      * apply text_eq_true. eauto.
      * apply text_ne_true. eauto.
Qed.

Lemma true_splits_not_null db : ~ In None (true_splits db).
Proof.
  unfold true_splits. rewrite distinct_In, in_map_iff.
  intros [mc1 [Ho H]]. apply filter_In in H. destruct H as [_ H].
  apply andb_true_iff in H. destruct H as [H _].
  apply text_ne_true in H. destruct H as [s [t [H _]]]. congruence.
Qed.

(** C4: an old BFS number is a true split origin exactly when two
    structural change records (old number different from new number)
    share it and the same mutation date but name different successors;
    changes from one number that all fall on different dates never make it
    a true split origin. *)
Theorem true_split_origin_iff (db : database) (x : string) :
  (In (Some x) (true_splits db) <-> simultaneous_divergence db x) /\
  (sequential_only db x -> ~ In (Some x) (true_splits db)).
Proof.
  split; [apply true_splits_In|].
  intros Hseq H. apply true_splits_In in H.
  destruct H as [mc1 [mc2 [n1 [n2 [d H]]]]].
  destruct H as (Hi1 & Hi2 & Ho1 & Ho2 & Hn1 & Hn2 & _ & _ & Hne & Hd1 & Hd2).
  apply (Hseq mc1 mc2); try assumption; congruence.
Qed.

Lemma true_split_origin_iff_witness :
  sequential_only db_sequential "100" /\
  ~ In (Some "100") (true_splits db_sequential).
Proof.
  assert (H : sequential_only db_sequential "100").
  { intros mc1 mc2 H1 H2 _ _ Hne. simpl in H1, H2.
    destruct H1 as [<-|[<-|[]]], H2 as [<-|[<-|[]]];
      try (exfalso; apply Hne; reflexivity); simpl; discriminate. }
  split; [exact H|].
  exact (proj2 (true_split_origin_iff db_sequential "100") H).
Defined.


(** *** The recursive table [merger_chain] *)

Lemma flat_map_const_length {A B} (f : A -> list B) (c : nat) (l : list A) :
  (forall x, List.length (f x) = c) ->
  List.length (flat_map f l) = (List.length l * c)%nat.
Proof.
  intros H. induction l as [|a t IH]; simpl; [reflexivity|].
  now rewrite length_app, H, IH.
Qed.

Lemma chain_universe_length db :
  List.length (chain_universe db)
  = (List.length (voting_municipalities db)
     * S (List.length (municipal_changes db) * 10))%nat.
Proof.
  unfold chain_universe. apply flat_map_const_length.
  intros vm. simpl. f_equal. apply flat_map_const_length.
  intros mch. reflexivity.
Qed.

Lemma chain_universe_In db r :
  In r (chain_universe db) <->
  exists vm, In vm (voting_municipalities db) /\
    original_bfs r = vm_bfs vm /\ original_name r = vm_name vm /\
    first_appearance r = vm_first_appearance vm /\
    ((analysis_bfs r = Some (vm_bfs vm) /\ analysis_name r = vm_name vm /\ depth r = 0)
     \/ exists mch, In mch (municipal_changes db) /\
          analysis_bfs r = mc_new_bfs_number mch /\
          analysis_name r = mc_new_name mch /\ 1 <= depth r <= 10).
Proof.
  unfold chain_universe. rewrite in_flat_map. split.
  - intros [vm [Hvm [<-|H]]].
    + exists vm. simpl. tauto.
    + apply in_flat_map in H. destruct H as [mch [Hm H]].
      apply in_map_iff in H. destruct H as [d [<- Hd]]. apply in_seq in Hd.
      exists vm. simpl. repeat split; try assumption.
      right. exists mch. repeat split; try assumption; lia.
  - intros [vm [Hvm [H1 [H2 [H3 H]]]]]. exists vm. split; [assumption|].
    destruct r as [ob on ab an fa d].
    cbn [original_bfs original_name first_appearance analysis_bfs analysis_name depth] in *.
    subst.
    destruct H as [[-> [-> ->]]|[mch [Hm [-> [-> Hd]]]]]; [now left|].
    right. apply in_flat_map. exists mch. split; [assumption|].
    apply in_map_iff. exists (Z.to_nat d). split.
    + f_equal. lia.
    + apply in_seq. lia.
Qed.

Lemma merger_chain_initial_universe db :
  incl (merger_chain_initial db) (chain_universe db).
Proof.
  intros r Hr. unfold merger_chain_initial in Hr.
  apply in_map_iff in Hr. destruct Hr as [vm [<- Hvm]].
  apply chain_universe_In. exists vm. simpl. tauto.
Qed.

Lemma merger_chain_step_In db p r :
  In r (merger_chain_step db p) <->
  exists mch, In mch (municipal_changes db) /\
    text_eq (analysis_bfs p) (mc_old_bfs_number mch) = true /\
    depth p < 10 /\
    bfs_changed mch = true /\
    text_ge (mc_mutation_date mch) (first_appearance p) = true /\
    sql_not_in (analysis_bfs p) (true_splits db) = true /\
    r = {| original_bfs := original_bfs p; original_name := original_name p;
           analysis_bfs := mc_new_bfs_number mch; analysis_name := mc_new_name mch;
           first_appearance := first_appearance p; depth := depth p + 1 |}.
Proof.
  unfold merger_chain_step. rewrite in_map_iff. split.
  - intros [mch [<- H]]. apply filter_In in H. destruct H as [Hm H].
    rewrite !andb_true_iff in H. destruct H as [[[[H1 H2] H3] H4] H5].
    apply Z.ltb_lt in H2. exists mch. tauto.
  - intros [mch [Hm [H1 [H2 [H3 [H4 [H5 ->]]]]]]]. exists mch.
    split; [reflexivity|]. apply filter_In. split; [assumption|].
    rewrite !andb_true_iff. apply Z.ltb_lt in H2. tauto.
Qed.

Lemma merger_chain_step_universe db r :
  In r (chain_universe db) -> incl (merger_chain_step db r) (chain_universe db).
Proof.
  intros Hr n Hn. apply chain_universe_In in Hr.
  destruct Hr as [vm [Hvm [H1 [H2 [H3 H]]]]].
  apply merger_chain_step_In in Hn.
  destruct Hn as [mch [Hm [_ [Hd [_ [_ [_ ->]]]]]]].
  apply chain_universe_In. exists vm. simpl. repeat split; try assumption.
  right. exists mch. repeat split; try assumption.
  - destruct H as [[_ [_ H]]|[_ [_ [_ [_ H]]]]]; lia.
  - lia.
Qed.

Lemma merger_chain_terminates db fuel :
  (merger_chain_fuel db <= fuel)%nat ->
  merger_chain_run fuel db = Some (merger_chain db).
Proof.
  intros Hf.
  destruct (with_recursive_terminates chain_row_dec (merger_chain_step db)
              (chain_universe db) (merger_chain_initial db) (merger_chain_fuel db))
    as [res Hres].
  - apply merger_chain_initial_universe.
  - apply merger_chain_step_universe.
  - rewrite chain_universe_length. unfold merger_chain_fuel. lia.
  - unfold merger_chain. unfold merger_chain_run in *. rewrite Hres.
    apply run_queue_more_fuel with (1 := Hres). exact Hf.
Qed.

Lemma merger_chain_spec db :
  NoDup (merger_chain db) /\
  forall r, In r (merger_chain db) <->
            derived (merger_chain_step db) (merger_chain_initial db) r.
Proof.
  apply with_recursive_spec with (A_eq_dec := chain_row_dec) (fuel := merger_chain_fuel db).
  apply (merger_chain_terminates db). apply Nat.le_refl.
Qed.

Lemma merger_chain_universe db r :
  In r (merger_chain db) -> In r (chain_universe db).
Proof.
  intros H. apply merger_chain_spec in H.
  induction H as [r H|p r Hp IH Hr].
  - now apply merger_chain_initial_universe.
  - now apply (merger_chain_step_universe db p).
Qed.

Lemma merger_chain_depth db r :
  In r (merger_chain db) -> 0 <= depth r <= 10.
Proof.
  intros H. apply merger_chain_universe, chain_universe_In in H.
  destruct H as [vm [_ [_ [_ [_ [[_ [_ H]]|[mch [_ [_ [_ H]]]]]]]]]]; lia.
Qed.

(** *** The final select of [v_stable_municipality_mapping] *)

Lemma stable_mapping_rows_of chain g :
  filter (fun m => String.eqb (m_original_bfs m) g) (stable_mapping_of chain)
  = map (fun g =>
           {| m_original_bfs := original_bfs (fst g);
              m_original_name := original_name (fst g);
              m_analysis_bfs := analysis_bfs (fst g);
              m_analysis_name := analysis_name (fst g);
              m_first_appearance := first_appearance (fst g);
              m_merge_depth := snd g |})
        (filter (fun x => String.eqb (original_bfs (fst x)) g)
                (group_by_max original_bfs depth chain)).
Proof. unfold stable_mapping_of. now rewrite filter_map_swap. Qed.

Lemma mapping_rows_of_seed chain g :
  In g (map original_bfs chain) ->
  exists r, In r chain /\ original_bfs r = g /\
    (forall r', In r' chain -> original_bfs r' = g -> depth r' <= depth r) /\
    filter (fun m => String.eqb (m_original_bfs m) g) (stable_mapping_of chain)
    = [mapping_of_row r].
Proof.
  intros Hg.
  destruct (group_by_max_seed original_bfs depth chain g Hg) as [r [H1 [H2 [H3 H4]]]].
  exists r. repeat split; try assumption.
  now rewrite stable_mapping_rows_of, H4.
Qed.

Lemma mapping_rows_of_other chain g :
  ~ In g (map original_bfs chain) ->
  filter (fun m => String.eqb (m_original_bfs m) g) (stable_mapping_of chain) = [].
Proof.
  intros Hg.
  now rewrite stable_mapping_rows_of, (group_by_max_other original_bfs depth chain g Hg).
Qed.

Lemma stable_mapping_In chain m :
  In m (stable_mapping_of chain) ->
  exists r, In r chain /\ m = mapping_of_row r /\
    forall r', In r' chain -> original_bfs r' = original_bfs r -> depth r' <= depth r.
Proof.
  unfold stable_mapping_of. intros H. apply in_map_iff in H.
  destruct H as [[r d] [<- H]].
  apply group_by_max_In in H. simpl in H. destruct H as [H1 [-> H3]].
  exists r. repeat split; assumption.
Qed.

(** *** The seeds *)

Lemma integrity_result_voting db vr :
  integrity db = true -> In vr (voting_results db) ->
  exists v, In v (votings db) /\ v_voting_id v = vr_voting_id vr.
Proof.
  unfold integrity. rewrite !andb_true_iff. intros [_ H] Hvr.
  rewrite forallb_forall in H. specialize (H vr Hvr).
  apply existsb_exists in H. destruct H as [v [Hv H]].
  apply Z.eqb_eq in H. eauto.
Qed.

Lemma voting_municipalities_seed db g :
  integrity db = true -> in_voting_data db g ->
  exists vm, In vm (voting_municipalities db) /\ vm_bfs vm = g.
Proof.
  intros Hi [vr [Hvr [Hm Hg]]].
  destruct (integrity_result_voting db vr Hi Hvr) as [v [Hv Hid]].
  assert (Hj : In (vr, v) (municipality_votings db)).
  { unfold municipality_votings. apply in_flat_map. exists vr. split.
    - apply filter_In. now split.
    - apply in_map, filter_In. split; [assumption|]. apply Z.eqb_eq. congruence. }
  unfold voting_municipalities.
  eexists. split.
  - apply distinct_In, in_map_iff. eexists. split; [reflexivity|].
    apply distinct_In, in_map_iff. exists (vr, v). split; [reflexivity | exact Hj].
  - exact Hg.
Qed.

Lemma voting_municipalities_data db vm :
  In vm (voting_municipalities db) -> in_voting_data db (vm_bfs vm).
Proof.
  unfold voting_municipalities. intros H.
  apply distinct_In, in_map_iff in H. destruct H as [k [<- H]].
  apply distinct_In, in_map_iff in H. destruct H as [[vr v] [<- H]].
  unfold municipality_votings in H. apply in_flat_map in H.
  destruct H as [vr' [Hvr H]]. apply in_map_iff in H.
  destruct H as [v' [E _]]. injection E as <- <-.
  apply filter_In in Hvr. exists vr'. simpl. tauto.
Qed.

Lemma merger_chain_seed db g :
  integrity db = true -> in_voting_data db g ->
  In g (map original_bfs (merger_chain db)).
Proof.
  intros Hi Hg. destruct (voting_municipalities_seed db g Hi Hg) as [vm [Hvm <-]].
  apply in_map_iff.
  exists {| original_bfs := vm_bfs vm; original_name := vm_name vm;
            analysis_bfs := Some (vm_bfs vm); analysis_name := vm_name vm;
            first_appearance := vm_first_appearance vm; depth := 0 |}.
  split; [reflexivity|]. apply merger_chain_spec. apply derived_initial.
  unfold merger_chain_initial. apply in_map_iff. exists vm. now split.
Qed.

(** The one mapping row of a seed: taken from a chain row of the seed of
    maximal depth. *)
Lemma seed_mapping_row db g :
  integrity db = true -> in_voting_data db g ->
  exists r, In r (merger_chain db) /\ original_bfs r = g /\
    (forall r', In r' (merger_chain db) -> original_bfs r' = g ->
                depth r' <= depth r) /\
    filter (fun m => String.eqb (m_original_bfs m) g)
           (v_stable_municipality_mapping db)
    = [mapping_of_row r].
Proof.
  intros Hi Hg. apply mapping_rows_of_seed. now apply merger_chain_seed.
Qed.



(** The end-to-end example of the specification: 1001 resolves to 3003
    with depth 2. *)
Example mapping_e2e :
  v_stable_municipality_mapping db_e2e
  = [ {| m_original_bfs := "1001"; m_original_name := Some "OldTown";
         m_analysis_bfs := Some "3003"; m_analysis_name := Some "Capital";
         m_first_appearance := Some "20050605"; m_merge_depth := 2 |} ].
Proof. vm_compute. reflexivity. Qed.

Lemma mapping_depth db m :
  In m (v_stable_municipality_mapping db) -> 0 <= m_merge_depth m <= 10.
Proof.
  intros H. apply stable_mapping_In in H. destruct H as [r [Hr [-> _]]].
  simpl. now apply merger_chain_depth with db.
Qed.

Lemma merger_chain_closed db p r :
  In p (merger_chain db) -> In r (merger_chain_step db p) -> In r (merger_chain db).
Proof.
  intros Hp Hr. apply merger_chain_spec. apply derived_step with p; [|assumption].
  now apply merger_chain_spec.
Qed.

(** *** Split freeze *)

Lemma sql_not_in_true x l : sql_not_in x l = true -> ~ In x l.
Proof.
  unfold sql_not_in. destruct l as [|a t]; [intros _ []|].
  intros H Hin. rewrite forallb_forall in H. specialize (H x Hin).
  apply text_ne_true in H. destruct H as [s [u [H1 [H2 H3]]]]. congruence.
Qed.

Lemma sql_not_in_false x l : In x l -> sql_not_in x l = false.
Proof.
  intros H. apply not_true_is_false. intros E.
  now apply (sql_not_in_true x l E).
Qed.

Lemma merger_chain_step_split db p :
  In (analysis_bfs p) (true_splits db) -> merger_chain_step db p = [].
Proof.
  intros H. unfold merger_chain_step.
  rewrite filter_none; [reflexivity|].
  intros mch _. rewrite (sql_not_in_false _ _ H). apply andb_false_r.
Qed.

Lemma merger_chain_parent db r :
  In r (merger_chain db) ->
  In r (merger_chain_initial db) \/
  exists p, In p (merger_chain db) /\ In r (merger_chain_step db p) /\
            ~ In (analysis_bfs p) (true_splits db).
Proof.
  intros H. apply merger_chain_spec in H. destruct H as [r H|p r Hp Hr].
  - now left.
  - right. exists p. split; [now apply merger_chain_spec|]. split; [assumption|].
    intros Hs. rewrite (merger_chain_step_split db p Hs) in Hr. destruct Hr.
Qed.

Lemma split_seed_rows db x r :
  In (Some x) (true_splits db) ->
  In r (merger_chain db) -> original_bfs r = x ->
  analysis_bfs r = Some x /\ depth r = 0.
Proof.
  intros Hs H. apply merger_chain_spec in H.
  induction H as [r H|p r Hp IH Hr]; intros Hx.
  - unfold merger_chain_initial in H. apply in_map_iff in H.
    destruct H as [vm [<- _]]. simpl in *. now subst.
  - exfalso. apply merger_chain_step_In in Hr.
    destruct Hr as [mch [_ [_ [_ [_ [_ [Hn ->]]]]]]]. simpl in Hx.
    destruct (IH Hx) as [Ha _]. rewrite Ha in Hn.
    apply sql_not_in_true in Hn. contradiction.
Qed.

(** C5: a row of the chain is never derived from a row whose analysis
    number is a true split origin: such a row has no successor row, and a
    seed that is itself a true split origin is mapped to itself at depth 0. *)
Theorem split_origin_is_terminal (db : database) :
  (forall p, In p (merger_chain db) ->
             In (analysis_bfs p) (true_splits db) -> merger_chain_step db p = []) /\
  (forall r, In r (merger_chain db) ->
             In r (merger_chain_initial db) \/
             exists p, In p (merger_chain db) /\ In r (merger_chain_step db p) /\
                       ~ In (analysis_bfs p) (true_splits db)) /\
  (forall m, In m (v_stable_municipality_mapping db) ->
             In (Some (m_original_bfs m)) (true_splits db) ->
             m_analysis_bfs m = Some (m_original_bfs m) /\ m_merge_depth m = 0).
Proof.
  split; [|split].
  - intros p _. apply merger_chain_step_split.
  - apply merger_chain_parent.
  - intros m Hm Hs. apply stable_mapping_In in Hm. destruct Hm as [r [Hr [-> _]]].
    simpl in *. now apply (split_seed_rows db (original_bfs r) r).
Qed.


Lemma split_origin_is_terminal_witness :
  let m := {| m_original_bfs := "100"; m_original_name := Some "Dorf";
              m_analysis_bfs := Some "100"; m_analysis_name := Some "Dorf";
              m_first_appearance := Some "20050605"; m_merge_depth := 0 |} in
  In m (v_stable_municipality_mapping db_split) /\
  In (Some (m_original_bfs m)) (true_splits db_split) /\
  m_analysis_bfs m = Some (m_original_bfs m) /\ m_merge_depth m = 0.
Proof.
  intros m.
  assert (H0 : In m (v_stable_municipality_mapping db_split)) by (left; reflexivity).
  assert (H1 : In (Some (m_original_bfs m)) (true_splits db_split))
    by (left; reflexivity).
  split; [exact H0|]. split; [exact H1|].
  exact (proj2 (proj2 (split_origin_is_terminal db_split)) m H0 H1).
Defined.

(** *** Conflicting forward edges *)

(** C6, as stated, fails: 100 has two qualifying edges on different
    dates, to 200 and to 300, and the mapping still holds a row for 100. *)
Lemma conflicts_excluded_counterexample : ~ conflicts_excluded db_conflict.
Proof.
  intros H.
  set (p := {| original_bfs := "100"; original_name := Some "Dorf";
               analysis_bfs := Some "100"; analysis_name := Some "Dorf";
               first_appearance := Some "20050605"; depth := 0 |}).
  set (m := {| m_original_bfs := "100"; m_original_name := Some "Dorf";
               m_analysis_bfs := Some "200"; m_analysis_name := Some "Stadt";
               m_first_appearance := Some "20050605"; m_merge_depth := 1 |}).
  apply (H p) with (m := m).
  - vm_compute. left. reflexivity.
  - exists {| original_bfs := "100"; original_name := Some "Dorf";
              analysis_bfs := Some "200"; analysis_name := Some "Stadt";
              first_appearance := Some "20050605"; depth := 1 |},
           {| original_bfs := "100"; original_name := Some "Dorf";
              analysis_bfs := Some "300"; analysis_name := Some "Burg";
              first_appearance := Some "20050605"; depth := 1 |}.
    split; [vm_compute; left; reflexivity|].
    split; [vm_compute; right; left; reflexivity|].
    simpl. discriminate.
  - vm_compute. left. reflexivity.
  - reflexivity.
Qed.

(** C6, amended: conflicting forward edges are not detected.  Every
    qualifying edge of a chain row is followed, and a seed of the voting
    data keeps exactly one mapping row, taken from one chain row of
    maximal depth among the rows of the seed. *)
Theorem conflicting_edges_all_followed (db : database) :
  (forall p r, In p (merger_chain db) -> In r (merger_chain_step db p) ->
               In r (merger_chain db)) /\
  (forall g, integrity db = true -> in_voting_data db g ->
     exists r, In r (merger_chain db) /\ original_bfs r = g /\
       (forall r', In r' (merger_chain db) -> original_bfs r' = g ->
                   depth r' <= depth r) /\
       filter (fun m => String.eqb (m_original_bfs m) g)
              (v_stable_municipality_mapping db)
       = [mapping_of_row r]).
Proof.
  split.
  - intros p r Hp Hr. now apply merger_chain_closed with p.
  - intros g Hi Hg. now apply seed_mapping_row.
Qed.

Lemma conflicting_edges_all_followed_witness :
  integrity db_conflict = true /\ in_voting_data db_conflict "100" /\
  exists r, In r (merger_chain db_conflict) /\ original_bfs r = "100" /\
    (forall r', In r' (merger_chain db_conflict) -> original_bfs r' = "100" ->
                depth r' <= depth r) /\
    filter (fun m => String.eqb (m_original_bfs m) "100")
           (v_stable_municipality_mapping db_conflict)
    = [mapping_of_row r].
Proof.
  assert (H1 : integrity db_conflict = true) by reflexivity.
  assert (H2 : in_voting_data db_conflict "100").
  { eexists. split; [left; reflexivity|]. split; reflexivity. }
  split; [exact H1|]. split; [exact H2|].
  exact (proj2 (conflicting_edges_all_followed db_conflict) "100" H1 H2).
Defined.
End MappingFacts.

(** ** Facts about [v_municipality_mapping] of the old views *)

Module OldViewFacts.

Import Sql SqlFacts Schema MergerViewsOld Statements.

Lemma successor_universe_length db :
  List.length (successor_universe db)
  = (List.length (successor_chain_initial db)
     * S (List.length (municipal_changes db) * 10))%nat.
Proof.
  unfold successor_universe. apply MappingFacts.flat_map_const_length.
  intros b. simpl. f_equal. apply MappingFacts.flat_map_const_length.
  intros mc. reflexivity.
Qed.

Lemma successor_initial_depth db b :
  In b (successor_chain_initial db) -> sc_merge_depth b = 0.
Proof.
  unfold successor_chain_initial. intros H.
  apply distinct_In, in_map_iff in H. now destruct H as [vr [<- _]].
Qed.

Lemma successor_universe_In db r :
  In r (successor_universe db) <->
  exists b, In b (successor_chain_initial db) /\
    sc_original_bfs r = sc_original_bfs b /\ sc_original_name r = sc_original_name b /\
    (r = b \/ exists mc, In mc (municipal_changes db) /\
                sc_current_bfs r = mc_new_bfs_number mc /\
                sc_current_name r = mc_new_name mc /\ 1 <= sc_merge_depth r <= 10).
Proof.
  unfold successor_universe. rewrite in_flat_map. split.
  - intros [b [Hb [<-|H]]].
    + exists b. tauto.
    + apply in_flat_map in H. destruct H as [mc [Hm H]].
      apply in_map_iff in H. destruct H as [d [<- Hd]]. apply in_seq in Hd.
      exists b. cbn [sc_original_bfs sc_original_name sc_current_bfs sc_current_name
                      sc_merge_depth].
      repeat split; try assumption.
      right. exists mc. repeat split; try assumption; lia.
  - intros [b [Hb [H1 [H2 H]]]]. exists b. split; [assumption|].
    destruct H as [->|[mc [Hm [H3 [H4 Hd]]]]]; [now left|].
    right. apply in_flat_map. exists mc. split; [assumption|].
    apply in_map_iff. exists (Z.to_nat (sc_merge_depth r)). split.
    + destruct r as [ob on cb cn d].
      cbn [sc_original_bfs sc_original_name sc_current_bfs sc_current_name
           sc_merge_depth] in *.
      subst. f_equal. lia.
    + apply in_seq. lia.
Qed.

Lemma successor_step_universe db r :
  In r (successor_universe db) ->
  incl (successor_chain_step db r) (successor_universe db).
Proof.
  intros Hr n Hn. apply successor_universe_In in Hr.
  destruct Hr as [b [Hb [H1 [H2 H]]]].
  unfold successor_chain_step in Hn. apply in_map_iff in Hn.
  destruct Hn as [mc [<- Hn]]. apply filter_In in Hn. destruct Hn as [Hm Hn].
  rewrite !andb_true_iff in Hn. destruct Hn as [[_ Hd] _]. apply Z.ltb_lt in Hd.
  apply successor_universe_In. exists b.
  cbn [sc_original_bfs sc_original_name sc_current_bfs sc_current_name sc_merge_depth].
  repeat split; try assumption.
  right. exists mc. repeat split; try assumption.
  - destruct H as [->|[_ [_ [_ [_ H]]]]]; [|lia].
    rewrite (successor_initial_depth db b Hb). lia.
  - lia.
Qed.

Lemma successor_chain_terminates db fuel :
  (successor_chain_fuel db <= fuel)%nat ->
  successor_chain_run fuel db = Some (successor_chain db).
Proof.
  intros Hf.
  destruct (with_recursive_terminates successor_row_dec (successor_chain_step db)
              (successor_universe db) (successor_chain_initial db)
              (successor_chain_fuel db))
    as [res Hres].
  - intros b Hb. apply successor_universe_In. exists b. tauto.
  - apply successor_step_universe.
  - rewrite successor_universe_length. unfold successor_chain_fuel. lia.
  - unfold successor_chain. unfold successor_chain_run in *. rewrite Hres.
    apply run_queue_more_fuel with (1 := Hres). exact Hf.
Qed.

Lemma successor_chain_spec db :
  NoDup (successor_chain db) /\
  forall r, In r (successor_chain db) <->
            derived (successor_chain_step db) (successor_chain_initial db) r.
Proof.
  apply with_recursive_spec with (A_eq_dec := successor_row_dec)
                                 (fuel := successor_chain_fuel db).
  apply (successor_chain_terminates db). apply Nat.le_refl.
Qed.

Lemma successor_chain_depth db r :
  In r (successor_chain db) -> 0 <= sc_merge_depth r <= 10.
Proof.
  intros H.
  assert (Hu : In r (successor_universe db)).
  { apply successor_chain_spec in H. induction H as [r H|p r Hp IH Hr].
    - apply successor_universe_In. exists r. tauto.
    - now apply (successor_step_universe db p). }
  apply successor_universe_In in Hu.
  destruct Hu as [b [Hb [_ [_ [->|[mc [_ [_ [_ H']]]]]]]]]; [|lia].
  rewrite (successor_initial_depth db b Hb). lia.
Qed.

Lemma total_mergers_bound db m :
  In m (v_municipality_mapping db) -> 0 <= cm_total_mergers m <= 10.
Proof.
  unfold v_municipality_mapping. intros H. apply in_map_iff in H.
  destruct H as [[r d] [<- H]]. apply group_by_max_In in H. simpl in *.
  destruct H as [Hr [-> _]]. now apply successor_chain_depth with db.
Qed.

End OldViewFacts.

(** ** Facts about [v_voting_results_analysis] *)

Module AggregationFacts.

Import Sql SqlFacts Schema AnalysisViews Examples Statements MappingFacts.

Lemma aggregated_count_aggregate f k rows :
  aggregated_count f (aggregate k rows)
  = sql_sum (map (fun j => original_count f (j_vr j)) rows).
Proof. destruct f; reflexivity. Qed.

Lemma in_group_key k j : in_group k j = true <-> key_of j = k.
Proof. unfold in_group. destruct (analysis_key_dec (key_of j) k); split; congruence. Qed.

Lemma view_In db a :
  In a (v_voting_results_analysis db) <->
  exists j, In j (analysis_join db) /\
            a = aggregate (key_of j) (filter (in_group (key_of j)) (analysis_join db)).
Proof.
  unfold v_voting_results_analysis. rewrite in_map_iff. split.
  - intros [k [<- Hk]]. apply distinct_In, in_map_iff in Hk.
    destruct Hk as [j [<- Hj]]. eauto.
  - intros [j [Hj ->]]. exists (key_of j). split; [reflexivity|].
    apply distinct_In. now apply in_map.
Qed.

Lemma analysis_rows_of_proposal db pid :
  filter (fun a => proposal_id a =? pid) (v_voting_results_analysis db)
  = map (fun k => aggregate k (filter (in_group k)
                                 (filter (of_proposal pid) (analysis_join db))))
        (distinct analysis_key_dec
           (map key_of (filter (of_proposal pid) (analysis_join db)))).
Proof.
  unfold v_voting_results_analysis. rewrite filter_map_swap.
  cbn [proposal_id aggregate].
  rewrite <- (distinct_filter analysis_key_dec (fun k => k_proposal_id k =? pid)).
  rewrite filter_map_swap. cbn [k_proposal_id key_of]. fold (of_proposal pid).
  apply map_ext_in. intros k Hk. f_equal.
  apply distinct_In, in_map_iff in Hk. destruct Hk as [j [<- Hj]].
  apply filter_In in Hj. destruct Hj as [_ Hj].
  symmetry. apply filter_implied.
  intros j' _ Hg. apply in_group_key in Hg. unfold of_proposal in *.
  replace (p_proposal_id (j_p j')) with (k_proposal_id (key_of j')) by reflexivity.
  now rewrite Hg.
Qed.

Lemma aggregated_total_join f db pid :
  aggregated_total f db pid
  = sql_sum (map (fun j => original_count f (j_vr j))
               (filter (of_proposal pid) (analysis_join db))).
Proof.
  unfold aggregated_total. rewrite analysis_rows_of_proposal, map_map.
  rewrite <- (sql_sum_groups analysis_key_dec key_of
                (fun j => original_count f (j_vr j))
                (filter (of_proposal pid) (analysis_join db))).
  f_equal. apply map_ext. intros k. apply aggregated_count_aggregate.
Qed.


(** *** The join, proposal by proposal *)

Lemma unique_NoDup l : unique l = true -> NoDup l.
Proof.
  induction l as [|x t IH]; simpl; intros H; constructor.
  - apply andb_true_iff in H. destruct H as [H _].
    apply negb_true_iff in H. intros Hin.
    assert (E : existsb (Z.eqb x) t = true).
    { apply existsb_exists. exists x. split; [assumption | apply Z.eqb_refl]. }
    congruence.
  - apply IH. apply andb_true_iff in H. apply H.
Qed.

Lemma integrity_votings_key db :
  integrity db = true -> NoDup (map v_voting_id (votings db)).
Proof.
  unfold integrity. rewrite !andb_true_iff. intros [[[H _] _] _].
  now apply unique_NoDup.
Qed.

Lemma integrity_proposals_key db :
  integrity db = true -> NoDup (map p_proposal_id (proposals db)).
Proof.
  unfold integrity. rewrite !andb_true_iff. intros [[[_ H] _] _].
  now apply unique_NoDup.
Qed.

Lemma integrity_proposal_voting db p :
  integrity db = true -> In p (proposals db) ->
  exists v, In v (votings db) /\ v_voting_id v = p_voting_id p.
Proof.
  unfold integrity. rewrite !andb_true_iff. intros [[_ H] _] Hp.
  rewrite forallb_forall in H. specialize (H p Hp).
  apply existsb_exists in H. destruct H as [v [Hv H]].
  apply Z.eqb_eq in H. eauto.
Qed.

Lemma analysis_join_rows db :
  analysis_join db
  = flat_map
      (fun v => flat_map (proposal_rows db v)
                  (filter (fun p => v_voting_id v =? p_voting_id p) (proposals db)))
      (votings db).
Proof. reflexivity. Qed.

Lemma proposal_rows_In db v p j :
  In j (proposal_rows db v p) <->
  j_v j = v /\ j_p j = p /\
  In (j_vr j) (voting_results db) /\
  p_proposal_id p = vr_proposal_id (j_vr j) /\ is_municipality (j_vr j) = true /\
  In (j_m j) (v_stable_municipality_mapping db) /\
  vr_geo_id (j_vr j) = m_original_bfs (j_m j).
Proof.
  unfold proposal_rows. rewrite in_flat_map. split.
  - intros [vr [Hvr H]]. apply in_map_iff in H. destruct H as [m [<- Hm]].
    apply filter_In in Hvr, Hm. destruct Hvr as [Hvr Hc], Hm as [Hm Hg].
    apply andb_true_iff in Hc. destruct Hc as [Hc1 Hc2].
    apply Z.eqb_eq in Hc1. apply String.eqb_eq in Hg. simpl. tauto.
  - intros (H1 & H2 & H3 & H4 & H5 & H6 & H7). exists (j_vr j). split.
    + apply filter_In. split; [assumption|]. apply andb_true_iff.
      split; [now apply Z.eqb_eq | assumption].
    + apply in_map_iff. exists (j_m j). split.
      * destruct j. simpl in *. now subst.
      * apply filter_In. split; [assumption|]. now apply String.eqb_eq.
Qed.

Lemma join_of_proposal db pid p0 v0 :
  integrity db = true ->
  In p0 (proposals db) -> p_proposal_id p0 = pid ->
  In v0 (votings db) -> v_voting_id v0 = p_voting_id p0 ->
  filter (of_proposal pid) (analysis_join db) = proposal_rows db v0 p0.
Proof.
  intros Hi Hp0 Hpid Hv0 Hvid.
  assert (A : forall v,
             filter (of_proposal pid)
               (flat_map (proposal_rows db v)
                  (filter (fun p => v_voting_id v =? p_voting_id p) (proposals db)))
             = if v_voting_id v =? p_voting_id p0 then proposal_rows db v p0 else []).
  { intros v. rewrite filter_flat_map, flat_map_filter.
    rewrite (flat_map_unique p_proposal_id _ p0 (proposals db)
               (integrity_proposals_key db Hi) Hp0).
    - destruct (v_voting_id v =? p_voting_id p0); [|reflexivity].
      apply filter_id. intros j Hj. apply proposal_rows_In in Hj.
      destruct Hj as (_ & Hj & _). unfold of_proposal. rewrite Hj.
      now apply Z.eqb_eq.
    - intros p Hp Hne.
      destruct (v_voting_id v =? p_voting_id p); [|reflexivity].
      apply filter_none. intros j Hj. apply proposal_rows_In in Hj.
      destruct Hj as (_ & Hj & _). unfold of_proposal. rewrite Hj.
      apply Z.eqb_neq. congruence. }
  rewrite analysis_join_rows, filter_flat_map.
  rewrite (flat_map_ext _ _ A).
  rewrite (flat_map_unique v_voting_id _ v0 (votings db)
             (integrity_votings_key db Hi) Hv0).
  - rewrite Hvid. now rewrite Z.eqb_refl.
  - intros v Hv Hne.
    replace (v_voting_id v =? p_voting_id p0) with false; [reflexivity|].
    symmetry. apply Z.eqb_neq. congruence.
Qed.

Lemma proposal_rows_results db v p :
  integrity db = true ->
  map j_vr (proposal_rows db v p)
  = filter (fun vr => (p_proposal_id p =? vr_proposal_id vr) && is_municipality vr)
           (voting_results db).
Proof.
  intros Hi. unfold proposal_rows. apply map_flat_map_single.
  intros vr Hvr. apply filter_In in Hvr. destruct Hvr as [Hvr Hc].
  apply andb_true_iff in Hc. destruct Hc as [_ Hm].
  destruct (seed_mapping_row db (vr_geo_id vr) Hi) as [r [_ [_ [_ Hone]]]].
  { exists vr. tauto. }
  exists {| j_v := v; j_p := p; j_vr := vr; j_m := mapping_of_row r |}.
  split; [|reflexivity].
  rewrite (filter_ext _ (fun m => String.eqb (m_original_bfs m) (vr_geo_id vr))).
  - now rewrite Hone.
  - intros m'. apply String.eqb_sym.
Qed.



(** The end-to-end example of the specification: the 2005 totals of 3003
    are those of 1001. *)
Example aggregation_e2e :
  map (fun a => (municipality_id a, ja_stimmen_absolut a, nein_stimmen_absolut a,
                 gueltige_stimmen a, source_bfs_numbers a))
      (v_voting_results_analysis db_e2e)
  = [ (Some "3003", Some 40, Some 60, Some 100, ["1001"]) ].
Proof. vm_compute. reflexivity. Qed.

(** *** Percentages *)





(** *** The depth bound *)

(** C2, as stated, fails: on the cycle 100 -> 200 -> 100 the chain of 100
    reaches depth 10, and the votes of 100 are in the aggregated view. *)
Lemma halted_excluded_counterexample : ~ halted_excluded db_cycle.
Proof.
  intros H.
  assert (Hb : bound_reached db_cycle "100").
  { exists {| original_bfs := "100"; original_name := Some "Dorf";
              analysis_bfs := Some "100"; analysis_name := Some "Dorf";
              first_appearance := Some "20050605"; depth := 10 |}.
    split; [|split; reflexivity]. vm_compute. do 10 right. left. reflexivity. }
  apply (H "100" Hb
           (aggregate
              {| k_voting_id := 1; k_voting_date := "20050605"; k_proposal_id := 1;
                 k_title_de := None; k_title_fr := None; k_title_it := None;
                 k_angenommen := None;
                 k_analysis_bfs := Some "100"; k_analysis_name := Some "Dorf" |}
              (analysis_join db_cycle))).
  - vm_compute. left. reflexivity.
  - vm_compute. left. reflexivity.
Qed.

Lemma seed_in_view db vr p :
  integrity db = true ->
  In vr (voting_results db) -> is_municipality vr = true ->
  In p (proposals db) -> p_proposal_id p = vr_proposal_id vr ->
  exists m a,
    filter (fun m => String.eqb (m_original_bfs m) (vr_geo_id vr))
           (v_stable_municipality_mapping db) = [m] /\
    In a (v_voting_results_analysis db) /\
    proposal_id a = vr_proposal_id vr /\
    municipality_id a = m_analysis_bfs m /\
    In (vr_geo_id vr) (source_bfs_numbers a).
Proof.
  intros Hi Hvr Hm Hp Hpid.
  destruct (integrity_proposal_voting db p Hi Hp) as [v [Hv Hvid]].
  destruct (seed_mapping_row db (vr_geo_id vr) Hi) as [r [_ [_ [_ Hone]]]].
  { exists vr. tauto. }
  set (m := mapping_of_row r) in *.
  assert (Hmm : In m [m]) by now left.
  rewrite <- Hone in Hmm. apply filter_In in Hmm.
  destruct Hmm as [Hmm Hg]. apply String.eqb_eq in Hg.
  set (j := {| j_v := v; j_p := p; j_vr := vr; j_m := m |}).
  assert (Hj : In j (analysis_join db)).
  { rewrite analysis_join_rows. apply in_flat_map. exists v. split; [assumption|].
    apply in_flat_map. exists p. split.
    - apply filter_In. split; [assumption|]. now apply Z.eqb_eq.
    - apply proposal_rows_In. simpl. repeat split; auto. }
  exists m, (aggregate (key_of j) (filter (in_group (key_of j)) (analysis_join db))).
  split; [assumption|]. split; [apply view_In; eauto|].
  split; [simpl; assumption|]. split; [reflexivity|].
  cbn [aggregate source_bfs_numbers]. apply distinct_In.
  apply (in_map (fun j => vr_geo_id (j_vr j)) _ j).
  apply filter_In. split; [assumption|]. now apply in_group_key.
Qed.

(** C2, amended: reaching the bound raises no flag.  The seed keeps its
    one mapping row, with merge depth 10 and the number reached at depth
    10 as analysis number, and its votes are summed into the aggregated
    row of that number. *)
Theorem depth_bound_truncates (db : database) (g : string) :
  integrity db = true ->
  bound_reached db g ->
  exists r,
    In r (merger_chain db) /\ original_bfs r = g /\ depth r = 10 /\
    filter (fun m => String.eqb (m_original_bfs m) g)
           (v_stable_municipality_mapping db) = [mapping_of_row r] /\
    forall vr p,
      In vr (voting_results db) -> is_municipality vr = true -> vr_geo_id vr = g ->
      In p (proposals db) -> p_proposal_id p = vr_proposal_id vr ->
      exists a, In a (v_voting_results_analysis db) /\
                proposal_id a = vr_proposal_id vr /\
                municipality_id a = analysis_bfs r /\
                In g (source_bfs_numbers a).
Proof.
  intros Hi [r10 [Hr10 [Hg Hd]]].
  assert (Hk : In g (map original_bfs (merger_chain db))).
  { rewrite <- Hg. now apply in_map. }
  destruct (mapping_rows_of_seed (merger_chain db) g Hk) as [r [Hr [Hrg [Hmax Hrow]]]].
  exists r. split; [assumption|]. split; [assumption|]. split.
  - pose proof (Hmax r10 Hr10 Hg). pose proof (merger_chain_depth db r Hr). lia.
  - split; [exact Hrow|].
    intros vr p Hvr Hm Hvg Hp Hpid.
    destruct (seed_in_view db vr p Hi Hvr Hm Hp Hpid) as [m [a [Hone [Ha [H1 [H2 H3]]]]]].
    rewrite Hvg in Hone, H3.
    unfold v_stable_municipality_mapping in Hone. rewrite Hrow in Hone.
    injection Hone as <-. exists a. repeat split; assumption.
Qed.

Lemma depth_bound_truncates_witness :
  integrity db_cycle = true /\ bound_reached db_cycle "100" /\
  exists r,
    In r (merger_chain db_cycle) /\ original_bfs r = "100" /\ depth r = 10 /\
    filter (fun m => String.eqb (m_original_bfs m) "100")
           (v_stable_municipality_mapping db_cycle) = [mapping_of_row r] /\
    forall vr p,
      In vr (voting_results db_cycle) -> is_municipality vr = true ->
      vr_geo_id vr = "100" ->
      In p (proposals db_cycle) -> p_proposal_id p = vr_proposal_id vr ->
      exists a, In a (v_voting_results_analysis db_cycle) /\
                proposal_id a = vr_proposal_id vr /\
                municipality_id a = analysis_bfs r /\
                In "100" (source_bfs_numbers a).
Proof.
  assert (H1 : integrity db_cycle = true) by reflexivity.
  assert (H2 : bound_reached db_cycle "100").
  { exists {| original_bfs := "100"; original_name := Some "Dorf";
              analysis_bfs := Some "100"; analysis_name := Some "Dorf";
              first_appearance := Some "20050605"; depth := 10 |}.
    split; [|split; reflexivity]. vm_compute. do 10 right. left. reflexivity. }
  split; [exact H1|]. split; [exact H2|].
  exact (depth_bound_truncates db_cycle "100" H1 H2).
Defined.
End AggregationFacts.

(** ** Termination of both chain constructions *)

Module Termination.

Import Sql Schema AnalysisViews MergerViewsOld Examples.

(** C7: building the chain stops for every set of change records, in
    [v_stable_municipality_mapping] and in the old [v_municipality_mapping]
    alike: once the fuel covers the rows that can exist, the run returns
    the chain; no chain row is deeper than 10, so a lineage has at most 11
    nodes, and no merge depth of a mapping exceeds 10.  On the cycle
    100 -> 200 -> 100 both mappings stop at depth 10. *)
Theorem chain_construction_halts :
  (forall db,
     (forall fuel, (merger_chain_fuel db <= fuel)%nat ->
                   merger_chain_run fuel db = Some (merger_chain db)) /\
     (forall r, In r (merger_chain db) -> 0 <= depth r <= 10) /\
     (forall m, In m (v_stable_municipality_mapping db) -> 0 <= m_merge_depth m <= 10) /\
     (forall fuel, (successor_chain_fuel db <= fuel)%nat ->
                   successor_chain_run fuel db = Some (successor_chain db)) /\
     (forall r, In r (successor_chain db) -> 0 <= sc_merge_depth r <= 10) /\
     (forall m, In m (v_municipality_mapping db) -> 0 <= cm_total_mergers m <= 10)) /\
  map m_merge_depth (v_stable_municipality_mapping db_cycle) = [10] /\
  map cm_total_mergers (v_municipality_mapping db_cycle) = [10].
Proof.
  split; [|split].
  - intros db. repeat split.
    + apply MappingFacts.merger_chain_terminates.
    + now apply MappingFacts.merger_chain_depth with db.
    + now apply MappingFacts.merger_chain_depth with db.
    + now apply MappingFacts.mapping_depth with db.
    + now apply MappingFacts.mapping_depth with db.
    + apply OldViewFacts.successor_chain_terminates.
    + now apply OldViewFacts.successor_chain_depth with db.
    + now apply OldViewFacts.successor_chain_depth with db.
    + now apply OldViewFacts.total_mergers_bound with db.
    + now apply OldViewFacts.total_mergers_bound with db.
  - vm_compute. reflexivity.
  - vm_compute. reflexivity.
Qed.

Lemma chain_construction_halts_witness :
  merger_chain_run (merger_chain_fuel db_cycle) db_cycle = Some (merger_chain db_cycle).
Proof.
  apply (proj1 (proj1 chain_construction_halts db_cycle)).
  apply Nat.le_refl.
Defined.

End Termination.

(** ** Facts about [verify_perfect_matching] *)

Module VerificationFacts.

Import Sql SqlFacts Schema AnalysisViews Examples Statements AggregationFacts.


(** What the run logs there: a warning, with the proposal and the two
    differences. *)
Example main_on_dangling :
  main (Some db_dangling)
  = (0, [WarningMismatchCount 1; WarningMismatch 1 (Some 7) (Some 3)]).
Proof. vm_compute. reflexivity. Qed.

(** Only the yes and no totals are compared: a difference in the valid
    votes alone goes unnoticed. *)
Example main_on_unchecked_column :
  let db :=
    {| votings := [ {| v_voting_id := 1; v_voting_date := "20050605" |} ];
       proposals := [ simple_proposal 1 1 ];
       voting_results :=
         [ result 1 1 1 "100" "Dorf" 40 60 100 110 200;
           result 2 9 1 "200" "Stadt" 0 0 10 10 20 ];
       municipal_changes := [] |} in
  aggregated_total Gueltig db 1 = Some 100 /\
  original_total Gueltig db 1 = Some 110 /\
  main (Some db) = (0, [InfoPerfectMatch]).
Proof. vm_compute. repeat split; reflexivity. Qed.










End VerificationFacts.

(** ** Facts about the import of the change records *)

Module ImportFacts.

Import Schema ImportMunicipalChanges Examples ImportStatements.

(** What the import makes of the malformed sheet: both records are in the
    table, with the text "abc" as old number, "n/a" as a date, and the
    split flag set because the two share "abc". *)
Example imported_malformed :
  map (fun mc => (mc_old_bfs_number mc, mc_new_bfs_number mc,
                  mc_mutation_date mc, mc_is_split mc))
      (imported_table sheet_malformed)
  = [ (Some "abc", Some "200", Some "n/a", Some true);
      (Some "abc", Some "300", Some "20120101", Some true) ]
  /\ snd (read_excel_with_validation sheet_malformed) = [NonNumericOld 2].
Proof. vm_compute. split; reflexivity. Qed.

(** The record enters the mutation graph: "abc" is resolved along it (of
    its two successors at depth 1 the model takes the first of the scan). *)
Example malformed_edge_followed :
  map (fun m => (AnalysisViews.m_original_bfs m, AnalysisViews.m_analysis_bfs m,
                 AnalysisViews.m_merge_depth m))
      (AnalysisViews.v_stable_municipality_mapping db_malformed)
  = [ ("abc", Some "200", 1) ].
Proof. vm_compute. reflexivity. Qed.


Lemma validated_rows df r :
  In r (fst (read_excel_with_validation df)) -> In r df.
Proof.
  unfold read_excel_with_validation. cbn [fst].
  match goal with |- context [if ?c then _ else _] => destruct c end; [|auto].
  intros H. now apply filter_In in H.
Qed.




End ImportFacts.

(** ** Further facts about the mapping and the aggregated view *)

Module ViewExtras.

Import Sql SqlFacts Schema AnalysisViews Examples Statements Lineage.
Import MappingFacts AggregationFacts VerificationFacts.

(** *** Lineages *)

Lemma merger_chain_lineage db r :
  In r (merger_chain db) ->
  lineage db (first_appearance r) (Some (original_bfs r)) (analysis_bfs r) (depth r).
Proof.
  intros H. apply merger_chain_spec in H.
  induction H as [r H|p r Hp IH Hr].
  - unfold merger_chain_initial in H. apply in_map_iff in H.
    destruct H as [vm [<- _]]. simpl. constructor.
  - apply merger_chain_step_In in Hr.
    destruct Hr as [mch [Hm [H1 [H2 [H3 [H4 [H5 ->]]]]]]]. simpl.
    apply lineage_next with (y := analysis_bfs p); try assumption.
    now apply sql_not_in_true.
Qed.

(** The merge depth of a mapping row is the number of change records
    followed from the original number to the analysis number; each of
    them changes the number, is dated on or after the first appearance,
    and starts from a number that is no true split origin. *)
Theorem mapping_row_lineage (db : database) (m : mapping_row) :
  In m (v_stable_municipality_mapping db) ->
  lineage db (m_first_appearance m) (Some (m_original_bfs m))
          (m_analysis_bfs m) (m_merge_depth m).
Proof.
  intros H. apply stable_mapping_In in H. destruct H as [r [Hr [-> _]]].
  simpl. now apply merger_chain_lineage.
Qed.

Lemma mapping_row_lineage_witness :
  let m := {| m_original_bfs := "1001"; m_original_name := Some "OldTown";
              m_analysis_bfs := Some "3003"; m_analysis_name := Some "Capital";
              m_first_appearance := Some "20050605"; m_merge_depth := 2 |} in
  In m (v_stable_municipality_mapping db_e2e) /\
  lineage db_e2e (Some "20050605") (Some "1001") (Some "3003") 2.
Proof.
  intros m.
  assert (H : In m (v_stable_municipality_mapping db_e2e)) by (left; reflexivity).
  split; [exact H|]. exact (mapping_row_lineage db_e2e m H).
Defined.

(** *** A seed without a later change *)

Lemma merger_chain_first_appearance db r :
  In r (merger_chain db) ->
  exists vm, In vm (voting_municipalities db) /\
             vm_bfs vm = original_bfs r /\
             vm_first_appearance vm = first_appearance r.
Proof.
  intros H. apply merger_chain_universe, chain_universe_In in H.
  destruct H as [vm [Hvm [H1 [_ [H3 _]]]]]. exists vm. auto.
Qed.

Lemma unchanged_seed_rows db g r :
  no_later_change db g ->
  In r (merger_chain db) -> original_bfs r = g ->
  analysis_bfs r = Some g /\ depth r = 0.
Proof.
  intros Hno H. apply merger_chain_spec in H.
  induction H as [r H|p r Hp IH Hr]; intros Hg.
  - unfold merger_chain_initial in H. apply in_map_iff in H.
    destruct H as [vm [<- _]]. simpl in *. now subst.
  - exfalso. pose proof Hr as Hr'. apply merger_chain_step_In in Hr.
    destruct Hr as [mch [Hm [H1 [_ [H3 [H4 [_ ->]]]]]]]. simpl in Hg.
    destruct (IH Hg) as [Ha _]. rewrite Ha in H1.
    apply text_eq_true in H1. destruct H1 as [s [Hs Ho]]. injection Hs as <-.
    destruct (merger_chain_first_appearance db p) as [vm [Hvm [Hb Hf]]].
    { now apply merger_chain_spec. }
    rewrite <- Hf in H4.
    rewrite (Hno mch vm Hm Hvm) in H4; congruence.
Qed.

(** A municipality whose number no change record changes on or after its
    first appearance is its own analysis municipality, at depth 0:
    changes dated before it first voted are not followed. *)
Theorem unchanged_seed_maps_to_itself (db : database) (g : string) :
  integrity db = true ->
  in_voting_data db g ->
  no_later_change db g ->
  exists m,
    filter (fun m => String.eqb (m_original_bfs m) g) (v_stable_municipality_mapping db)
    = [m] /\
    m_analysis_bfs m = Some g /\ m_merge_depth m = 0.
Proof.
  intros Hi Hg Hno.
  destruct (seed_mapping_row db g Hi Hg) as [r [Hr [Ho [_ H]]]].
  exists (mapping_of_row r). split; [exact H|].
  simpl. now apply (unchanged_seed_rows db g r).
Qed.

Lemma unchanged_seed_maps_to_itself_witness :
  exists m,
    filter (fun m => String.eqb (m_original_bfs m) "100")
           (v_stable_municipality_mapping MoreExamples.db_early) = [m] /\
    m_analysis_bfs m = Some "100" /\ m_merge_depth m = 0.
Proof.
  apply (unchanged_seed_maps_to_itself MoreExamples.db_early "100").
  - reflexivity.
  - eexists. split; [left; reflexivity|]. split; reflexivity.
  - intros mc vm Hm Hvm _ _ _.
    destruct Hm as [<-|[]]. destruct Hvm as [<-|[]]. reflexivity.
Defined.

(** *** The rows of the aggregated view *)

Lemma NoDup_map_injective {B K} (key : B -> K) (l : list B) :
  NoDup (map key l) ->
  forall x y, In x l -> In y l -> key x = key y -> x = y.
Proof.
  induction l as [|h t IH]; intros Hn x y Hx Hy E; [destruct Hx|].
  simpl in Hn. inversion Hn as [|? ? Hh Ht]; subst.
  destruct Hx as [<-|Hx], Hy as [<-|Hy]; auto.
  - exfalso. apply Hh. rewrite E. now apply in_map.
  - exfalso. apply Hh. rewrite <- E. now apply in_map.
Qed.

Lemma NoDup_map_on {B K} (key : B -> K) (l : list B) :
  NoDup l ->
  (forall x y, In x l -> In y l -> key x = key y -> x = y) ->
  NoDup (map key l).
Proof.
  induction 1 as [|h t Hh Ht IH]; intros Hinj; simpl; constructor.
  - intros Hk. apply in_map_iff in Hk. destruct Hk as [y [E Hy]].
    apply Hh. rewrite (Hinj h y); auto; [now left | now right].
  - apply IH. intros x y Hx Hy. apply Hinj; now right.
Qed.

Lemma analysis_join_In db j :
  In j (analysis_join db) <->
  In (j_v j) (votings db) /\ In (j_p j) (proposals db) /\
  v_voting_id (j_v j) = p_voting_id (j_p j) /\
  In (j_vr j) (voting_results db) /\
  p_proposal_id (j_p j) = vr_proposal_id (j_vr j) /\
  is_municipality (j_vr j) = true /\
  In (j_m j) (v_stable_municipality_mapping db) /\
  vr_geo_id (j_vr j) = m_original_bfs (j_m j).
Proof.
  rewrite analysis_join_rows, in_flat_map. split.
  - intros [v [Hv H]]. apply in_flat_map in H. destruct H as [p [Hp H]].
    apply filter_In in Hp. destruct Hp as [Hp E]. apply Z.eqb_eq in E.
    apply proposal_rows_In in H. destruct H as [-> [-> H]]. tauto.
  - intros [Hv [Hp [E H]]]. exists (j_v j). split; [exact Hv|].
    apply in_flat_map. exists (j_p j). split.
    + apply filter_In. split; [exact Hp | now apply Z.eqb_eq].
    + apply proposal_rows_In. tauto.
Qed.

(** The sources of an aggregated row: there is at least one, none is
    listed twice, their number is [source_municipality_count], and each
    is the number of a municipality-level result row of the proposal
    that the stable mapping sends to the row's municipality. *)
Theorem sources_resolve_to_municipality (db : database) (a : analysis_row) :
  In a (v_voting_results_analysis db) ->
  source_bfs_numbers a <> [] /\
  NoDup (source_bfs_numbers a) /\
  source_municipality_count a = Z.of_nat (List.length (source_bfs_numbers a)) /\
  forall g, In g (source_bfs_numbers a) ->
    exists vr m,
      In vr (voting_results db) /\ is_municipality vr = true /\
      vr_geo_id vr = g /\ vr_proposal_id vr = proposal_id a /\
      In m (v_stable_municipality_mapping db) /\ m_original_bfs m = g /\
      m_analysis_bfs m = municipality_id a /\
      m_analysis_name m = municipality_name a.
Proof.
  intros H. apply view_In in H. destruct H as [j [Hj ->]]. simpl.
  split; [|split; [|split]].
  - intros E.
    assert (Hin : In (vr_geo_id (j_vr j))
                     (distinct string_dec
                        (map (fun j0 => vr_geo_id (j_vr j0))
                             (filter (in_group (key_of j)) (analysis_join db))))).
    { apply distinct_In, in_map_iff. exists j. split; [reflexivity|].
      apply filter_In. split; [exact Hj | now apply in_group_key]. }
    rewrite E in Hin. destruct Hin.
  - apply distinct_NoDup.
  - reflexivity.
  - intros g Hg. apply distinct_In, in_map_iff in Hg.
    destruct Hg as [j' [<- Hj']]. apply filter_In in Hj'.
    destruct Hj' as [Hj' Hk]. apply in_group_key in Hk.
    apply analysis_join_In in Hj'.
    destruct Hj' as [_ [_ [_ [Hvr [Hp [Hmun [Hm Hg]]]]]]].
    exists (j_vr j'), (j_m j'). repeat split; auto.
    + rewrite <- Hp. exact (f_equal k_proposal_id Hk).
    + exact (f_equal k_analysis_bfs Hk).
    + exact (f_equal k_analysis_name Hk).
Qed.

Lemma sources_resolve_to_municipality_witness :
  exists a, In a (v_voting_results_analysis db_ratio) /\
            source_bfs_numbers a <> [] /\ NoDup (source_bfs_numbers a).
Proof.
  eexists. split; [left; reflexivity|].
  refine (let H := sources_resolve_to_municipality db_ratio _ _ in
          conj (proj1 H) (proj1 (proj2 H))).
  left. reflexivity.
Defined.

Lemma join_key_determined db j1 j2 :
  integrity db = true ->
  In j1 (analysis_join db) -> In j2 (analysis_join db) ->
  p_proposal_id (j_p j1) = p_proposal_id (j_p j2) ->
  m_analysis_bfs (j_m j1) = m_analysis_bfs (j_m j2) ->
  m_analysis_name (j_m j1) = m_analysis_name (j_m j2) ->
  key_of j1 = key_of j2.
Proof.
  intros Hi H1 H2 Ep Eb En.
  apply analysis_join_In in H1. apply analysis_join_In in H2.
  destruct H1 as [Hv1 [Hp1 [E1 _]]]. destruct H2 as [Hv2 [Hp2 [E2 _]]].
  assert (P : j_p j1 = j_p j2).
  { now apply (NoDup_map_injective p_proposal_id (proposals db)
                 (integrity_proposals_key db Hi)). }
  assert (V : j_v j1 = j_v j2).
  { apply (NoDup_map_injective v_voting_id (votings db)
             (integrity_votings_key db Hi)); auto. congruence. }
  unfold key_of. now rewrite P, V, Eb, En.
Qed.

(** On a database that keeps its keys, the aggregated view has one row
    per proposal, analysis number and analysis name. *)
Theorem one_row_per_proposal_and_municipality (db : database) :
  integrity db = true ->
  NoDup (map (fun a => (proposal_id a, municipality_id a, municipality_name a))
             (v_voting_results_analysis db)).
Proof.
  intros Hi. unfold v_voting_results_analysis. cbv zeta. rewrite map_map. simpl.
  apply NoDup_map_on; [apply distinct_NoDup|].
  intros k1 k2 H1 H2 E.
  apply distinct_In, in_map_iff in H1. apply distinct_In, in_map_iff in H2.
  destruct H1 as [j1 [<- H1]]. destruct H2 as [j2 [<- H2]].
  simpl in E. injection E as Ep Eb En.
  now apply (join_key_determined db).
Qed.

Lemma one_row_per_proposal_and_municipality_witness :
  NoDup (map (fun a => (proposal_id a, municipality_id a, municipality_name a))
             (v_voting_results_analysis MoreExamples.db_two_votings)).
Proof.
  apply (one_row_per_proposal_and_municipality MoreExamples.db_two_votings).
  reflexivity.
Defined.

(** *** The range of the yes percentage *)

Lemma round2_range (y v : Z) :
  0 <= y <= v -> 0 < v ->
  exists n, round2 (100 * inject_Z y / inject_Z v)%Q = n # 100 /\ 0 <= n <= 10000.
Proof.
  intros Hy Hv. destruct v as [|pv|pv]; try lia.
  eexists. split; [reflexivity|].
  cbn [Qnum Qden Qmult Qdiv Qinv inject_Z].
  rewrite ?Pos.mul_1_l, ?Pos.mul_1_r.
  set (N := 100 * y * 1 * 100). set (d := Z.pos pv) in *.
  assert (HN : 0 <= N <= 10000 * d) by (unfold N; lia).
  rewrite (Z.abs_eq N) by lia.
  assert (Hq : 0 <= (2 * N + d) / (2 * d) <= 10000).
  { split.
    - apply Z.div_pos; lia.
    - apply Z.lt_succ_r, Z.div_lt_upper_bound; lia. }
  destruct (Z.sgn_spec N) as [[H ->]|[[H ->]|[H ->]]]; lia.
Qed.

Lemma sums_bounded {B} (fy fv : B -> option Z) (l : list B) :
  l <> [] ->
  (forall x, In x l -> exists y v, fy x = Some y /\ fv x = Some v /\ 0 <= y <= v) ->
  exists y v, sql_sum (map fy l) = Some y /\ sql_sum (map fv l) = Some v /\ 0 <= y <= v.
Proof.
  induction l as [|h t IH]; intros Hne H; [congruence|].
  destruct (H h (or_introl eq_refl)) as [y [v [Ey [Ev Hb]]]].
  destruct t as [|h' t'].
  - exists y, v. simpl. rewrite Ey, Ev. auto.
  - destruct IH as [y' [v' [Ey' [Ev' Hb']]]]; [discriminate | |].
    { intros x Hx. apply H. now right. }
    exists (y + y'), (v + v').
    change (sql_sum (map fy (h :: h' :: t')))
      with (sql_add (fy h) (sql_sum (map fy (h' :: t')))).
    change (sql_sum (map fv (h :: h' :: t')))
      with (sql_add (fv h) (sql_sum (map fv (h' :: t')))).
    rewrite Ey, Ev, Ey', Ev'. simpl. repeat split; lia.
Qed.

Lemma percent_range num den :
  (exists y v, num = Some y /\ den = Some v /\ 0 <= y <= v) ->
  percentage_or_null (percent num den) den.
Proof.
  intros [y [v [-> [-> Hb]]]]. unfold percent, percentage_or_null.
  destruct (0 <? v) eqn:E.
  - apply Z.ltb_lt in E. now apply round2_range.
  - apply Z.ltb_ge in E. f_equal. lia.
Qed.

(** When every municipality-level result row has its yes and valid
    counts, with no more yes votes than valid votes, the yes percentage
    of every aggregated row is a number of hundredths between 0 and 100,
    or NULL, and then the summed valid votes are 0. *)
Theorem yes_percentage_in_range (db : database) (a : analysis_row) :
  plausible_counts db ->
  In a (v_voting_results_analysis db) ->
  percentage_or_null (ja_prozent a) (gueltige_stimmen a).
Proof.
  intros Hpl H. apply view_In in H. destruct H as [j [Hj ->]]. simpl.
  apply percent_range.
  apply (sums_bounded (fun j => vr_ja_stimmen_absolut (j_vr j))
                      (fun j => vr_gueltige_stimmen (j_vr j))).
  - intros E.
    assert (Hin : In j (filter (in_group (key_of j)) (analysis_join db))).
    { apply filter_In. split; [exact Hj | now apply in_group_key]. }
    rewrite E in Hin. destruct Hin.
  - intros x Hx. apply filter_In in Hx. destruct Hx as [Hx _].
    apply analysis_join_In in Hx. apply Hpl; tauto.
Qed.

Lemma yes_percentage_in_range_witness :
  exists a, In a (v_voting_results_analysis db_ratio) /\
            percentage_or_null (ja_prozent a) (gueltige_stimmen a).
Proof.
  eexists. split; [left; reflexivity|].
  apply (yes_percentage_in_range db_ratio).
  - intros vr [<-|[<-|[]]] _; do 2 eexists; repeat split; simpl; lia.
  - left; reflexivity.
Defined.

(** *** The verification on a database that keeps its keys *)


Lemma total_of_proposal db p f :
  integrity db = true -> In p (proposals db) ->
  aggregated_total f db (p_proposal_id p) = original_total f db (p_proposal_id p).
Proof.
  intros Hi Hp.
  destruct (integrity_proposal_voting db p Hi Hp) as [v [Hv Hvid]].
  rewrite aggregated_total_join, (join_of_proposal db _ p v Hi Hp eq_refl Hv Hvid).
  rewrite <- (map_map j_vr (original_count f)), (proposal_rows_results db v p Hi).
  unfold original_total. f_equal. f_equal. apply filter_ext.
  intros vr. rewrite andb_comm. f_equal. apply Z.eqb_sym.
Qed.






End ViewExtras.

(** ** The order of TEXT *)

Module TextOrder.

Lemma ascii_compare_lt_trans (a b c : ascii) :
  Ascii.compare a b = Lt -> Ascii.compare b c = Lt -> Ascii.compare a c = Lt.
Proof.
  unfold Ascii.compare. rewrite !N.compare_lt_iff. apply N.lt_trans.
Qed.

Lemma compare_refl (s : string) : String.compare s s = Eq.
Proof.
  induction s as [|a s IH]; [reflexivity|]. simpl.
  unfold Ascii.compare. now rewrite N.compare_refl.
Qed.

Lemma compare_lt_trans : forall s1 s2 s3 : string,
  String.compare s1 s2 = Lt -> String.compare s2 s3 = Lt -> String.compare s1 s3 = Lt.
Proof.
  induction s1 as [|a s1 IH]; intros [|b s2] [|c s3]; simpl; try congruence.
  destruct (Ascii.compare a b) eqn:Eab; try discriminate.
  - apply Ascii.compare_eq_iff in Eab. subst b.
    destruct (Ascii.compare a c) eqn:Eac; try congruence. apply IH.
  - destruct (Ascii.compare b c) eqn:Ebc; try discriminate.
    + apply Ascii.compare_eq_iff in Ebc. subst c. now rewrite Eab.
    + now rewrite (ascii_compare_lt_trans a b c Eab Ebc).
Qed.

Lemma leb_cases (a b : string) :
  String.leb a b = true <-> String.compare a b = Lt \/ a = b.
Proof.
  unfold String.leb. destruct (String.compare a b) eqn:E.
  - apply String.compare_eq_iff in E. tauto.
  - tauto.
  - split; [discriminate|]. intros [H| ->]; [discriminate|].
    rewrite compare_refl in E. discriminate.
Qed.

Lemma leb_refl (a : string) : String.leb a a = true.
Proof. apply leb_cases. now right. Qed.

Lemma leb_trans (a b c : string) :
  String.leb a b = true -> String.leb b c = true -> String.leb a c = true.
Proof.
  rewrite !leb_cases. intros [H1| ->] [H2| ->]; auto.
  left. now apply (compare_lt_trans a b c).
Qed.

Lemma text_min_le (a b : string) :
  String.leb (Sql.text_min a b) a = true /\ String.leb (Sql.text_min a b) b = true.
Proof.
  unfold Sql.text_min. destruct (String.leb a b) eqn:E.
  - split; [apply leb_refl | exact E].
  - split; [|apply leb_refl].
    destruct (String.leb_total a b) as [H|H]; congruence.
Qed.

Lemma fold_min_le (l : list string) : forall x,
  String.leb (fold_left Sql.text_min l x) x = true /\
  forall y, In y l -> String.leb (fold_left Sql.text_min l x) y = true.
Proof.
  induction l as [|h t IH]; intros x; simpl.
  - split; [apply leb_refl | tauto].
  - destruct (IH (Sql.text_min x h)) as [H1 H2].
    destruct (text_min_le x h) as [M1 M2]. split.
    + now apply (leb_trans _ (Sql.text_min x h)).
    + intros y [<-|Hy]; [now apply (leb_trans _ (Sql.text_min x h)) | now apply H2].
Qed.

Lemma fold_min_In (l : list string) : forall x,
  In (fold_left Sql.text_min l x) (x :: l).
Proof.
  induction l as [|h t IH]; intros x; simpl; [now left|].
  destruct (IH (Sql.text_min x h)) as [H|H].
  - rewrite <- H. unfold Sql.text_min. destruct (String.leb x h); auto.
  - right. now right.
Qed.

(** [MIN] over TEXT: a value of the column, and none is smaller. *)
Lemma sql_min_text_spec (l : list string) (m : string) :
  Sql.sql_min_text l = Some m ->
  In m l /\ forall y, In y l -> String.leb m y = true.
Proof.
  destruct l as [|x t]; simpl; [discriminate|]. intros E. injection E as <-.
  split; [apply fold_min_In|].
  destruct (fold_min_le t x) as [H1 H2]. intros y [<-|Hy]; auto.
Qed.

End TextOrder.

(** ** The data quality view and the statistics *)

Module QualityFacts.

Import Sql SqlFacts Schema AnalysisViews DataQuality Examples Statements.
Import MappingFacts.

(** *** Counting *)

Lemma NoDup_same_length {B} (l1 l2 : list B) :
  NoDup l1 -> NoDup l2 -> (forall x, In x l1 <-> In x l2) ->
  List.length l1 = List.length l2.
Proof.
  intros N1 N2 H. apply Nat.le_antisymm; apply NoDup_incl_length; auto;
    intros x Hx; now apply H.
Qed.

Lemma NoDup_map_filter {B K} (key : B -> K) (f : B -> bool) (l : list B) :
  NoDup (map key l) -> NoDup (map key (filter f l)).
Proof.
  induction l as [|h t IH]; simpl; intros Hn; [constructor|].
  inversion Hn as [|? ? Hh Ht]; subst.
  destruct (f h); simpl; [constructor|]; auto.
  intros Hin. apply Hh. apply in_map_iff in Hin. destruct Hin as [x [E Hx]].
  apply filter_In in Hx. rewrite <- E. apply in_map. tauto.
Qed.

Section Partition.
Context {B K : Type}.
Variable K_dec : forall a b : K, {a = b} + {a <> b}.
Variable key : B -> K.

Lemma count_single (k0 : K) (ks : list K) :
  NoDup ks -> In k0 ks ->
  list_sum (map (fun k => if K_dec k0 k then 1%nat else 0%nat) ks) = 1%nat.
Proof.
  induction ks as [|k t IH]; intros Hn Hin; [destruct Hin|].
  inversion Hn as [|? ? Hk Ht]; subst. simpl.
  destruct (K_dec k0 k) as [->|Hne].
  - f_equal. clear IH Hin Hn Ht. induction t as [|h t IH]; [reflexivity|]. simpl.
    destruct (K_dec k h) as [->|_]; [exfalso; apply Hk; now left|].
    apply IH. intros H. apply Hk. now right.
  - destruct Hin as [->|Hin]; [congruence|]. now apply IH.
Qed.

Lemma list_sum_pointwise (a b : K -> nat) (ks : list K) :
  list_sum (map (fun k => (a k + b k)%nat) ks)
  = (list_sum (map a ks) + list_sum (map b ks))%nat.
Proof. induction ks as [|k t IH]; simpl; [reflexivity | rewrite IH; lia]. Qed.

(** The sizes of the groups of a [GROUP BY] add up to the number of
    rows. *)
Lemma length_partition (ks : list K) : NoDup ks ->
  forall l : list B, (forall x, In x l -> In (key x) ks) ->
  list_sum (map (fun k => List.length
                            (filter (fun x => if K_dec (key x) k then true else false) l))
                ks)
  = List.length l.
Proof.
  intros Hn. induction l as [|x t IH]; intros Hin.
  - simpl. clear. induction ks; simpl; auto.
  - rewrite (map_ext _ (fun k => ((if K_dec (key x) k then 1 else 0)
        + List.length (filter (fun x => if K_dec (key x) k then true else false) t))%nat)).
    + rewrite list_sum_pointwise, count_single, IH; auto.
      * intros y Hy. apply Hin. now right.
      * apply Hin. now left.
    + intros k. simpl. destruct (K_dec (key x) k); reflexivity.
Qed.

End Partition.

(** *** The keys of the mapping *)

Lemma group_by_max_keys {R} (key : R -> string) (depth : R -> Z) (rows : list R) :
  map (fun g => key (fst g)) (group_by_max key depth rows)
  = distinct string_dec (map key rows).
Proof.
  unfold group_by_max. apply map_flat_map_single.
  intros k Hk. apply distinct_In in Hk.
  destruct (group_max_row key depth rows k Hk) as [r [_ [Hr [_ E]]]].
  exists (r, depth r). split; [exact E | exact Hr].
Qed.

Lemma mapping_keys db :
  map m_original_bfs (v_stable_municipality_mapping db)
  = distinct string_dec (map original_bfs (merger_chain db)).
Proof.
  unfold v_stable_municipality_mapping, stable_mapping_of.
  rewrite map_map. simpl. apply group_by_max_keys.
Qed.

Lemma mapping_keys_NoDup db :
  NoDup (map m_original_bfs (v_stable_municipality_mapping db)).
Proof. rewrite mapping_keys. apply distinct_NoDup. Qed.

(** *** The join and the order *)

Lemma quality_join_In db j :
  In j (quality_join db) -> In (fst j) (v_stable_municipality_mapping db).
Proof.
  unfold quality_join. intros H. apply in_flat_map in H.
  destruct H as [m [Hm H]].
  destruct (filter _ (voting_results db)) as [|vr rest].
  - destruct H as [<-|[]]. exact Hm.
  - apply in_map_iff in H. destruct H as [vr' [<- _]]. exact Hm.
Qed.

Lemma quality_join_covers db m :
  In m (v_stable_municipality_mapping db) ->
  exists j, In j (quality_join db) /\ fst j = m.
Proof.
  intros Hm.
  destruct (filter (fun vr => String.eqb (m_original_bfs m) (vr_geo_id vr)
                              && is_municipality vr) (voting_results db))
    as [|vr rest] eqn:E.
  - exists (m, None). split; [|reflexivity].
    unfold quality_join. apply in_flat_map. exists m. split; [exact Hm|].
    rewrite E. now left.
  - exists (m, Some vr). split; [|reflexivity].
    unfold quality_join. apply in_flat_map. exists m. split; [exact Hm|].
    rewrite E. now left.
Qed.

Lemma insert_quality_perm r l : Permutation (insert_quality r l) (r :: l).
Proof.
  induction l as [|h t IH]; simpl; [reflexivity|].
  destruct (quality_before h r); [|reflexivity].
  rewrite IH. apply perm_swap.
Qed.

Lemma order_quality_perm l : Permutation (order_quality l) l.
Proof.
  unfold order_quality.
  assert (G : forall l acc,
             Permutation (fold_left (fun acc r => insert_quality r acc) l acc) (l ++ acc)).
  { clear l. induction l as [|h t IH]; intros acc; simpl; [reflexivity|].
    rewrite IH, insert_quality_perm. symmetry. apply Permutation_middle. }
  rewrite G. now rewrite app_nil_r.
Qed.

Lemma sum_perm (l1 l2 : list Z) :
  Permutation l1 l2 -> fold_right Z.add 0 l1 = fold_right Z.add 0 l2.
Proof. induction 1; simpl; lia. Qed.

Lemma sum_of_nat (l : list nat) :
  fold_right Z.add 0 (map Z.of_nat l) = Z.of_nat (list_sum l).
Proof. induction l as [|h t IH]; simpl; [reflexivity | rewrite IH; lia]. Qed.

Lemma quality_view_perm db :
  Permutation (v_municipality_data_quality db) (quality_groups db).
Proof. apply order_quality_perm. Qed.

(** The sources of a group are the mapping rows with its key. *)
Lemma group_source_count db k :
  List.length
    (distinct string_dec
       (map (fun j => m_original_bfs (fst j))
            (filter (in_quality_group k) (quality_join db))))
  = List.length
      (filter (fun m => if quality_key_dec (m_analysis_bfs m, m_analysis_name m) k
                        then true else false)
              (v_stable_municipality_mapping db)).
Proof.
  rewrite <- (length_map m_original_bfs (filter _ (v_stable_municipality_mapping db))).
  apply NoDup_same_length.
  - apply distinct_NoDup.
  - apply NoDup_map_filter, mapping_keys_NoDup.
  - intros g. rewrite distinct_In, !in_map_iff. split.
    + intros [j [<- Hj]]. apply filter_In in Hj. destruct Hj as [Hj Hk].
      exists (fst j). split; [reflexivity|]. apply filter_In.
      split; [now apply quality_join_In | exact Hk].
    + intros [m [<- Hm]]. apply filter_In in Hm. destruct Hm as [Hm Hk].
      destruct (quality_join_covers db m Hm) as [j [Hj <-]].
      exists j. split; [reflexivity|]. apply filter_In. split; [exact Hj | exact Hk].
Qed.

Lemma quality_groups_In db q :
  In q (quality_groups db) ->
  exists j, In j (quality_join db) /\
            q = quality_aggregate (quality_key j)
                  (filter (in_quality_group (quality_key j)) (quality_join db)).
Proof.
  unfold quality_groups. cbv zeta. intros H. apply in_map_iff in H.
  destruct H as [k [<- Hk]]. apply distinct_In, in_map_iff in Hk.
  destruct Hk as [j [<- Hj]]. now exists j.
Qed.

Lemma sql_max_bounds (l : list Z) lo hi :
  l <> [] -> (forall x, In x l -> lo <= x <= hi) ->
  exists d, sql_max l = Some d /\ lo <= d <= hi.
Proof.
  destruct l as [|x t]; [congruence|]. intros _ H. simpl. eexists. split; [reflexivity|].
  assert (G : forall t a, lo <= a <= hi -> (forall x, In x t -> lo <= x <= hi) ->
                          lo <= fold_left Z.max t a <= hi).
  { clear. induction t as [|h t IH]; intros a Ha Ht; simpl; [exact Ha|].
    apply IH; [|intros x Hx; apply Ht; now right].
    pose proof (Ht h (or_introl eq_refl)). lia. }
  apply G; [apply H; now left | intros y Hy; apply H; now right].
Qed.

Lemma quality_source_sum db :
  fold_right Z.add 0 (map q_source_count (v_municipality_data_quality db))
  = Z.of_nat (List.length (v_stable_municipality_mapping db)).
Proof.
  rewrite (sum_perm _ _ (Permutation_map q_source_count (quality_view_perm db))).
  unfold quality_groups. cbv zeta. rewrite map_map.
  cbn [q_source_count quality_aggregate].
  rewrite (map_ext _ (fun k => Z.of_nat (List.length
             (filter (fun m => if quality_key_dec (m_analysis_bfs m, m_analysis_name m) k
                               then true else false)
                     (v_stable_municipality_mapping db)))))
    by (intros k; now rewrite group_source_count).
  rewrite <- (map_map _ Z.of_nat), sum_of_nat. f_equal.
  apply (length_partition quality_key_dec
           (fun m => (m_analysis_bfs m, m_analysis_name m))).
  - apply distinct_NoDup.
  - intros m Hm. destruct (quality_join_covers db m Hm) as [j [Hj <-]].
    apply distinct_In. now apply (in_map quality_key).
Qed.

Lemma quality_group_member db j :
  In j (quality_join db) ->
  In j (filter (in_quality_group (quality_key j)) (quality_join db)).
Proof.
  intros Hj. apply filter_In. split; [exact Hj|]. unfold in_quality_group.
  now destruct (quality_key_dec (quality_key j) (quality_key j)).
Qed.

Lemma quality_source_count_pos db q :
  In q (v_municipality_data_quality db) -> 1 <= q_source_count q.
Proof.
  intros Hq. apply (Permutation_in _ (quality_view_perm db)) in Hq.
  apply quality_groups_In in Hq. destruct Hq as [j [Hj ->]].
  cbn [q_source_count quality_aggregate].
  pose proof (quality_group_member db j Hj) as Hin.
  assert (Hs : In (m_original_bfs (fst j))
                  (distinct string_dec
                     (map (fun j => m_original_bfs (fst j))
                          (filter (in_quality_group (quality_key j))
                                  (quality_join db))))).
  { apply distinct_In. now apply (in_map (fun j => m_original_bfs (fst j))). }
  destruct (distinct string_dec _) as [|s t]; [destruct Hs|]. cbn [List.length]. lia.
Qed.

(** In [v_municipality_data_quality] every row of the stable mapping is
    counted as a source of exactly one row: the source counts add up to
    the number of mapping rows, every row has at least one source, and
    its merge depth lies between 0 and 10. *)
Theorem quality_view_counts_each_source_once (db : database) :
  fold_right Z.add 0 (map q_source_count (v_municipality_data_quality db))
  = Z.of_nat (List.length (v_stable_municipality_mapping db)) /\
  forall q, In q (v_municipality_data_quality db) ->
    1 <= q_source_count q /\
    exists d, q_merge_depth q = Some d /\ 0 <= d <= 10.
Proof.
  split; [apply quality_source_sum|].
  intros q Hq. split; [now apply (quality_source_count_pos db)|].
  apply (Permutation_in _ (quality_view_perm db)) in Hq.
  apply quality_groups_In in Hq. destruct Hq as [j [Hj ->]].
  cbn [q_merge_depth quality_aggregate].
  pose proof (quality_group_member db j Hj) as Hin.
  apply sql_max_bounds.
  - intros E. apply (in_map (fun j => m_merge_depth (fst j))) in Hin.
    rewrite E in Hin. destruct Hin.
  - intros x Hx. apply in_map_iff in Hx. destruct Hx as [j' [<- Hj']].
    apply filter_In in Hj'. destruct Hj' as [Hj' _].
    apply (mapping_depth db). now apply quality_join_In.
Qed.

(** *** The statistics *)

Lemma distinct_length {B} (B_dec : forall a b : B, {a = b} + {a <> b}) (l : list B) :
  (List.length (distinct B_dec l) <= List.length l)%nat.
Proof.
  apply NoDup_incl_length; [apply distinct_NoDup|].
  intros x Hx. now apply distinct_In in Hx.
Qed.

Lemma non_null_length {B} (l : list (option B)) :
  (List.length (non_null l) <= List.length l)%nat.
Proof.
  unfold non_null. induction l as [|[b|] t IH]; cbn [flat_map List.length app]; lia.
Qed.

Lemma sql_sum_some {B} (g : B -> Z) (l : list B) :
  l <> [] -> sql_sum (map (fun r => Some (g r)) l) = Some (fold_right Z.add 0 (map g l)).
Proof.
  induction l as [|h t IH]; [congruence|]. intros _.
  destruct t as [|h' t'].
  - simpl. f_equal. lia.
  - change (sql_sum (map (fun r => Some (g r)) (h :: h' :: t')))
      with (sql_add (Some (g h)) (sql_sum (map (fun r => Some (g r)) (h' :: t')))).
    rewrite IH by discriminate. reflexivity.
Qed.

Lemma sum_over_threshold {B} (f : B -> Z) (l : list B) :
  (forall x, In x l -> 1 <= f x) ->
  Z.of_nat (List.length l)
  + fold_right Z.add 0 (map (fun r => if 1 <? f r then 1 else 0) l)
  <= fold_right Z.add 0 (map f l).
Proof.
  induction l as [|h t IH]; intros H; [simpl; lia|].
  specialize (IH (fun x Hx => H x (or_intror Hx))).
  pose proof (H h (or_introl eq_refl)) as Hh.
  cbn [List.length map fold_right]. rewrite Nat2Z.inj_succ.
  destruct (1 <? f h) eqn:E; [apply Z.ltb_lt in E | apply Z.ltb_ge in E]; lia.
Qed.

Lemma indicator_nonneg {B} (f : B -> Z) (l : list B) :
  0 <= fold_right Z.add 0 (map (fun r => if 1 <? f r then 1 else 0) l).
Proof.
  induction l as [|h t IH]; simpl; [lia|]. destruct (1 <? f h); lia.
Qed.

(** The statistics logged after the verification: the first figure is
    the number of rows of the data quality view, one for each analysis
    number and name.  It is at least the number of distinct analysis
    numbers and at most the number of mapping rows, and it is smaller
    than the number of mapping rows as soon as the count of aggregating
    rows is positive. *)
Theorem statistics_count_groups (db : database) :
  st_analysis_municipalities (municipality_statistics db)
  <= st_total_municipalities (municipality_statistics db)
  <= Z.of_nat (List.length (v_stable_municipality_mapping db)) /\
  forall n, st_aggregated_count (municipality_statistics db) = Some n -> 0 < n ->
    st_total_municipalities (municipality_statistics db)
    < Z.of_nat (List.length (v_stable_municipality_mapping db)).
Proof.
  unfold municipality_statistics. cbv zeta.
  cbn [st_analysis_municipalities st_total_municipalities st_aggregated_count].
  pose proof (quality_source_sum db) as Hsum.
  pose proof (quality_source_count_pos db) as Hrows.
  pose proof (sum_over_threshold q_source_count (v_municipality_data_quality db)
                Hrows) as Hle.
  pose proof (indicator_nonneg q_source_count (v_municipality_data_quality db)) as H0.
  rewrite Hsum in Hle.
  split; [split|].
  - apply inj_le.
    etransitivity; [apply distinct_length|].
    etransitivity; [apply non_null_length|]. now rewrite length_map.
  - lia.
  - intros n Hn Hpos.
    destruct (v_municipality_data_quality db) as [|q t] eqn:E; [discriminate|].
    rewrite <- E in *. rewrite sql_sum_some in Hn by (rewrite E; discriminate).
    injection Hn as Hn. lia.
Qed.

End QualityFacts.

(** ** The lifecycle table *)

Module LifecycleFacts.

Import Sql SqlFacts Schema AnalysisViews DataQuality TextOrder.

Lemma distinct_NoDup_id {B} (B_dec : forall a b : B, {a = b} + {a <> b}) (l : list B) :
  NoDup l -> distinct B_dec l = l.
Proof.
  induction 1 as [|x t Hx Ht IH]; simpl; [reflexivity|]. rewrite IH. f_equal.
  apply filter_id. intros y Hy. destruct (B_dec x y) as [->|_]; [contradiction|reflexivity].
Qed.

Lemma text_max_ge (a b : string) :
  String.leb a (text_max a b) = true /\ String.leb b (text_max a b) = true.
Proof.
  unfold text_max. destruct (String.leb a b) eqn:E.
  - split; [exact E | apply leb_refl].
  - split; [apply leb_refl|].
    destruct (String.leb_total a b) as [H|H]; congruence.
Qed.

Lemma fold_max_text_ge (l : list string) : forall x,
  String.leb x (fold_left text_max l x) = true.
Proof.
  induction l as [|h t IH]; intros x; simpl; [apply leb_refl|].
  apply (leb_trans _ (text_max x h)); [apply text_max_ge | apply IH].
Qed.

(** [MIN] of a column is at most its [MAX]. *)
Lemma min_le_max (l : list string) :
  l <> [] ->
  exists lo hi, sql_min_text l = Some lo /\ sql_max_text l = Some hi /\
                String.leb lo hi = true.
Proof.
  destruct l as [|x t]; [congruence|]. intros _. simpl. do 2 eexists.
  split; [reflexivity|]. split; [reflexivity|].
  apply (leb_trans _ x); [apply (proj1 (fold_min_le t x)) | apply fold_max_text_ge].
Qed.

(** The seeds of the stable mapping are the rows of the lifecycle table,
    one for each pair of number and name with a municipality-level
    result in some voting; such a row counts at least one voting, and
    its first appearance is not after its last. *)
Theorem lifecycle_rows_are_seeds (db : database) :
  voting_municipalities db
  = map (fun lc => {| vm_bfs := lc_geo_id lc; vm_name := lc_geo_name lc;
                      vm_first_appearance := lc_first_appearance lc |})
        (municipality_lifecycle db) /\
  forall lc, In lc (municipality_lifecycle db) ->
    1 <= lc_voting_count lc /\
    exists first last,
      lc_first_appearance lc = Some first /\ lc_last_appearance lc = Some last /\
      String.leb first last = true.
Proof.
  split.
  - unfold voting_municipalities, municipality_lifecycle. cbv zeta.
    rewrite map_map. cbn [lc_geo_id lc_geo_name lc_first_appearance].
    apply distinct_NoDup_id.
    set (ks := distinct name_key_dec (map name_key (municipality_votings db))).
    assert (Hn : NoDup ks) by apply distinct_NoDup.
    clearbody ks. induction Hn as [|k t Hk Ht IH]; simpl; constructor; [|exact IH].
    intros Hin. apply in_map_iff in Hin. destruct Hin as [k' [E Hk']].
    apply Hk. injection E as E1 E2 _.
    destruct k as [a b], k' as [a' b']. simpl in *. now subst.
  - intros lc Hlc. unfold municipality_lifecycle in Hlc. cbv zeta in Hlc.
    apply in_map_iff in Hlc. destruct Hlc as [k [<- Hk]].
    apply distinct_In, in_map_iff in Hk. destruct Hk as [j [<- Hj]].
    cbn [lc_voting_count lc_first_appearance lc_last_appearance].
    assert (Hin : In j (filter (fun j' => if name_key_dec (name_key j') (name_key j)
                                          then true else false)
                               (municipality_votings db))).
    { apply filter_In. split; [exact Hj|].
      now destruct (name_key_dec (name_key j) (name_key j)). }
    split.
    + assert (Hs : In (v_voting_id (snd j))
                      (distinct Z.eq_dec
                         (map (fun j => v_voting_id (snd j))
                              (filter (fun j' => if name_key_dec (name_key j') (name_key j)
                                                 then true else false)
                                      (municipality_votings db))))).
      { apply distinct_In. now apply (in_map (fun j => v_voting_id (snd j))). }
      destruct (distinct Z.eq_dec _) as [|s t]; [destruct Hs|]. cbn [List.length]. lia.
    + apply min_le_max. intros E.
      apply (in_map (fun j => v_voting_date (snd j))) in Hin. rewrite E in Hin.
      destruct Hin.
Qed.

End LifecycleFacts.

(** ** The old views *)

Module OldResultFacts.

Import Sql SqlFacts Schema AnalysisViews MergerViewsOld MergerViewsOldResults.
Import DataQuality Examples MoreExamples Statements.
Import MappingFacts OldViewFacts AggregationFacts OldStatements QualityFacts LifecycleFacts.

(** *** The old mapping *)


Lemma successor_chain_seed db g :
  in_voting_data db g -> In g (map sc_original_bfs (successor_chain db)).
Proof.
  intros [vr [Hvr [Hm <-]]]. apply in_map_iff.
  exists {| sc_original_bfs := vr_geo_id vr; sc_original_name := vr_geo_name vr;
            sc_current_bfs := Some (vr_geo_id vr); sc_current_name := vr_geo_name vr;
            sc_merge_depth := 0 |}.
  split; [reflexivity|]. apply successor_chain_spec. apply derived_initial.
  unfold successor_chain_initial. apply distinct_In.
  apply (in_map (fun vr => {| sc_original_bfs := vr_geo_id vr;
                             sc_original_name := vr_geo_name vr;
                             sc_current_bfs := Some (vr_geo_id vr);
                             sc_current_name := vr_geo_name vr;
                             sc_merge_depth := 0 |})).
  apply filter_In. split; [exact Hvr | exact Hm].
Qed.

Lemma old_mapping_rows_of db g :
  filter (fun m => String.eqb (cm_original_bfs m) g) (v_municipality_mapping db)
  = map (fun g =>
           {| cm_original_bfs := sc_original_bfs (fst g);
              cm_original_name := sc_original_name (fst g);
              cm_current_bfs := sc_current_bfs (fst g);
              cm_current_name := sc_current_name (fst g);
              cm_total_mergers := snd g |})
        (filter (fun x => String.eqb (sc_original_bfs (fst x)) g)
                (group_by_max sc_original_bfs sc_merge_depth (successor_chain db))).
Proof. unfold v_municipality_mapping. now rewrite filter_map_swap. Qed.

Lemma old_mapping_row db g :
  in_voting_data db g ->
  exists r, In r (successor_chain db) /\ sc_original_bfs r = g /\
    (forall r', In r' (successor_chain db) -> sc_original_bfs r' = g ->
                sc_merge_depth r' <= sc_merge_depth r) /\
    filter (fun m => String.eqb (cm_original_bfs m) g) (v_municipality_mapping db)
    = [ {| cm_original_bfs := sc_original_bfs r;
           cm_original_name := sc_original_name r;
           cm_current_bfs := sc_current_bfs r;
           cm_current_name := sc_current_name r;
           cm_total_mergers := sc_merge_depth r |} ].
Proof.
  intros Hg. apply successor_chain_seed in Hg.
  destruct (group_by_max_seed sc_original_bfs sc_merge_depth (successor_chain db) g Hg)
    as [r [H1 [H2 [H3 H4]]]].
  exists r. repeat split; try assumption.
  now rewrite old_mapping_rows_of, H4.
Qed.

Lemma old_mapping_In db m :
  In m (v_municipality_mapping db) ->
  exists r, In r (successor_chain db) /\
    cm_original_bfs m = sc_original_bfs r /\ cm_original_name m = sc_original_name r /\
    cm_current_bfs m = sc_current_bfs r /\ cm_current_name m = sc_current_name r /\
    cm_total_mergers m = sc_merge_depth r.
Proof.
  unfold v_municipality_mapping. intros H. apply in_map_iff in H.
  destruct H as [[r d] [<- H]].
  apply group_by_max_In in H. simpl in H. destruct H as [H1 [-> H3]].
  exists r. repeat split; assumption.
Qed.

Lemma successor_chain_origin db r :
  In r (successor_chain db) -> in_voting_data db (sc_original_bfs r).
Proof.
  intros H. apply successor_chain_spec in H.
  induction H as [r H|p r Hp IH Hr].
  - unfold successor_chain_initial in H. apply distinct_In, in_map_iff in H.
    destruct H as [vr [<- Hvr]]. apply filter_In in Hvr. exists vr. simpl. tauto.
  - unfold successor_chain_step in Hr. apply in_map_iff in Hr.
    destruct Hr as [mc [<- _]]. exact IH.
Qed.

(** The old mapping has exactly one row for every BFS number with a
    municipality-level result row, whether or not the row names an
    existing voting, and no row for any other number; the row counts at
    most 10 mergers. *)
Theorem old_mapping_one_row_per_municipality (db : database) (g : string) :
  (in_voting_data db g ->
   exists m, filter (fun m => String.eqb (cm_original_bfs m) g)
                    (v_municipality_mapping db) = [m] /\
             0 <= cm_total_mergers m <= 10) /\
  (~ in_voting_data db g ->
   filter (fun m => String.eqb (cm_original_bfs m) g) (v_municipality_mapping db) = []).
Proof.
  split.
  - intros Hg. destruct (old_mapping_row db g Hg) as [r [Hr [_ [_ E]]]].
    eexists. split; [exact E|]. simpl. now apply (successor_chain_depth db).
  - intros Hg. apply filter_none. intros m Hm.
    apply String.eqb_neq. intros <-. apply Hg.
    destruct (old_mapping_In db m Hm) as [r [Hr [-> _]]].
    now apply successor_chain_origin.
Qed.

(** *** The old and the stable mapping *)

Lemma voting_municipality_result db vm :
  In vm (voting_municipalities db) ->
  exists vr, In vr (voting_results db) /\ is_municipality vr = true /\
             vr_geo_id vr = vm_bfs vm /\ vr_geo_name vr = vm_name vm.
Proof.
  unfold voting_municipalities. intros H.
  apply distinct_In, in_map_iff in H. destruct H as [k [<- H]].
  apply distinct_In, in_map_iff in H. destruct H as [[vr v] [<- H]].
  unfold municipality_votings in H. apply in_flat_map in H.
  destruct H as [vr' [Hvr H]]. apply in_map_iff in H.
  destruct H as [v' [E _]]. injection E as <- <-.
  apply filter_In in Hvr. exists vr'. simpl. tauto.
Qed.

Lemma merger_chain_in_successor_chain db r :
  In r (merger_chain db) ->
  In {| sc_original_bfs := original_bfs r; sc_original_name := original_name r;
        sc_current_bfs := analysis_bfs r; sc_current_name := analysis_name r;
        sc_merge_depth := depth r |}
     (successor_chain db).
Proof.
  intros H. apply merger_chain_spec in H. apply successor_chain_spec.
  induction H as [r H|p r Hp IH Hr].
  - apply derived_initial. unfold merger_chain_initial in H.
    apply in_map_iff in H. destruct H as [vm [<- Hvm]]. simpl.
    destruct (voting_municipality_result db vm Hvm) as [vr [Hvr [Hm [E1 E2]]]].
    unfold successor_chain_initial. apply distinct_In, in_map_iff.
    exists vr. rewrite E1, E2. split; [reflexivity|].
    apply filter_In. split; [exact Hvr | exact Hm].
  - apply merger_chain_step_In in Hr.
    destruct Hr as [mch [Hm [H1 [H2 [H3 [_ [_ ->]]]]]]]. simpl.
    eapply derived_step; [exact IH|].
    unfold successor_chain_step. apply in_map_iff. exists mch. simpl.
    split; [reflexivity|]. apply filter_In. split; [exact Hm|].
    rewrite H1. simpl. apply andb_true_iff. split; [now apply Z.ltb_lt | exact H3].
Qed.

(** Every row of the stable mapping has a row of the old mapping for the
    same original number, and the old mapping follows at least as many
    changes: the stable merge depth is at most the old count of
    mergers. *)
Theorem stable_depth_at_most_old_depth (db : database) (m : mapping_row) :
  In m (v_stable_municipality_mapping db) ->
  exists m', In m' (v_municipality_mapping db) /\
             cm_original_bfs m' = m_original_bfs m /\
             m_merge_depth m <= cm_total_mergers m'.
Proof.
  intros Hm. apply stable_mapping_In in Hm. destruct Hm as [r [Hr [-> _]]].
  pose proof (merger_chain_in_successor_chain db r Hr) as Hs.
  destruct (old_mapping_row db (original_bfs r)) as [r' [Hr' [Ho [Hmax E]]]].
  { now apply (successor_chain_origin db _ Hs). }
  eexists. split; [|split].
  - assert (Hin : In {| cm_original_bfs := sc_original_bfs r';
                        cm_original_name := sc_original_name r';
                        cm_current_bfs := sc_current_bfs r';
                        cm_current_name := sc_current_name r';
                        cm_total_mergers := sc_merge_depth r' |}
                     [ {| cm_original_bfs := sc_original_bfs r';
                          cm_original_name := sc_original_name r';
                          cm_current_bfs := sc_current_bfs r';
                          cm_current_name := sc_current_name r';
                          cm_total_mergers := sc_merge_depth r' |} ]) by now left.
    rewrite <- E in Hin. apply filter_In in Hin. exact (proj1 Hin).
  - exact Ho.
  - simpl. exact (Hmax _ Hs eq_refl).
Qed.

Lemma old_mapping_one_row_per_municipality_witness :
  exists m, filter (fun m => String.eqb (cm_original_bfs m) "200")
                   (v_municipality_mapping db_dangling) = [m] /\
            0 <= cm_total_mergers m <= 10.
Proof.
  apply (proj1 (old_mapping_one_row_per_municipality db_dangling "200")).
  eexists. split; [right; left; reflexivity|]. split; reflexivity.
Defined.

Lemma stable_depth_at_most_old_depth_witness :
  exists m', In m' (v_municipality_mapping db_e2e) /\
             cm_original_bfs m' = "1001" /\ 2 <= cm_total_mergers m'.
Proof.
  apply (stable_depth_at_most_old_depth db_e2e
           {| m_original_bfs := "1001"; m_original_name := Some "OldTown";
              m_analysis_bfs := Some "3003"; m_analysis_name := Some "Capital";
              m_first_appearance := Some "20050605"; m_merge_depth := 2 |}).
  left. reflexivity.
Defined.

(** *** Totals of a grouped view *)

Section GroupedTotals.
Context {X K A : Type}.
Variable K_dec : forall a b : K, {a = b} + {a <> b}.
Variable key : X -> K.
Variable sel : K -> bool.
Variable agg : K -> list X -> A.
Variable selA : A -> bool.
Variable col : X -> option Z.
Variable colA : A -> option Z.
Hypothesis selA_agg : forall k rows, selA (agg k rows) = sel k.
Hypothesis colA_agg : forall k rows, colA (agg k rows) = sql_sum (map col rows).

(** The column summed over the selected rows of the grouped view is the
    column summed over the rows of the join whose group is selected. *)
Lemma grouped_total (J : list X) :
  sql_sum (map colA
             (filter selA
                (map (fun k => agg k (filter (fun x => if K_dec (key x) k then true else false) J))
                     (distinct K_dec (map key J)))))
  = sql_sum (map col (filter (fun x => sel (key x)) J)).
Proof.
  rewrite filter_map_swap, map_map.
  rewrite (filter_ext _ sel) by (intros k; apply selA_agg).
  rewrite (map_ext _ (fun k => sql_sum (map col (filter (fun x => if K_dec (key x) k
                                                               then true else false) J))))
    by (intros k; apply colA_agg).
  rewrite <- (distinct_filter K_dec sel), filter_map_swap.
  rewrite <- (sql_sum_groups K_dec key col (filter (fun x => sel (key x)) J)).
  f_equal. apply map_ext_in. intros k Hk. f_equal. f_equal.
  apply distinct_In, in_map_iff in Hk. destruct Hk as [x [<- Hx]].
  apply filter_In in Hx. destruct Hx as [_ Hx].
  symmetry. apply filter_implied.
  intros y _ Hy. destruct (K_dec (key y) (key x)) as [E|]; [|discriminate].
  now rewrite E.
Qed.

End GroupedTotals.

(** *** The totals of [v_voting_results_current] *)

Lemma current_count_aggregate f k rows :
  current_count f (current_aggregate k rows)
  = sql_sum (map (fun j => original_count f (cj_vr j)) rows).
Proof. destruct f; reflexivity. Qed.

Lemma current_total_join f db pid :
  current_total f db pid
  = sql_sum (map (fun j => original_count f (cj_vr j))
               (filter (fun j => p_proposal_id (cj_p j) =? pid) (current_join db))).
Proof.
  unfold current_total, v_voting_results_current. cbv zeta.
  apply (grouped_total current_key_dec current_key_of
           (fun k => ck_proposal_id k =? pid) current_aggregate
           (fun c => c_proposal_id c =? pid)
           (fun j => original_count f (cj_vr j)) (current_count f)).
  - reflexivity.
  - intros k rows. apply current_count_aggregate.
Qed.

Lemma current_proposal_rows_proposal db v p j :
  In j (current_proposal_rows db v p) -> cj_p j = p.
Proof.
  unfold current_proposal_rows. intros H. apply in_flat_map in H.
  destruct H as [vr [_ H]]. apply in_map_iff in H. now destruct H as [m [<- _]].
Qed.

Lemma current_join_of_proposal db p0 v0 :
  NoDup (map v_voting_id (votings db)) ->
  NoDup (map p_proposal_id (proposals db)) ->
  In p0 (proposals db) -> In v0 (votings db) -> v_voting_id v0 = p_voting_id p0 ->
  filter (fun j => p_proposal_id (cj_p j) =? p_proposal_id p0) (current_join db)
  = filter (fun j => is_municipality (cj_vr j)) (current_proposal_rows db v0 p0).
Proof.
  intros Nv Np Hp0 Hv0 Hvid. unfold current_join.
  rewrite filter_filter_comm. f_equal.
  assert (A : forall v,
             filter (fun j => p_proposal_id (cj_p j) =? p_proposal_id p0)
               (flat_map (current_proposal_rows db v)
                  (filter (fun p => v_voting_id v =? p_voting_id p) (proposals db)))
             = if v_voting_id v =? p_voting_id p0
               then current_proposal_rows db v p0 else []).
  { intros v. rewrite filter_flat_map, flat_map_filter.
    rewrite (flat_map_unique p_proposal_id _ p0 (proposals db) Np Hp0).
    - destruct (v_voting_id v =? p_voting_id p0); [|reflexivity].
      apply filter_id. intros j Hj. apply current_proposal_rows_proposal in Hj.
      rewrite Hj. apply Z.eqb_refl.
    - intros p Hp Hne.
      destruct (v_voting_id v =? p_voting_id p); [|reflexivity].
      apply filter_none. intros j Hj. apply current_proposal_rows_proposal in Hj.
      rewrite Hj. now apply Z.eqb_neq. }
  rewrite filter_flat_map, (flat_map_ext _ _ A).
  rewrite (flat_map_unique v_voting_id _ v0 (votings db) Nv Hv0).
  - rewrite Hvid. now rewrite Z.eqb_refl.
  - intros v Hv Hne.
    replace (v_voting_id v =? p_voting_id p0) with false; [reflexivity|].
    symmetry. apply Z.eqb_neq. congruence.
Qed.

Lemma current_rows_results db v p :
  map cj_vr (filter (fun j => is_municipality (cj_vr j)) (current_proposal_rows db v p))
  = filter is_municipality
      (filter (fun vr => p_proposal_id p =? vr_proposal_id vr) (voting_results db)).
Proof.
  unfold current_proposal_rows.
  assert (Hin : incl (filter (fun vr => p_proposal_id p =? vr_proposal_id vr)
                             (voting_results db)) (voting_results db)).
  { intros x Hx. now apply filter_In in Hx. }
  induction (filter (fun vr => p_proposal_id p =? vr_proposal_id vr) (voting_results db))
    as [|vr t IH]; [reflexivity|].
  cbn [flat_map]. rewrite filter_app, map_app, IH by (intros x Hx; apply Hin; now right).
  clear IH. rewrite filter_map_swap, map_map. cbn [cj_vr filter].
  destruct (is_municipality vr) eqn:M.
  - destruct (old_mapping_row db (vr_geo_id vr)) as [r [_ [_ [_ E]]]].
    { exists vr. split; [apply Hin; now left | tauto]. }
    rewrite filter_id by reflexivity.
    rewrite (filter_ext _ (fun m => String.eqb (cm_original_bfs m) (vr_geo_id vr)))
      by (intros m; apply String.eqb_sym).
    rewrite E. reflexivity.
  - rewrite filter_none by reflexivity. reflexivity.
Qed.

(** For a proposal of an existing voting, with the primary keys of
    [votings] and [proposals] in force, every count column summed over
    the rows of the old view [v_voting_results_current] equals the
    column summed over the municipality-level result rows of the
    proposal.  The result rows need not name an existing voting. *)
Theorem old_view_conserves_totals (db : database) (p : proposal) (v : voting)
    (f : count_field) :
  NoDup (map v_voting_id (votings db)) ->
  NoDup (map p_proposal_id (proposals db)) ->
  In p (proposals db) -> In v (votings db) -> v_voting_id v = p_voting_id p ->
  current_total f db (p_proposal_id p) = original_total f db (p_proposal_id p).
Proof.
  intros Nv Np Hp Hv Hvid.
  rewrite current_total_join, (current_join_of_proposal db p v Nv Np Hp Hv Hvid).
  rewrite <- (map_map cj_vr (original_count f)), current_rows_results.
  unfold original_total. f_equal. f_equal.
  induction (voting_results db) as [|vr t IH]; [reflexivity|]. simpl.
  rewrite (Z.eqb_sym (p_proposal_id p)).
  destruct (vr_proposal_id vr =? p_proposal_id p), (is_municipality vr) eqn:M;
    simpl; rewrite ?M, ?IH; reflexivity.
Qed.

Lemma old_view_conserves_totals_witness :
  current_total Ja db_dangling 1 = original_total Ja db_dangling 1.
Proof.
  apply (old_view_conserves_totals db_dangling (simple_proposal 1 1)
           {| v_voting_id := 1; v_voting_date := "20050605" |} Ja).
  - repeat constructor; simpl; tauto.
  - repeat constructor; simpl; tauto.
  - left; reflexivity.
  - left; reflexivity.
  - reflexivity.
Defined.

(** *** [v_merger_statistics] *)

Lemma non_null_In {B} (x : B) (l : list (option B)) :
  In x (non_null l) <-> In (Some x) l.
Proof.
  unfold non_null. rewrite in_flat_map. split.
  - intros [[y|] [Hy H]]; [|destruct H]. destruct H as [<-|[]]. exact Hy.
  - intros H. exists (Some x). split; [exact H | now left].
Qed.

Lemma statistics_join_In db j :
  In j (statistics_join db) ->
  In (sj_vr j) (voting_results db) /\
  forall m, sj_m j = Some m ->
    In m (filter (fun m => String.eqb (vr_geo_id (sj_vr j)) (cm_original_bfs m))
                 (v_municipality_mapping db)).
Proof.
  unfold statistics_join. intros H.
  apply in_flat_map in H. destruct H as [v [_ H]].
  apply in_flat_map in H. destruct H as [p [_ H]].
  apply in_flat_map in H. destruct H as [vr [Hvr H]].
  apply filter_In in Hvr. destruct Hvr as [Hvr _].
  destruct (filter _ (v_municipality_mapping db)) as [|m0 ms] eqn:E.
  - destruct H as [<-|[]]. simpl. split; [exact Hvr | discriminate].
  - apply in_map_iff in H. destruct H as [m [<- Hm]]. simpl.
    split; [exact Hvr|]. intros m' Em. injection Em as <-. now rewrite E.
Qed.

Lemma current_id_of_original db j c :
  In j (statistics_join db) -> current_id j = Some c ->
  exists g, original_id j = Some g /\ current_of db g = Some c.
Proof.
  intros Hj Hc. unfold current_id, original_id in *.
  destruct (is_municipality (sj_vr j)) eqn:M; [|discriminate].
  destruct (sj_m j) as [m|] eqn:Em; [|discriminate].
  destruct (statistics_join_In db j Hj) as [Hvr Hm]. specialize (Hm m Em).
  exists (vr_geo_id (sj_vr j)). split; [reflexivity|].
  destruct (old_mapping_row db (vr_geo_id (sj_vr j))) as [r [_ [_ [_ E]]]].
  { exists (sj_vr j). tauto. }
  unfold current_of.
  rewrite (filter_ext _ (fun m => String.eqb (cm_original_bfs m) (vr_geo_id (sj_vr j))))
    in Hm |- * by (intros x; apply String.eqb_sym).
  rewrite E in Hm |- *. destruct Hm as [<-|[]]. exact Hc.
Qed.

(** In every row of [v_merger_statistics] the number of current
    municipalities is at most the number of original municipalities, so
    the count of merged municipalities is never negative; it is the
    difference of the two. *)
Theorem merged_count_not_negative (db : database) (r : merger_statistics_row) :
  In r (v_merger_statistics db) ->
  0 <= ms_current_municipality_count r <= ms_original_municipality_count r /\
  ms_municipalities_merged_count r
  = ms_original_municipality_count r - ms_current_municipality_count r /\
  0 <= ms_municipalities_merged_count r.
Proof.
  unfold v_merger_statistics. cbv zeta. intros H. apply in_map_iff in H.
  destruct H as [k [<- _]].
  set (rows := filter _ (statistics_join db)).
  assert (Hrows : incl rows (statistics_join db)).
  { intros j Hj. now apply filter_In in Hj. }
  clearbody rows.
  cbn [ms_current_municipality_count ms_original_municipality_count
       ms_municipalities_merged_count statistics_aggregate].
  assert (Hle : (List.length (distinct string_dec (non_null (map current_id rows)))
                 <= List.length (distinct string_dec (non_null (map original_id rows))))%nat).
  { rewrite <- (length_map (current_of db)
                  (distinct string_dec (non_null (map original_id rows)))).
    etransitivity; [|apply non_null_length].
    apply NoDup_incl_length; [apply distinct_NoDup|].
    intros c Hc. apply distinct_In, non_null_In, in_map_iff in Hc.
    destruct Hc as [j [Hc Hj]].
    destruct (current_id_of_original db j c (Hrows j Hj) Hc) as [g [Hg Hcur]].
    apply non_null_In, in_map_iff. exists g. split; [exact Hcur|].
    apply distinct_In, non_null_In, in_map_iff. exists j. now split. }
  lia.
Qed.

Lemma merged_count_not_negative_witness :
  exists r, In r (v_merger_statistics db_ratio) /\
            0 <= ms_municipalities_merged_count r.
Proof.
  eexists. split; [left; reflexivity|].
  refine (proj2 (proj2 (merged_count_not_negative db_ratio _ _))).
  left. reflexivity.
Defined.

(** *** The mapping statistics of [verify_views] *)

Lemma old_mapping_keys db :
  map cm_original_bfs (v_municipality_mapping db)
  = distinct string_dec (map sc_original_bfs (successor_chain db)).
Proof.
  unfold v_municipality_mapping. rewrite map_map. simpl.
  apply (group_by_max_keys sc_original_bfs sc_merge_depth).
Qed.

(** In the mapping statistics of [verify_views] the total of mappings is
    the number of historical municipalities, the number of current
    municipalities is at most that, and the maximum cascade depth, when
    there is a row, is between 0 and 10. *)
Theorem mapping_statistics_agree (db : database) :
  mst_total_municipalities (verify_mapping db) = mst_unique_historical (verify_mapping db) /\
  mst_unique_current (verify_mapping db) <= mst_total_municipalities (verify_mapping db) /\
  forall d, mst_max_merger_depth (verify_mapping db) = Some d -> 0 <= d <= 10.
Proof.
  unfold verify_mapping. cbv zeta.
  cbn [mst_total_municipalities mst_unique_historical mst_unique_current
       mst_max_merger_depth].
  split; [|split].
  - rewrite distinct_NoDup_id, length_map; [reflexivity|].
    rewrite old_mapping_keys. apply distinct_NoDup.
  - apply inj_le.
    etransitivity; [apply distinct_length|].
    etransitivity; [apply non_null_length|]. now rewrite length_map.
  - intros d Hd.
    destruct (v_municipality_mapping db) as [|m t] eqn:E; [discriminate|].
    destruct (sql_max_bounds (map cm_total_mergers (m :: t)) 0 10) as [d' [Hd' Hb]].
    + discriminate.
    + intros x Hx. apply in_map_iff in Hx. destruct Hx as [m' [<- Hm']].
      apply (total_mergers_bound db). now rewrite E.
    + rewrite Hd in Hd'. now injection Hd' as <-.
Qed.

End OldResultFacts.

(** ** The evolution view *)

Module EvolutionFacts.

Import Sql SqlFacts Schema AnalysisViews MergerViewsOld MergerViewsOldResults.
Import DataQuality ImportMunicipalChanges Examples MappingFacts.

Lemma insert_evolution_perm r l : Permutation (insert_evolution r l) (r :: l).
Proof.
  induction l as [|h t IH]; simpl; [reflexivity|].
  destruct (evolution_before h r); [|reflexivity].
  rewrite IH. apply perm_swap.
Qed.

Lemma evolution_order_perm : forall l acc,
  Permutation (fold_left (fun acc r => insert_evolution r acc) l acc) (l ++ acc).
Proof.
  induction l as [|h t IH]; intros acc; simpl; [reflexivity|].
  rewrite IH, insert_evolution_perm. symmetry. apply Permutation_middle.
Qed.

Lemma evolution_In db e :
  In e (v_municipality_evolution db) <->
  exists mc, In mc (municipal_changes db) /\
             text_ne (mc_old_bfs_number mc) (mc_new_bfs_number mc) = true /\
             e = evolution_of db mc.
Proof.
  unfold v_municipality_evolution. rewrite in_map_iff.
  split; intros [mc H]; exists mc.
  - destruct H as [<- H].
    apply (Permutation_in _ (evolution_order_perm _ [])) in H.
    rewrite app_nil_r in H. apply filter_In in H. tauto.
  - destruct H as [Hm [Hne ->]]. split; [reflexivity|].
    apply (Permutation_in _ (Permutation_sym (evolution_order_perm _ []))).
    rewrite app_nil_r. apply filter_In. tauto.
Qed.

Lemma text_eq_refl s : text_eq (Some s) (Some s) = true.
Proof. simpl. apply String.eqb_refl. Qed.

(** Every row of [v_municipality_evolution] stems from a change record
    whose old and new BFS numbers are present and different.  A dated
    row counts itself among the municipalities of its merger; a row
    without a date counts none, and is never marked as merged again
    later. *)
Theorem evolution_row_counts_itself (db : database) (e : evolution_row) :
  In e (v_municipality_evolution db) ->
  (exists o n, ev_old_bfs_number e = Some o /\ ev_new_bfs_number e = Some n /\ o <> n) /\
  (ev_mutation_date e <> None -> 1 <= ev_municipalities_in_merger e) /\
  (ev_mutation_date e = None ->
   ev_municipalities_in_merger e = 0 /\ ev_merged_again_later e = false).
Proof.
  intros H. apply evolution_In in H. destruct H as [mc [Hm [Hne ->]]].
  cbn [evolution_of ev_old_bfs_number ev_new_bfs_number ev_mutation_date
       ev_municipalities_in_merger ev_merged_again_later].
  pose proof Hne as Hne'. apply text_ne_true in Hne'.
  destruct Hne' as [o [n [Eo [En Hon]]]].
  split; [exists o, n; auto|]. split.
  - intros Hd. destruct (mc_mutation_date mc) as [d|] eqn:Ed; [|congruence].
    assert (Hin : In mc (filter (fun mc2 =>
                                   text_eq (mc_new_bfs_number mc2) (mc_new_bfs_number mc)
                                   && text_eq (mc_mutation_date mc2) (Some d)
                                   && text_ne (mc_old_bfs_number mc2)
                                              (mc_new_bfs_number mc2))
                                (municipal_changes db))).
    { apply filter_In. split; [exact Hm|].
      rewrite Hne, Ed, En, !text_eq_refl. reflexivity. }
    destruct (filter _ (municipal_changes db)) as [|x t]; [destruct Hin|].
    cbn [List.length]. lia.
  - intros Hd. rewrite Hd. split.
    + rewrite filter_none; [reflexivity|]. intros mc2 _.
      destruct (mc_mutation_date mc2); simpl; now rewrite andb_false_r.
    + apply not_true_is_false. intros Hex. apply existsb_exists in Hex.
      destruct Hex as [mc3 [_ Hex]].
      destruct (mc_mutation_date mc3); simpl in Hex;
        rewrite andb_false_r in Hex; discriminate.
Qed.

Lemma evolution_row_counts_itself_witness :
  exists e, In e (v_municipality_evolution db_e2e) /\
            1 <= ev_municipalities_in_merger e.
Proof.
  eexists. split; [left; reflexivity|].
  refine (proj1 (proj2 (evolution_row_counts_itself db_e2e _ _)) _).
  - left. reflexivity.
  - discriminate.
Defined.

(** *** Renames of an imported table *)






End EvolutionFacts.

(** ** The import of the municipal changes *)

Module ImportExtras.

Import Sql SqlFacts Schema ImportMunicipalChanges ImportAllChanges Examples.
Import MergerViewsOldResults EvolutionFacts.

(** *** The header row *)

(** The header row is found without regard to case and removed by its
    exact spelling: when the first row carries the header text in
    another spelling, the warning is given and the row stays in the
    frame, where it is the first row. *)
Theorem header_row_kept_when_spelled_differently (first : sheet_row)
    (rest : list sheet_row) (s : string) :
  mutation_number first = Str s ->
  lower s = "mutationsnummer" ->
  s <> "Mutationsnummer" ->
  In HeaderRowInData (snd (read_excel_with_validation (first :: rest))) /\
  exists rest', fst (read_excel_with_validation (first :: rest)) = first :: rest'.
Proof.
  intros Hs Hl Hne. unfold read_excel_with_validation. cbv zeta.
  rewrite Hs. cbn [str]. rewrite Hl.
  change (String.eqb "mutationsnummer" "mutationsnummer") with true.
  cbn [fst snd].
  split; [left; reflexivity|].
  cbn [filter]. rewrite Hs.
  assert (E : cell_ne (Str s) (Str "Mutationsnummer") = true).
  { unfold cell_ne, cell_eq.
    destruct (cell_dec (Str s) (Str "Mutationsnummer")) as [E|]; [|reflexivity].
    injection E as E. contradiction. }
  rewrite E. eexists. reflexivity.
Qed.

Lemma header_row_kept_when_spelled_differently_witness :
  let first := {| mutation_number := Str "MUTATIONSNUMMER"; old_canton := NaN;
                  old_district_number := NaN; old_bfs_number := NaN; old_name := NaN;
                  new_canton := NaN; new_district_number := NaN;
                  new_bfs_number := NaN; new_name := NaN; mutation_date := NaN |} in
  In HeaderRowInData (snd (read_excel_with_validation [first])) /\
  exists rest', fst (read_excel_with_validation [first]) = first :: rest'.
Proof.
  intros first.
  apply (header_row_kept_when_spelled_differently first [] "MUTATIONSNUMMER").
  - reflexivity.
  - reflexivity.
  - discriminate.
Defined.

(** *** The merger and split flags *)





(** *** The two importers *)

Lemma is_datetime_sheet_column df :
  is_datetime_column (analyze_changes df) = is_datetime_sheet df.
Proof.
  unfold is_datetime_column, is_datetime_sheet, analyze_changes.
  generalize df at 1 2 4 5. intros d.
  f_equal; induction df as [|r t IH]; simpl; try reflexivity; now rewrite IH.
Qed.

Lemma mutation_type_other m s r a :
  get_mutation_type m s r a = "other" <-> m = false /\ s = false /\ r = false /\ a = false.
Proof.
  split.
  - destruct m, s, r, a; vm_compute; intros H; try discriminate H; auto.
  - intros [-> [-> [-> ->]]]. reflexivity.
Qed.

(** The importer of [00_import_all_data.py] writes the table that
    [scripts/import_municipal_changes.py] writes, row by row, except for
    the mutation type: there it is the list of the flags that are set,
    and the word other exactly when none is set. *)
Theorem importers_agree_up_to_mutation_type (df : list sheet_row) :
  map without_type (fst (import_municipal_changes df))
  = map without_type (imported_table df) /\
  snd (import_municipal_changes df) = List.length (imported_table df) /\
  forall mc, In mc (fst (import_municipal_changes df)) ->
    (mc_mutation_type mc = Some "other" <->
     mc_is_merger mc = Some false /\ mc_is_split mc = Some false /\
     mc_is_rename mc = Some false /\ mc_is_reassignment mc = Some false).
Proof.
  unfold imported_table, import_municipal_changes, import_to_database,
    read_excel_with_validation.
  cbv zeta. cbn [fst snd].
  set (validated := if match df with
                       | [] => false
                       | first :: _ =>
                           String.eqb (lower (str (mutation_number first)))
                                      "mutationsnummer"
                       end
                    then filter (fun r => cell_ne (mutation_number r)
                                                  (Str "Mutationsnummer")) df
                    else df).
  rewrite is_datetime_sheet_column.
  split; [|split].
  - unfold analyze_changes. rewrite !map_map. apply map_ext. intros row. reflexivity.
  - unfold analyze_changes. now rewrite !length_map.
  - intros mc Hmc. apply in_map_iff in Hmc. destruct Hmc as [row [<- _]].
    cbn [mc_mutation_type mc_is_merger mc_is_split mc_is_rename mc_is_reassignment].
    split.
    + intros E. injection E as E. apply mutation_type_other in E.
      destruct E as [-> [-> [-> ->]]]. auto.
    + intros [E1 [E2 [E3 E4]]].
      injection E1 as ->. injection E2 as ->. injection E3 as ->. injection E4 as ->.
      reflexivity.
Qed.

End ImportExtras.

(** ** The text of a date *)

Module CalendarFacts.

Import Sql Schema ImportMunicipalChanges Calendar TextOrder.

Lemma numbers_In lo hi z :
  lo <= z <= hi -> In z (numbers lo hi).
Proof.
  intros H. unfold numbers. apply in_map_iff.
  exists (Z.to_nat (z - lo)). split; [lia|]. apply in_seq. lia.
Qed.

Lemma ascending_length width lo hi z :
  ascending_texts width lo hi = true -> lo <= z <= hi ->
  String.length (padded width z) = width.
Proof.
  unfold ascending_texts. intros H Hz. apply andb_true_iff in H.
  destruct H as [H _]. rewrite forallb_forall in H.
  apply Nat.eqb_eq, H, numbers_In. lia.
Qed.

Lemma ascending_step width lo hi z :
  ascending_texts width lo hi = true -> lo <= z < hi ->
  String.compare (padded width z) (padded width (z + 1)) = Lt.
Proof.
  unfold ascending_texts. intros H Hz. apply andb_true_iff in H.
  destruct H as [_ H]. rewrite forallb_forall in H.
  assert (Hin : In z (numbers lo (hi - 1))) by (apply numbers_In; lia).
  specialize (H z Hin).
  destruct (String.compare _ _); congruence.
Qed.

(** Texts that ascend step by step ascend. *)
Lemma ascending_lt width lo hi :
  ascending_texts width lo hi = true ->
  forall z z', lo <= z -> z < z' -> z' <= hi ->
  String.compare (padded width z) (padded width z') = Lt.
Proof.
  intros H z z' Hlo Hlt Hhi.
  replace z' with (z + 1 + Z.of_nat (Z.to_nat (z' - z - 1))) in * by lia.
  induction (Z.to_nat (z' - z - 1)) as [|k IH].
  - rewrite Z.add_0_r. apply (ascending_step width lo hi z H). lia.
  - apply (compare_lt_trans _ (padded width (z + 1 + Z.of_nat k))).
    + apply IH; lia.
    + replace (z + 1 + Z.of_nat (S k)) with (z + 1 + Z.of_nat k + 1) by lia.
      apply (ascending_step width lo hi _ H). lia.
Qed.

Lemma years_ascend : ascending_texts 4 1000 9999 = true.
Proof. vm_compute. reflexivity. Qed.

Lemma months_ascend : ascending_texts 2 1 12 = true.
Proof. vm_compute. reflexivity. Qed.

Lemma days_ascend : ascending_texts 2 1 31 = true.
Proof. vm_compute. reflexivity. Qed.

Lemma compare_app_lt : forall a a' b b' : string,
  String.length a = String.length a' ->
  String.compare a a' = Lt -> String.compare (a ++ b) (a' ++ b') = Lt.
Proof.
  induction a as [|c a IH]; intros [|c' a'] b b' Hl H; simpl in *; try discriminate.
  destruct (Ascii.compare c c'); try congruence.
  apply IH; [lia | exact H].
Qed.

Lemma compare_app_same : forall a b b' : string,
  String.compare (a ++ b) (a ++ b') = String.compare b b'.
Proof.
  induction a as [|c a IH]; intros b b'; simpl; [reflexivity|].
  unfold Ascii.compare. rewrite N.compare_refl. apply IH.
Qed.

Lemma day_lt_text y m d y' m' d' :
  valid_day y m d -> valid_day y' m' d' ->
  y < y' \/ (y = y' /\ (m < m' \/ (m = m' /\ d < d'))) ->
  String.compare (yyyymmdd y m d) (yyyymmdd y' m' d') = Lt.
Proof.
  intros [Hy [Hm Hd]] [Hy' [Hm' Hd']] H. unfold yyyymmdd.
  pose proof (ascending_length 4 1000 9999 y years_ascend ltac:(lia)) as Ly.
  pose proof (ascending_length 4 1000 9999 y' years_ascend ltac:(lia)) as Ly'.
  pose proof (ascending_length 2 1 12 m months_ascend ltac:(lia)) as Lm.
  pose proof (ascending_length 2 1 12 m' months_ascend ltac:(lia)) as Lm'.
  destruct H as [H|[<- [H|[<- H]]]].
  - apply compare_app_lt; [congruence|].
    apply (ascending_lt 4 1000 9999 years_ascend); lia.
  - rewrite compare_app_same. apply compare_app_lt; [congruence|].
    apply (ascending_lt 2 1 12 months_ascend); lia.
  - rewrite !compare_app_same.
    apply (ascending_lt 2 1 31 days_ascend); lia.
Qed.

(** Dates formatted as [%Y%m%d] sort as TEXT the way the days sort in
    the calendar: for days with a year of four digits, the text of one
    is at most the text of the other exactly when the day is not after
    the other. *)
Theorem date_text_order_is_calendar_order (y m d y' m' d' : Z) :
  valid_day y m d -> valid_day y' m' d' ->
  (String.leb (yyyymmdd y m d) (yyyymmdd y' m' d') = true <-> day_le y m d y' m' d').
Proof.
  intros V V'. unfold day_le.
  assert (T : (y < y' \/ (y = y' /\ (m < m' \/ (m = m' /\ d < d'))))
              \/ (y = y' /\ m = m' /\ d = d')
              \/ (y' < y \/ (y' = y /\ (m' < m \/ (m' = m /\ d' < d))))) by lia.
  destruct T as [T|[[<- [<- <-]]|T]].
  - rewrite leb_cases, (day_lt_text y m d y' m' d' V V' T). split; [lia | auto].
  - rewrite leb_refl. split; [lia | auto].
  - pose proof (day_lt_text y' m' d' y m d V' V T) as C.
    unfold String.leb. rewrite String.compare_antisym, C. simpl.
    split; [discriminate | lia].
Qed.

Lemma date_text_order_is_calendar_order_witness :
  String.leb (yyyymmdd 2009 12 31) (yyyymmdd 2010 1 1) = true <->
  day_le 2009 12 31 2010 1 1.
Proof.
  apply date_text_order_is_calendar_order; unfold valid_day; lia.
Defined.

End CalendarFacts.

(** ** The export *)

Module ExportFacts.

Import Sql SqlFacts Schema AnalysisViews DataQuality ExportCsv ExportStatements.
Import Examples MoreExamples AggregationFacts ViewExtras QualityFacts.

(** *** Rows of the aggregated view *)

Lemma aggregate_key k rows k' rows' :
  aggregate k rows = aggregate k' rows' -> k = k'.
Proof.
  intros E. destruct k, k'.
  pose proof (f_equal voting_id E). pose proof (f_equal voting_date E).
  pose proof (f_equal proposal_id E). pose proof (f_equal title_de E).
  pose proof (f_equal title_fr E). pose proof (f_equal title_it E).
  pose proof (f_equal angenommen E). pose proof (f_equal municipality_id E).
  pose proof (f_equal municipality_name E). simpl in *. congruence.
Qed.

Lemma view_NoDup db : NoDup (v_voting_results_analysis db).
Proof.
  unfold v_voting_results_analysis. cbv zeta.
  apply NoDup_map_on; [apply distinct_NoDup|].
  intros k k' _ _. apply aggregate_key.
Qed.

Lemma view_row_determined db a b :
  integrity db = true ->
  In a (v_voting_results_analysis db) -> In b (v_voting_results_analysis db) ->
  proposal_id a = proposal_id b -> municipality_id a = municipality_id b ->
  municipality_name a = municipality_name b -> a = b.
Proof.
  intros Hi Ha Hb Ep Eb En.
  apply view_In in Ha. apply view_In in Hb.
  destruct Ha as [j1 [H1 ->]]. destruct Hb as [j2 [H2 ->]]. simpl in *.
  now rewrite (join_key_determined db j1 j2 Hi H1 H2 Ep Eb En).
Qed.

Lemma filter_at_most_one {B} (p : B -> bool) (l : list B) :
  NoDup l -> (forall x y, In x l -> In y l -> p x = true -> p y = true -> x = y) ->
  (List.length (filter p l) <= 1)%nat.
Proof.
  induction 1 as [|h t Hh Ht IH]; intros Heq; simpl; [lia|].
  destruct (p h) eqn:E.
  - rewrite filter_none; [simpl; lia|].
    intros y Hy. destruct (p y) eqn:Ey; [|reflexivity].
    exfalso. apply Hh. rewrite (Heq h y); auto; [now left | now right].
  - apply IH. intros x y Hx Hy. apply Heq; now right.
Qed.

Lemma key_matches_eq a b : key_matches a b = true <-> a = b.
Proof. unfold key_matches. destruct (option_string_dec a b); split; congruence. Qed.

Lemma municipality_data_single db g pid :
  integrity db = true -> single_named db ->
  (List.length (filter (fun d => key_matches g (fst d)) (municipality_data db pid)) <= 1)%nat.
Proof.
  intros Hi Hs. unfold municipality_data.
  rewrite filter_map_swap, length_map. cbn [fst].
  apply filter_at_most_one.
  - apply NoDup_filter, view_NoDup.
  - intros a b Ha Hb Ma Mb.
    apply filter_In in Ha. apply filter_In in Hb.
    destruct Ha as [Ha Pa], Hb as [Hb Pb].
    apply Z.eqb_eq in Pa. apply Z.eqb_eq in Pb.
    apply key_matches_eq in Ma. apply key_matches_eq in Mb.
    apply (view_row_determined db); auto; try congruence.
    apply Hs; auto. congruence.
Qed.

(** *** The merge *)

Lemma merge_single pid data df :
  (forall row, In row df ->
     (List.length (filter (fun d => key_matches (geo_id row) (fst d)) data) <= 1)%nat) ->
  merge_proposal pid data df
  = map (fun row =>
           {| geo_type := geo_type row; geo_id := geo_id row; geo_name := geo_name row;
              cells := cells row
                       ++ [(pid, match filter (fun d => key_matches (geo_id row) (fst d)) data
                                 with
                                 | d :: _ => snd d
                                 | [] => (None, None, None)
                                 end)] |})
        df.
Proof.
  unfold merge_proposal. cbv zeta.
  induction df as [|row t IH]; intros H; [reflexivity|].
  change (row :: t) with ([row] ++ t).
  rewrite flat_map_app, map_app, IH by (intros r Hr; apply H; now right). clear IH.
  f_equal. specialize (H row (or_introl eq_refl)).
  cbn [flat_map map]. rewrite app_nil_r.
  destruct (filter _ data) as [|d [|d' rest]]; simpl in *; try reflexivity. lia.
Qed.

Lemma fold_merge (data : Z -> list (option string * (option Z * option Z * option Q)))
    (ps : list (Z * string * option string)) : forall df,
  (forall p row, In p ps -> In row df ->
     (List.length (filter (fun d => key_matches (geo_id row) (fst d)) (data (fst (fst p))))
      <= 1)%nat) ->
  fold_left (fun result_df proposal =>
               merge_proposal (fst (fst proposal)) (data (fst (fst proposal))) result_df)
            ps df
  = map (fun row =>
           {| geo_type := geo_type row; geo_id := geo_id row; geo_name := geo_name row;
              cells := cells row
                       ++ map (fun p =>
                                 (fst (fst p),
                                  match filter (fun d => key_matches (geo_id row) (fst d))
                                               (data (fst (fst p))) with
                                  | d :: _ => snd d
                                  | [] => (None, None, None)
                                  end))
                              ps |})
        df.
Proof.
  induction ps as [|p ps IH]; intros df H.
  - simpl. rewrite <- (map_id df) at 1. apply map_ext.
    intros [t i n c]. simpl. now rewrite app_nil_r.
  - cbn [fold_left]. rewrite merge_single by (intros row Hr; apply H; [now left | exact Hr]).
    rewrite IH.
    + rewrite map_map. apply map_ext. intros row. cbn [geo_type geo_id geo_name cells map].
      now rewrite <- app_assoc.
    + intros p' row Hp Hr. apply in_map_iff in Hr. destruct Hr as [row0 [<- Hr0]].
      cbn [geo_id]. apply H; [now right | exact Hr0].
Qed.

(** With the declared keys in force and one name for every municipality
    id of the aggregated view, [export_municipalities] returns one row
    for each municipality, in the order of the names, and the row
    carries for every proposal, in the order of [get_all_proposals], the
    yes count, the no count and the yes percentage of the row of the
    aggregated view, or empty cells where the view has no row. *)
Theorem export_one_row_per_municipality (db : database) :
  integrity db = true -> single_named db ->
  export_municipalities db = municipality_table db.
Proof.
  intros Hi Hs. unfold export_municipalities, municipality_table.
  rewrite (fold_merge (municipality_data db)).
  - unfold base_frame. rewrite map_map. apply map_ext. intros m. reflexivity.
  - intros p row _ _. now apply municipality_data_single.
Qed.

Lemma export_one_row_per_municipality_witness :
  export_municipalities db_two_votings = municipality_table db_two_votings.
Proof.
  apply (export_one_row_per_municipality db_two_votings).
  - reflexivity.
  - intros a b Ha Hb _.
    assert (N : forall x, In x (v_voting_results_analysis db_two_votings) ->
                          municipality_name x = Some "Burg").
    { intros x Hx. vm_compute in Hx.
      repeat (destruct Hx as [<-|Hx]; [reflexivity|]). destruct Hx. }
    now rewrite (N a Ha), (N b Hb).
Defined.

(** *** The number of rows *)








End ExportFacts.

(** ** The import of the voting files *)

Module ImportVotingsFacts.

Import Sql SqlFacts Schema DataQuality ImportMunicipalChanges ImportAllChanges.
Import ImportVotings ImportVotingsStatements ImportExamples.
Import AnalysisViews Statements AggregationFacts TextOrder LifecycleFacts ViewExtras.

Open Scope action_scope.

(** *** Relations the statements keep *)

Section Relates.
Variable R : store -> store -> Prop.
Hypothesis R_refl : forall s, R s s.
Hypothesis R_trans : forall s1 s2 s3, R s1 s2 -> R s2 s3 -> R s1 s3.

Lemma relates_ret {A} (x : A) : relates R (ret x).
Proof. intros c y c' H. injection H as _ <-. apply R_refl. Qed.

Lemma relates_raise {A} : relates R (@raise A).
Proof. intros c y c' H. discriminate. Qed.

Lemma relates_lastrowid : relates R lastrowid.
Proof. intros c y c' H. injection H as _ <-. apply R_refl. Qed.

Lemma relates_bind {A B} (a : action A) (f : A -> action B) :
  relates R a -> (forall x, relates R (f x)) -> relates R (bind a f).
Proof.
  intros Ha Hf c y c' H. unfold bind in H.
  destruct (a c) as [[x|] c1] eqn:E; [|discriminate].
  apply (R_trans _ (tables c1)); [apply (Ha c x c1 E) | apply (Hf x c1 y c' H)].
Qed.

Lemma relates_for_each {X} (body : X -> action unit) (l : list X) :
  (forall x, relates R (body x)) -> relates R (for_each l body).
Proof.
  intros Hb. induction l as [|x t IH]; simpl.
  - apply relates_ret.
  - apply relates_bind; [apply Hb | intros _; exact IH].
Qed.

Lemma relates_when_present {X} (body : X -> action unit) (value : option X) :
  (forall x, relates R (body x)) -> relates R (when_present value body).
Proof.
  intros Hb. destruct value as [x|]; simpl; [apply Hb | apply relates_ret].
Qed.

(** The statements below their loops, once each statement keeps [R]. *)
Hypothesis R_district : forall a b c, relates R (insert_district a b c).
Hypothesis R_update_district : forall a b, relates R (update_district a b).
Hypothesis R_municipality : forall a b c d, relates R (insert_municipality a b c d).
Hypothesis R_update_municipality : forall a b, relates R (update_municipality a b).
Hypothesis R_canton : forall a b, relates R (insert_canton a b).
Hypothesis R_update_canton : forall a b, relates R (update_canton a b).

Section Attached.
Variable voting_id : Z.
Hypothesis R_result : forall p l g n r, relates R (insert_result voting_id p l g n r).
Hypothesis R_proposal : forall v, relates R (insert_proposal voting_id v).
Hypothesis R_spatial : forall ref, relates R (insert_spatial_reference voting_id ref).

Lemma relates_bezirk d p c b : relates R (process_bezirk d voting_id p c b).
Proof.
  unfold process_bezirk. cbv zeta.
  apply relates_bind; [apply R_district | intros _].
  apply relates_bind; [apply R_update_district | intros _].
  apply relates_when_present. intros r. apply R_result.
Qed.

Lemma relates_gemeinde d p c g : relates R (process_gemeinde d voting_id p c g).
Proof.
  unfold process_gemeinde. cbv zeta.
  apply relates_bind; [apply R_municipality | intros _].
  apply relates_bind; [apply R_update_municipality | intros _].
  apply relates_when_present. intros r. apply R_result.
Qed.

Lemma relates_kanton d p k : relates R (process_kanton d voting_id p k).
Proof.
  unfold process_kanton. cbv zeta.
  apply relates_bind; [apply R_canton | intros _].
  apply relates_bind; [apply R_update_canton | intros _].
  apply relates_bind; [apply relates_when_present; intros r; apply R_result | intros _].
  apply relates_bind.
  - apply relates_when_present. intros l. apply relates_for_each.
    intros b. apply relates_bezirk.
  - intros _. apply relates_when_present. intros l. apply relates_for_each.
    intros g. apply relates_gemeinde.
Qed.

Lemma relates_vorlage d v : relates R (process_vorlage d voting_id v).
Proof.
  unfold process_vorlage.
  apply relates_bind; [apply R_proposal | intros _].
  apply relates_bind; [apply relates_lastrowid | intros p].
  apply relates_bind; [apply relates_when_present; intros r; apply R_result | intros _].
  apply relates_when_present. intros l. apply relates_for_each.
  intros k. apply relates_kanton.
Qed.

Lemma relates_rows (data : voting_file) :
  relates R
    (when_present (spatial_reference data)
       (fun refs => for_each refs (insert_spatial_reference voting_id)) ;;
     when_present (vorlagen data)
       (fun vorlagen => for_each vorlagen (process_vorlage (abstimmtag data) voting_id))).
Proof.
  apply relates_bind.
  - apply relates_when_present. intros l. apply relates_for_each. apply R_spatial.
  - intros _. apply relates_when_present. intros l. apply relates_for_each.
    intros v. apply relates_vorlage.
Qed.

End Attached.

End Relates.

(** *** Running one statement *)

Ltac run_statement H :=
  unfold bind, read_tables, insert_row, update_tables, raise, ret in H;
  cbn beta iota in H;
  repeat match type of H with
         | context [match ?e with _ => _ end] => destruct e eqn:?
         end;
  try discriminate H;
  inversion H; subst; clear H; cbn [tables].

(** *** The keys *)

Lemma keeps_keys_refl s : keeps_keys s s.
Proof. intros H. exact H. Qed.

Lemma keeps_keys_trans s1 s2 s3 :
  keeps_keys s1 s2 -> keeps_keys s2 s3 -> keeps_keys s1 s3.
Proof. unfold keeps_keys. auto. Qed.

Lemma voting_exists_more s v id :
  existsb (fun v => v_voting_id v =? id) (st_votings s) = true ->
  existsb (fun v => v_voting_id v =? id) (st_votings s ++ [v]) = true.
Proof. intros H. rewrite existsb_app, H. reflexivity. Qed.

Lemma NoDup_snoc_fresh (l : list Z) (x bound : Z) :
  NoDup l -> (forall y, In y l -> y <= bound) -> bound < x -> NoDup (l ++ [x]).
Proof.
  intros Hn Hb Hx. apply NoDup_app; [exact Hn | repeat constructor; intros [] |].
  intros y Hy [<-|[]]. specialize (Hb _ Hy). lia.
Qed.

Lemma keys_insert_voting d : relates keeps_keys (insert_voting d).
Proof.
  intros c x c' H. unfold insert_voting in H. run_statement H;
    intros (N1 & B1 & N2 & B2 & F1 & F2); unfold keys_kept, voting_exists in *;
    cbn [st_votings st_proposals st_voting_results seq_votings seq_proposals].
  - repeat split; auto. intros v Hv. specialize (B1 v Hv). lia.
  - rewrite map_app. cbn [map v_voting_id]. repeat split; auto.
    + apply (NoDup_snoc_fresh _ _ (seq_votings (tables c))); auto; [|lia].
      intros y Hy. apply in_map_iff in Hy. destruct Hy as [v [<- Hv]]. now apply B1.
    + intros v Hv. apply in_app_iff in Hv. destruct Hv as [Hv|[<-|[]]].
      * specialize (B1 v Hv). lia.
      * simpl. lia.
    + intros p Hp. apply voting_exists_more. now apply F1.
    + intros vr Hvr. apply voting_exists_more. now apply F2.
  - repeat split; auto. intros v Hv. specialize (B1 v Hv). lia.
Qed.

Lemma keys_insert_proposal vid v : relates keeps_keys (insert_proposal vid v).
Proof.
  intros c x c' H. unfold insert_proposal in H. run_statement H.
  intros (N1 & B1 & N2 & B2 & F1 & F2). unfold keys_kept, voting_exists in *.
  cbn [st_votings st_proposals st_voting_results seq_votings seq_proposals].
  rewrite map_app. cbn [map p_proposal_id]. repeat split; auto.
  - apply (NoDup_snoc_fresh _ _ (seq_proposals (tables c))); auto; [|lia].
    intros y Hy. apply in_map_iff in Hy. destruct Hy as [p [<- Hp]]. now apply B2.
  - intros p Hp. apply in_app_iff in Hp. destruct Hp as [Hp|[<-|[]]].
    + specialize (B2 p Hp). lia.
    + simpl. lia.
  - intros p Hp. apply in_app_iff in Hp. destruct Hp as [Hp|[<-|[]]]; auto.
Qed.

Lemma keys_insert_result vid p l g n r : relates keeps_keys (insert_result vid p l g n r).
Proof.
  intros c x c' H. unfold insert_result in H. run_statement H.
  intros (N1 & B1 & N2 & B2 & F1 & F2). unfold keys_kept, voting_exists in *.
  cbn [st_votings st_proposals st_voting_results seq_votings seq_proposals].
  repeat split; auto.
  intros vr Hvr. apply in_app_iff in Hvr. destruct Hvr as [Hvr|[<-|[]]]; auto.
  simpl. match goal with E : (_ && _) = true |- _ => apply andb_true_iff in E; tauto end.
Qed.

Lemma keys_insert_spatial vid ref : relates keeps_keys (insert_spatial_reference vid ref).
Proof.
  intros c x c' H. unfold insert_spatial_reference in H. run_statement H.
  intros Inv. exact Inv.
Qed.

Lemma keys_insert_canton a b : relates keeps_keys (insert_canton a b).
Proof.
  intros c x c' H. unfold insert_canton in H. run_statement H; intros Inv; exact Inv.
Qed.

Lemma keys_update_canton a b : relates keeps_keys (update_canton a b).
Proof.
  intros c x c' H. unfold update_canton in H. run_statement H. intros Inv; exact Inv.
Qed.

Lemma keys_insert_district a b d : relates keeps_keys (insert_district a b d).
Proof.
  intros c x c' H. unfold insert_district in H. run_statement H; intros Inv; exact Inv.
Qed.

Lemma keys_update_district a b : relates keeps_keys (update_district a b).
Proof.
  intros c x c' H. unfold update_district in H. run_statement H. intros Inv; exact Inv.
Qed.

Lemma keys_insert_municipality a b d e : relates keeps_keys (insert_municipality a b d e).
Proof.
  intros c x c' H. unfold insert_municipality in H. run_statement H; intros Inv; exact Inv.
Qed.

Lemma keys_update_municipality a b : relates keeps_keys (update_municipality a b).
Proof.
  intros c x c' H. unfold update_municipality in H. run_statement H. intros Inv; exact Inv.
Qed.

Lemma keys_select d : relates keeps_keys (select_voting_id d).
Proof.
  intros c x c' H. unfold select_voting_id in H. run_statement H. intros Inv; exact Inv.
Qed.

Lemma keys_process_statements data : relates keeps_keys (process_statements data).
Proof.
  unfold process_statements. cbv zeta.
  apply (relates_bind keeps_keys keeps_keys_trans).
  - unfold attach_voting.
    apply (relates_bind keeps_keys keeps_keys_trans); [apply keys_insert_voting | intros _].
    apply (relates_bind keeps_keys keeps_keys_trans);
      [apply (relates_lastrowid keeps_keys keeps_keys_refl) | intros id].
    destruct (id =? 0);
      [apply keys_select | apply (relates_ret keeps_keys keeps_keys_refl)].
  - intros voting_id.
    apply (relates_rows keeps_keys keeps_keys_refl keeps_keys_trans);
      auto using keys_insert_district, keys_update_district, keys_insert_municipality,
        keys_update_municipality, keys_insert_canton, keys_update_canton,
        keys_insert_result, keys_insert_proposal, keys_insert_spatial.
Qed.

Lemma keys_process_voting_file data conn :
  keys_kept (tables conn) ->
  keys_kept (tables (snd (process_voting_file data conn))).
Proof.
  intros Inv. unfold process_voting_file.
  destruct (process_statements data conn) as [[x|] conn'] eqn:E; simpl.
  - exact (keys_process_statements data conn x conn' E Inv).
  - exact Inv.
Qed.

Lemma keys_import_voting_data files : forall conn,
  keys_kept (tables conn) ->
  keys_kept (tables (fst (import_voting_data files conn))).
Proof.
  induction files as [|f rest IH]; intros conn Inv; simpl; [exact Inv|].
  pose proof (keys_process_voting_file f conn Inv) as Inv'.
  destruct (process_voting_file f conn) as [ok conn'].
  specialize (IH conn' Inv').
  destruct (import_voting_data rest conn') as [conn'' counts]. exact IH.
Qed.

Lemma NoDup_unique (l : list Z) : NoDup l -> unique l = true.
Proof.
  induction 1 as [|x t Hx Ht IH]; simpl; [reflexivity|].
  rewrite IH, andb_true_r. apply negb_true_iff.
  apply not_true_is_false. intros E. apply existsb_exists in E.
  destruct E as [y [Hy E]]. apply Z.eqb_eq in E. subst. contradiction.
Qed.

Lemma keys_kept_integrity s : keys_kept s -> integrity (database_of s) = true.
Proof.
  intros (N1 & B1 & N2 & B2 & F1 & F2). unfold integrity, database_of.
  cbn [votings proposals voting_results].
  rewrite (NoDup_unique _ N1), (NoDup_unique _ N2). simpl.
  apply andb_true_iff. split; apply forallb_forall.
  - intros p Hp. exact (F1 p Hp).
  - intros vr Hvr. exact (F2 vr Hvr).
Qed.

Lemma empty_tables_keep_keys changes last :
  keys_kept
    (tables
       {| tables :=
            {| st_votings := []; st_proposals := []; st_voting_results := [];
               st_municipal_changes := changes;
               st_cantons := []; st_districts := [];
               st_municipalities := []; st_spatial_references := [];
               seq_votings := 0; seq_proposals := 0;
               seq_voting_results := 0; seq_spatial_references := 0 |};
          last_insert_rowid := last |}).
Proof.
  unfold keys_kept. simpl. repeat split; try constructor; intros x [].
Qed.

(** Whatever the sheet and the voting files hold, the database [main]
    leaves behind keeps the keys the views rely on: the ids of [votings]
    and of [proposals] are unique, and every proposal and every result
    row names an existing voting. *)
Theorem imported_database_keeps_keys (sheet : option (list sheet_row))
    (files : list voting_file) :
  integrity (database_of (tables (snd (ImportVotings.main sheet files)))) = true.
Proof.
  apply keys_kept_integrity. unfold ImportVotings.main.
  destruct sheet as [df|]; [|apply (empty_tables_keep_keys [] 0)].
  cbv zeta. destruct files as [|f rest]; [apply empty_tables_keep_keys|].
  cbn [snd]. apply keys_import_voting_data. apply empty_tables_keep_keys.
Qed.

(** *** The rows of a file *)

Lemma attached_refl vid s : attached vid s s.
Proof.
  unfold attached, rows_added. split; [reflexivity|].
  repeat split; exists []; rewrite app_nil_r; (split; [reflexivity | intros x []]).
Qed.

Lemma attached_trans vid s1 s2 s3 :
  attached vid s1 s2 -> attached vid s2 s3 -> attached vid s1 s3.
Proof.
  unfold attached, rows_added.
  intros [V1 [[p1 [P1 HP1]] [[r1 [R1 HR1]] [x1 [X1 HX1]]]]]
         [V2 [[p2 [P2 HP2]] [[r2 [R2 HR2]] [x2 [X2 HX2]]]]].
  split; [congruence|]. repeat split.
  - exists (p1 ++ p2). rewrite P2, P1, app_assoc. split; [reflexivity|].
    intros p Hp. apply in_app_iff in Hp. destruct Hp; auto.
  - exists (r1 ++ r2). rewrite R2, R1, app_assoc. split; [reflexivity|].
    intros p Hp. apply in_app_iff in Hp. destruct Hp; auto.
  - exists (x1 ++ x2). rewrite X2, X1, app_assoc. split; [reflexivity|].
    intros p Hp. apply in_app_iff in Hp. destruct Hp; auto.
Qed.

Ltac nothing_added :=
  unfold attached, rows_added; cbn [st_votings st_proposals st_voting_results
                                    st_spatial_references];
  split; [reflexivity|];
  repeat split; exists []; rewrite app_nil_r; (split; [reflexivity | intros ? []]).

Ltac one_added :=
  unfold attached, rows_added; cbn [st_votings st_proposals st_voting_results
                                    st_spatial_references];
  split; [reflexivity|];
  repeat split;
  first [ eexists; split; [reflexivity|]; intros ? [<-|[]]; reflexivity
        | exists []; rewrite app_nil_r; (split; [reflexivity | intros ? []]) ].

Lemma attached_insert_proposal vid v : relates (attached vid) (insert_proposal vid v).
Proof. intros c x c' H. unfold insert_proposal in H. run_statement H. one_added. Qed.

Lemma attached_insert_result vid p l g n r :
  relates (attached vid) (insert_result vid p l g n r).
Proof. intros c x c' H. unfold insert_result in H. run_statement H. one_added. Qed.

Lemma attached_insert_spatial vid ref :
  relates (attached vid) (insert_spatial_reference vid ref).
Proof.
  intros c x c' H. unfold insert_spatial_reference in H. run_statement H. one_added.
Qed.

Lemma attached_insert_canton vid a b : relates (attached vid) (insert_canton a b).
Proof. intros c x c' H. unfold insert_canton in H. run_statement H; nothing_added. Qed.

Lemma attached_update_canton vid a b : relates (attached vid) (update_canton a b).
Proof. intros c x c' H. unfold update_canton in H. run_statement H. nothing_added. Qed.

Lemma attached_insert_district vid a b d : relates (attached vid) (insert_district a b d).
Proof. intros c x c' H. unfold insert_district in H. run_statement H; nothing_added. Qed.

Lemma attached_update_district vid a b : relates (attached vid) (update_district a b).
Proof. intros c x c' H. unfold update_district in H. run_statement H. nothing_added. Qed.

Lemma attached_insert_municipality vid a b d e :
  relates (attached vid) (insert_municipality a b d e).
Proof.
  intros c x c' H. unfold insert_municipality in H. run_statement H; nothing_added.
Qed.

Lemma attached_update_municipality vid a b :
  relates (attached vid) (update_municipality a b).
Proof.
  intros c x c' H. unfold update_municipality in H. run_statement H. nothing_added.
Qed.

Lemma attached_rows vid data :
  relates (attached vid)
    (when_present (spatial_reference data)
       (fun refs => for_each refs (insert_spatial_reference vid)) ;;
     when_present (vorlagen data)
       (fun vorlagen => for_each vorlagen (process_vorlage (abstimmtag data) vid))).
Proof.
  apply (relates_rows (attached vid) (attached_refl vid) (attached_trans vid));
    auto using attached_insert_district, attached_update_district,
      attached_insert_municipality, attached_update_municipality,
      attached_insert_canton, attached_update_canton, attached_insert_result,
      attached_insert_proposal, attached_insert_spatial.
Qed.

Lemma existsb_filter {B} (f : B -> bool) (l : list B) :
  existsb f l = match filter f l with [] => false | _ => true end.
Proof.
  induction l as [|x t IH]; [reflexivity|]. simpl.
  destruct (f x); [reflexivity | exact IH].
Qed.

(** What the insert into [votings] and the reading of the id do. *)
Lemma attach_voting_run d c vid c1 :
  attach_voting d c = (Some vid, c1) ->
  st_proposals (tables c1) = st_proposals (tables c) /\
  st_voting_results (tables c1) = st_voting_results (tables c) /\
  st_spatial_references (tables c1) = st_spatial_references (tables c) /\
  match d with
  | Some dv =>
      match voting_of_date (tables c) dv with
      | Some existing =>
          vid = (if last_insert_rowid c =? 0 then existing else last_insert_rowid c) /\
          st_votings (tables c1) = st_votings (tables c)
      | None =>
          vid = seq_votings (tables c) + 1 /\
          st_votings (tables c1)
          = st_votings (tables c) ++ [ {| v_voting_id := vid; v_voting_date := dv |} ]
      end
  | None =>
      vid = last_insert_rowid c /\ last_insert_rowid c <> 0 /\
      st_votings (tables c1) = st_votings (tables c)
  end.
Proof.
  unfold attach_voting, insert_voting, voting_of_date. intros H.
  unfold bind at 1 in H. unfold bind at 1 in H. unfold read_tables at 1 in H.
  destruct d as [dv|].
  - rewrite existsb_filter in H.
    destruct (filter (fun v => String.eqb (v_voting_date v) dv) (st_votings (tables c)))
      as [|v0 rest] eqn:F.
    + unfold insert_row, bind, lastrowid in H. cbn [last_insert_rowid tables] in H.
      destruct (seq_votings (tables c) + 1 =? 0) eqn:Z0.
      * unfold select_voting_id, bind, read_tables in H. cbn [tables st_votings] in H.
        rewrite filter_app, F in H. cbn [filter app v_voting_date] in H.
        rewrite String.eqb_refl in H. unfold ret in H.
        inversion H; subst; clear H. cbn. auto.
      * unfold ret in H. inversion H; subst; clear H. cbn. auto.
    + unfold update_tables, bind, lastrowid in H. cbn [last_insert_rowid tables] in H.
      destruct (last_insert_rowid c =? 0) eqn:Z0.
      * unfold select_voting_id, bind, read_tables in H. cbn [tables st_votings] in H.
        rewrite F in H. unfold ret in H. inversion H; subst; clear H. cbn. auto.
      * unfold ret in H. inversion H; subst; clear H. cbn. auto.
  - unfold update_tables, bind, lastrowid in H. cbn [last_insert_rowid tables] in H.
    destruct (last_insert_rowid c =? 0) eqn:Z0.
    + unfold select_voting_id, bind, read_tables, raise in H. discriminate.
    + unfold ret in H. inversion H; subst; clear H. cbn.
      apply Z.eqb_neq in Z0. repeat split; auto.
Qed.

(** The rows of a file that is committed are attached to one voting id,
    and that id is read from the connection, not from the date: when the
    date of the file is new, it is the key of the voting the file adds;
    when the date is already stored, or NULL, no voting is added and the
    id is the rowid of the last row inserted through the connection,
    whichever voting has the date; only when that rowid is 0 is the
    voting of the date looked up. *)
Theorem file_rows_attached_to_lastrowid (data : voting_file) (conn conn' : connection) :
  process_voting_file data conn = (true, conn') ->
  exists voting_id,
    attachment data conn conn' voting_id /\
    rows_added voting_id (tables conn) (tables conn').
Proof.
  unfold process_voting_file, process_statements. cbv zeta. intros H.
  unfold bind at 1 in H.
  destruct (attach_voting (abstimmtag data) conn) as [[vid|] c1] eqn:A;
    [|discriminate].
  match type of H with
  | match ?a c1 with _ => _ end = _ => destruct (a c1) as [[x|] c2] eqn:B
  end; [|discriminate].
  injection H as <-.
  pose proof (attached_rows vid data c1 x c2 B) as [V [P [Rr S]]].
  destruct (attach_voting_run _ _ _ _ A) as [P1 [R1 [S1 M]]].
  exists vid. split.
  - unfold attachment. rewrite V.
    destruct (abstimmtag data) as [d|]; [|exact M].
    destruct (voting_of_date (tables conn) d); exact M.
  - unfold rows_added. rewrite <- P1, <- R1, <- S1. auto.
Qed.

Lemma file_rows_attached_to_lastrowid_witness :
  exists voting_id,
    attachment repeated_file after_two_files
      (snd (process_voting_file repeated_file after_two_files)) voting_id /\
    rows_added voting_id (tables after_two_files)
      (tables (snd (process_voting_file repeated_file after_two_files))).
Proof.
  apply (file_rows_attached_to_lastrowid repeated_file after_two_files).
  vm_compute. reflexivity.
Defined.

(** Three files, the third for the date of the first: its proposal and
    its result row are attached to the voting of the second file. *)
Lemma repeated_date_example :
  let s := tables (snd (ImportVotings.main (Some []) [first_file; second_file; repeated_file])) in
  st_votings s = [ {| v_voting_id := 1; v_voting_date := "20200209" |};
                   {| v_voting_id := 2; v_voting_date := "20200927" |} ] /\
  map (fun p => (p_proposal_id p, p_voting_id p)) (st_proposals s)
  = [ (1, 1); (2, 2); (3, 2) ] /\
  map (fun vr => (vr_voting_id vr, vr_ja_stimmen_absolut vr)) (st_voting_results s)
  = [ (1, Some 60); (2, Some 30); (2, Some 5) ] /\
  map (fun m => (mu_first_seen_date m, mu_last_seen_date m)) (st_municipalities s)
  = [ (Some "20200209", Some "20200927") ].
Proof. vm_compute. repeat split; reflexivity. Qed.

(** *** The seen dates *)

Lemma keeps_dates_refl s : keeps_dates s s.
Proof. intros H. exact H. Qed.

Lemma keeps_dates_trans s1 s2 s3 :
  keeps_dates s1 s2 -> keeps_dates s2 s3 -> keeps_dates s1 s3.
Proof. unfold keeps_dates. auto. Qed.

Lemma seen_dates_update first last d :
  dates_ordered first last -> dates_ordered (seen_first first d) (seen_last last d).
Proof.
  intros H. destruct d as [dv|]; [|left; split; reflexivity].
  right. unfold seen_first, seen_last. do 2 eexists.
  split; [reflexivity|]. split; [reflexivity|].
  destruct H as [[-> ->]|[f [l [-> [-> Hfl]]]]].
  - apply (leb_trans _ dv); [apply text_min_le | apply text_max_ge].
  - apply (leb_trans _ f); [apply text_min_le|].
    apply (leb_trans _ l); [exact Hfl | apply text_max_ge].
Qed.

Ltac dates_unchanged :=
  intros Inv; exact Inv.

Ltac dates_of_rows Inv :=
  destruct Inv as (C & D & M); unfold seen_dates_ordered;
  cbn [st_cantons st_districts st_municipalities]; repeat split; auto.

Lemma dates_insert_canton a b : relates keeps_dates (insert_canton a b).
Proof.
  intros c x c' H. unfold insert_canton in H. run_statement H; intros Inv;
    try exact Inv.
  dates_of_rows Inv. intros r Hr. apply in_app_iff in Hr.
  destruct Hr as [Hr|[<-|[]]]; [now apply C | left; split; reflexivity].
Qed.

Lemma dates_insert_district a b d : relates keeps_dates (insert_district a b d).
Proof.
  intros c x c' H. unfold insert_district in H. run_statement H; intros Inv;
    try exact Inv.
  dates_of_rows Inv. intros r Hr. apply in_app_iff in Hr.
  destruct Hr as [Hr|[<-|[]]]; [now apply D | left; split; reflexivity].
Qed.

Lemma dates_insert_municipality a b d e :
  relates keeps_dates (insert_municipality a b d e).
Proof.
  intros c x c' H. unfold insert_municipality in H. run_statement H; intros Inv;
    try exact Inv.
  dates_of_rows Inv. intros r Hr. apply in_app_iff in Hr.
  destruct Hr as [Hr|[<-|[]]]; [now apply M | left; split; reflexivity].
Qed.

Lemma dates_update_canton d id : relates keeps_dates (update_canton d id).
Proof.
  intros c x c' H. unfold update_canton in H. run_statement H. intros Inv.
  dates_of_rows Inv. intros r Hr. apply in_map_iff in Hr.
  destruct Hr as [r0 [<- Hr0]]. specialize (C r0 Hr0).
  destruct (text_eq (ct_canton_id r0) id); [|exact C].
  cbn. now apply seen_dates_update.
Qed.

Lemma dates_update_district d id : relates keeps_dates (update_district d id).
Proof.
  intros c x c' H. unfold update_district in H. run_statement H. intros Inv.
  dates_of_rows Inv. intros r Hr. apply in_map_iff in Hr.
  destruct Hr as [r0 [<- Hr0]]. specialize (D r0 Hr0).
  destruct (text_eq (dt_district_id r0) id); [|exact D].
  cbn. now apply seen_dates_update.
Qed.

Lemma dates_update_municipality d id : relates keeps_dates (update_municipality d id).
Proof.
  intros c x c' H. unfold update_municipality in H. run_statement H. intros Inv.
  dates_of_rows Inv. intros r Hr. apply in_map_iff in Hr.
  destruct Hr as [r0 [<- Hr0]]. specialize (M r0 Hr0).
  destruct (text_eq (mu_municipality_id r0) id); [|exact M].
  cbn. now apply seen_dates_update.
Qed.

Lemma dates_insert_voting d : relates keeps_dates (insert_voting d).
Proof.
  intros c x c' H. unfold insert_voting in H. run_statement H; dates_unchanged.
Qed.

Lemma dates_select d : relates keeps_dates (select_voting_id d).
Proof.
  intros c x c' H. unfold select_voting_id in H. run_statement H. dates_unchanged.
Qed.

Lemma dates_insert_proposal vid v : relates keeps_dates (insert_proposal vid v).
Proof.
  intros c x c' H. unfold insert_proposal in H. run_statement H. dates_unchanged.
Qed.

Lemma dates_insert_result vid p l g n r : relates keeps_dates (insert_result vid p l g n r).
Proof.
  intros c x c' H. unfold insert_result in H. run_statement H. dates_unchanged.
Qed.

Lemma dates_insert_spatial vid ref : relates keeps_dates (insert_spatial_reference vid ref).
Proof.
  intros c x c' H. unfold insert_spatial_reference in H. run_statement H.
  dates_unchanged.
Qed.

Lemma dates_process_statements data : relates keeps_dates (process_statements data).
Proof.
  unfold process_statements. cbv zeta.
  apply (relates_bind keeps_dates keeps_dates_trans).
  - unfold attach_voting.
    apply (relates_bind keeps_dates keeps_dates_trans);
      [apply dates_insert_voting | intros _].
    apply (relates_bind keeps_dates keeps_dates_trans);
      [apply (relates_lastrowid keeps_dates keeps_dates_refl) | intros id].
    destruct (id =? 0);
      [apply dates_select | apply (relates_ret keeps_dates keeps_dates_refl)].
  - intros voting_id.
    apply (relates_rows keeps_dates keeps_dates_refl keeps_dates_trans);
      auto using dates_insert_district, dates_update_district,
        dates_insert_municipality, dates_update_municipality, dates_insert_canton,
        dates_update_canton, dates_insert_result, dates_insert_proposal,
        dates_insert_spatial.
Qed.

Lemma dates_import_voting_data files : forall conn,
  seen_dates_ordered (tables conn) ->
  seen_dates_ordered (tables (fst (import_voting_data files conn))).
Proof.
  induction files as [|f rest IH]; intros conn Inv; simpl; [exact Inv|].
  assert (Inv' : seen_dates_ordered (tables (snd (process_voting_file f conn)))).
  { unfold process_voting_file.
    destruct (process_statements f conn) as [[x|] conn'] eqn:E; simpl.
    - exact (dates_process_statements f conn x conn' E Inv).
    - exact Inv. }
  destruct (process_voting_file f conn) as [ok conn'].
  specialize (IH conn' Inv').
  destruct (import_voting_data rest conn') as [conn'' counts]. exact IH.
Qed.

(** In the database [main] leaves behind, every canton, district and
    municipality has both seen dates NULL or a first seen date that is
    not after its last seen date, in the order of TEXT. *)
Theorem first_seen_not_after_last_seen (sheet : option (list sheet_row))
    (files : list voting_file) :
  seen_dates_ordered (tables (snd (ImportVotings.main sheet files))).
Proof.
  unfold ImportVotings.main.
  assert (Empty : forall changes last,
             seen_dates_ordered
               (tables
                  {| tables :=
                       {| st_votings := []; st_proposals := []; st_voting_results := [];
                          st_municipal_changes := changes;
                          st_cantons := []; st_districts := [];
                          st_municipalities := []; st_spatial_references := [];
                          seq_votings := 0; seq_proposals := 0;
                          seq_voting_results := 0; seq_spatial_references := 0 |};
                     last_insert_rowid := last |})).
  { intros changes last. unfold seen_dates_ordered. simpl.
    repeat split; intros x []. }
  destruct sheet as [df|]; [|apply (Empty [] 0)].
  cbv zeta. destruct files as [|f rest]; [apply Empty|].
  cbn [snd]. apply dates_import_voting_data. apply Empty.
Qed.

(** *** The import and the views *)

(** On the database [main] leaves behind, whatever the files held, the
    aggregated view conserves the totals of every proposal: each count
    column summed over the rows of [v_voting_results_analysis] of a
    proposal equals the column summed over the municipality-level result
    rows of the proposal. *)
Theorem imported_database_conserves_totals (sheet : option (list sheet_row))
    (files : list voting_file) (p : proposal) (f : count_field) :
  In p (st_proposals (tables (snd (ImportVotings.main sheet files)))) ->
  aggregated_total f (database_of (tables (snd (ImportVotings.main sheet files))))
                   (p_proposal_id p)
  = original_total f (database_of (tables (snd (ImportVotings.main sheet files))))
                   (p_proposal_id p).
Proof.
  intros Hp.
  set (s := tables (snd (ImportVotings.main sheet files))) in *.
  assert (Hk : keys_kept s).
  { unfold s, ImportVotings.main.
    destruct sheet as [df|]; [|apply (empty_tables_keep_keys [] 0)].
    cbv zeta. destruct files as [|f0 rest]; [apply empty_tables_keep_keys|].
    cbn [snd]. apply keys_import_voting_data. apply empty_tables_keep_keys. }
  apply (total_of_proposal (database_of s) p f).
  - now apply keys_kept_integrity.
  - exact Hp.
Qed.

Lemma imported_database_conserves_totals_witness :
  let db := database_of (tables (snd (ImportVotings.main (Some [])
                                        [first_file; second_file; repeated_file]))) in
  aggregated_total Ja db 2 = original_total Ja db 2.
Proof.
  intros db.
  apply (imported_database_conserves_totals (Some [])
           [first_file; second_file; repeated_file]
           {| p_proposal_id := 2; p_voting_id := 2;
              p_title_de := Some "Vorlage"; p_title_fr := None; p_title_it := None;
              p_angenommen := Some true |} Ja).
  vm_compute. right. left. reflexivity.
Defined.

Close Scope action_scope.

End ImportVotingsFacts.

(** ** The analysis number *)

Module MappingExtras.

Import Sql SqlFacts Schema AnalysisViews MergerViewsOld Examples Statements Lineage.
Import MappingFacts AggregationFacts OldViewFacts OldResultFacts ViewExtras.

Lemma merger_chain_analysis_number db r :
  In r (merger_chain db) -> exists b, analysis_bfs r = Some b.
Proof.
  intros H. apply merger_chain_parent in H. destruct H as [H|[p [_ [H _]]]].
  - unfold merger_chain_initial in H. apply in_map_iff in H.
    destruct H as [vm [<- _]]. simpl. eauto.
  - apply merger_chain_step_In in H.
    destruct H as [mch [_ [_ [_ [Hc [_ [_ ->]]]]]]]. simpl.
    apply text_ne_true in Hc. destruct Hc as [s [t [_ [-> _]]]]. eauto.
Qed.

(** The analysis number is never NULL: every row of the stable mapping
    has one, and so has every row of the aggregated view as its
    municipality id; a change record without a new BFS number is never
    followed. *)
Theorem analysis_number_never_null (db : database) :
  (forall m, In m (v_stable_municipality_mapping db) ->
             exists b, m_analysis_bfs m = Some b) /\
  (forall a, In a (v_voting_results_analysis db) ->
             exists b, municipality_id a = Some b) /\
  (forall r mch, In r (merger_chain db) -> In mch (municipal_changes db) ->
                 mc_new_bfs_number mch = None ->
                 ~ In {| original_bfs := original_bfs r; original_name := original_name r;
                         analysis_bfs := mc_new_bfs_number mch;
                         analysis_name := mc_new_name mch;
                         first_appearance := first_appearance r;
                         depth := depth r + 1 |}
                      (merger_chain db)).
Proof.
  assert (M : forall m, In m (v_stable_municipality_mapping db) ->
                        exists b, m_analysis_bfs m = Some b).
  { intros m Hm. apply stable_mapping_In in Hm. destruct Hm as [r [Hr [-> _]]].
    simpl. now apply (merger_chain_analysis_number db). }
  split; [exact M|]. split.
  - intros a Ha. apply view_In in Ha. destruct Ha as [j [Hj ->]]. simpl.
    apply M. apply analysis_join_In in Hj. tauto.
  - intros r mch _ _ Hn Hin. apply merger_chain_analysis_number in Hin.
    simpl in Hin. rewrite Hn in Hin. destruct Hin as [b Hb]. discriminate.
Qed.

End MappingExtras.

(** ** Facts about [find_most_complex_mergers] *)

Module ValidationFacts.

Import Sql SqlFacts Schema AnalysisViews DataQuality ValidateMergerData.
Import ValidationExamples.

(** *** Characters *)

Lemma utf8_state_app (g x : string) :
  fst (utf8_state x) = EmptyString ->
  utf8_state (g ++ x) =
  (fst (utf8_state g), snd (utf8_state g) ++ snd (utf8_state x)).
Proof.
  intros Hx. induction g as [|c g IH].
  - simpl. destruct (utf8_state x) as [p d]. simpl in *. now subst.
  - cbn [String.append utf8_state]. rewrite IH.
    destruct (utf8_state g) as [p d]. cbn [fst snd].
    destruct (is_continuation c); [reflexivity|].
    destruct (is_lead c); cbn [fst snd]; [reflexivity|].
    cbn [app]. now rewrite app_assoc.
Qed.

Lemma characters_app (g x : string) :
  fst (utf8_state x) = EmptyString ->
  characters (g ++ x) = characters g ++ characters x.
Proof.
  intros Hx. unfold characters. rewrite (utf8_state_app g x Hx).
  destruct (utf8_state g) as [p d], (utf8_state x) as [q e].
  simpl in *. subst. simpl. now rewrite app_assoc.
Qed.

(** A byte below 0x80 is a character wherever it stands. *)
Lemma utf8_state_plain (c : ascii) (x : string) :
  is_continuation c = false -> is_lead c = false ->
  utf8_state (String c x) = (EmptyString, String c EmptyString :: characters x).
Proof.
  intros Hc Hl. cbn [utf8_state]. unfold characters.
  destruct (utf8_state x) as [p d]. now rewrite Hc, Hl.
Qed.

Lemma characters_plain (c : ascii) (x : string) :
  is_continuation c = false -> is_lead c = false ->
  characters (String c x) = String c EmptyString :: characters x.
Proof.
  intros Hc Hl. unfold characters at 1. now rewrite utf8_state_plain.
Qed.

Lemma characters_before_plain (g : string) (c : ascii) (x : string) :
  is_continuation c = false -> is_lead c = false ->
  characters (g ++ String c x) = characters g ++ String c EmptyString :: characters x.
Proof.
  intros Hc Hl. rewrite characters_app.
  - now rewrite characters_plain.
  - now rewrite utf8_state_plain.
Qed.

(** The characters of a text joined with commas contain the characters
    of each part. *)
Lemma characters_concat (g : string) (l : list string) :
  In g l ->
  exists before after,
    characters (String.concat "," l) = before ++ characters g ++ after.
Proof.
  induction l as [|p ps IH]; intros H; [destruct H|].
  destruct ps as [|q qs].
  - destruct H as [->|[]]. exists [], []. simpl. now rewrite app_nil_r.
  - change (String.concat "," (p :: q :: qs))
      with (p ++ String "," (String.concat "," (q :: qs)))%string.
    rewrite characters_before_plain by reflexivity.
    destruct H as [->|H].
    + exists [], ("," :: characters (String.concat "," (q :: qs))). reflexivity.
    + destruct (IH H) as [b [a E]]. rewrite E.
      exists (characters p ++ "," :: b), a.
      rewrite <- app_assoc. reflexivity.
Qed.

(** *** Matching *)

Lemma same_character_refl (c : string) : same_character c c = true.
Proof.
  unfold same_character. destruct c as [|a [|b t]].
  - reflexivity.
  - apply Ascii.eqb_refl.
  - apply String.eqb_refl.
Qed.

Lemma like_characters_percent (rest s : list string) :
  like_characters ("%" :: rest) s =
  like_characters rest s
  || match s with [] => false | _ :: t => like_characters ("%" :: rest) t end.
Proof. destruct s; reflexivity. Qed.

Lemma like_characters_skip (rest before s : list string) :
  like_characters rest s = true ->
  like_characters ("%" :: rest) (before ++ s) = true.
Proof.
  intros H. induction before as [|b t IH].
  - rewrite like_characters_percent. simpl. now rewrite H.
  - rewrite like_characters_percent. cbn [app]. rewrite IH. apply orb_true_r.
Qed.

Lemma like_characters_any (s : list string) : like_characters ["%"] s = true.
Proof.
  rewrite <- (app_nil_r s). apply like_characters_skip. reflexivity.
Qed.

(** A text, read as a pattern, matches itself, whatever it contains. *)
Lemma like_characters_self (g after : list string) :
  like_characters (g ++ ["%"]) (g ++ after) = true.
Proof.
  induction g as [|c g IH].
  - apply like_characters_any.
  - cbn [app]. destruct (String.eqb c "%") eqn:Ep.
    + apply String.eqb_eq in Ep. subst c.
      apply (like_characters_skip (g ++ ["%"]) ["%"] (g ++ after) IH).
    + cbn [like_characters]. rewrite Ep.
      destruct (String.eqb c "_"); [exact IH|].
      now rewrite same_character_refl, IH.
Qed.

Lemma like_part (g : string) (l : list string) :
  In g l -> like (String.concat "," l) ("%" ++ g ++ "%") = true.
Proof.
  intros H. unfold like.
  destruct (characters_concat g l H) as [before [after ->]].
  change ("%" ++ g ++ "%")%string with (String "%" (g ++ String "%" EmptyString)).
  rewrite characters_plain by reflexivity.
  rewrite characters_before_plain by reflexivity.
  change (characters EmptyString) with (@nil string).
  apply like_characters_skip, like_characters_self.
Qed.

(** *** The join and the groups *)

Lemma insert_complex_In r x l : In x (insert_complex r l) <-> x = r \/ In x l.
Proof.
  induction l as [|h t IH]; simpl; [intuition congruence|].
  destruct (complex_before h r); simpl; [rewrite IH|]; intuition congruence.
Qed.

Lemma find_most_complex_mergers_In db x :
  In x (find_most_complex_mergers db) <-> In x (complex_groups db).
Proof.
  unfold find_most_complex_mergers.
  assert (G : forall l acc,
             In x (fold_left (fun acc r => insert_complex r acc) l acc) <->
             In x l \/ In x acc).
  { induction l as [|h t IH]; intros acc; simpl; [tauto|].
    rewrite IH, insert_complex_In. intuition congruence. }
  rewrite G. split; [intros [H|[]]; exact H | intros H; left; exact H].
Qed.

Lemma complexity_join_In db mc o :
  In (mc, o) (complexity_join db) ->
  In mc (merger_complexity db).
Proof.
  unfold complexity_join. rewrite in_flat_map. intros [mc' [Hmc H]].
  destruct (filter (names_predecessor mc') (voting_participation db)) as [|v t].
  - destruct H as [H|[]]. now inversion H; subst.
  - apply in_map_iff in H. destruct H as [vp [H _]]. now inversion H; subst.
Qed.

Lemma complexity_join_partner db mc vp :
  In mc (merger_complexity db) -> In vp (voting_participation db) ->
  names_predecessor mc vp = true ->
  In (mc, Some vp) (complexity_join db).
Proof.
  intros Hmc Hvp Hn. unfold complexity_join. apply in_flat_map.
  exists mc. split; [exact Hmc|].
  assert (Hf : In vp (filter (names_predecessor mc) (voting_participation db)))
    by (apply filter_In; now split).
  destruct (filter (names_predecessor mc) (voting_participation db)) as [|v t];
    [destruct Hf|].
  apply in_map_iff. exists vp. now split.
Qed.

Lemma complex_groups_In db x :
  In x (complex_groups db) ->
  In (mx_complexity x) (merger_complexity db) /\
  x = complex_aggregate (mx_complexity x)
        (filter (fun j => if complexity_row_dec (fst j) (mx_complexity x)
                          then true else false)
                (complexity_join db)).
Proof.
  unfold complex_groups. cbv zeta. rewrite in_map_iff. intros [k [<- Hk]].
  apply distinct_In in Hk. apply in_map_iff in Hk. destruct Hk as [[mc o] [<- Hj]].
  simpl. split; [|reflexivity]. now apply complexity_join_In in Hj.
Qed.

(** [COALESCE(MAX(vp.voting_count), 0)] is at least the count of every
    partner of the group. *)
Lemma complex_aggregate_ge k rows vp :
  In (k, Some vp) rows ->
  vp_voting_count vp <= mx_max_voting_count (complex_aggregate k rows).
Proof.
  intros H. unfold complex_aggregate. cbn [mx_max_voting_count].
  assert (Hin : In (vp_voting_count vp)
                   (non_null (map (fun j => option_map vp_voting_count (snd j)) rows))).
  { unfold non_null. apply in_flat_map. exists (Some (vp_voting_count vp)).
    split; [|now left]. apply in_map_iff. exists (k, Some vp). now split. }
  destruct (non_null (map (fun j => option_map vp_voting_count (snd j)) rows))
    as [|n t]; [destruct Hin|].
  simpl. destruct Hin as [<-|Hin]; [apply fold_max_ge | now apply fold_max_upper].
Qed.

Lemma counted_when_named db x vp :
  In x (find_most_complex_mergers db) -> In vp (voting_participation db) ->
  names_predecessor (mx_complexity x) vp = true ->
  vp_voting_count vp <= mx_max_voting_count x.
Proof.
  intros Hx Hvp Hn.
  apply (proj1 (find_most_complex_mergers_In db x)) in Hx.
  apply (complex_groups_In db x) in Hx.
  destruct Hx as [Hmc ->]. cbn [mx_complexity] in *.
  apply complex_aggregate_ge. apply filter_In. split.
  - now apply complexity_join_partner.
  - simpl. destruct (complexity_row_dec _ _); congruence.
Qed.

(** A row of [merger_complexity] lists the original number of every
    mapping row of its group. *)
Lemma merger_complexity_predecessor db mc m :
  In mc (merger_complexity db) ->
  In m (v_stable_municipality_mapping db) -> 0 < m_merge_depth m ->
  m_analysis_bfs m = cx_current_bfs mc -> m_analysis_name m = cx_current_name mc ->
  exists l, cx_all_predecessors mc = String.concat "," l /\ In (m_original_bfs m) l.
Proof.
  unfold merger_complexity. cbv zeta. rewrite in_map_iff.
  intros [k [<- _]] Hm Hd Hb Hn. cbn in Hb, Hn. cbn [cx_all_predecessors].
  eexists. split; [reflexivity|].
  unfold predecessors. apply distinct_In. apply in_map.
  apply filter_In. split.
  - apply filter_In. split; [exact Hm | now apply Z.ltb_lt].
  - unfold in_complexity_group, complexity_key.
    destruct (quality_key_dec _ _) as [|N]; [reflexivity|].
    exfalso. apply N. destruct k. simpl in *. congruence.
Qed.

(** The LIKE join of [find_most_complex_mergers] takes every
    municipality whose number occurs in the text [all_predecessors]: the
    reported [max_voting_count] is at least the voting count of each such
    municipality, whether it is a predecessor or not. *)
Theorem max_voting_count_covers_like_matches (db : database)
    (x : complex_merger) (vp : participation_row) :
  In x (find_most_complex_mergers db) ->
  In vp (voting_participation db) ->
  like (cx_all_predecessors (mx_complexity x)) ("%" ++ vp_geo_id vp ++ "%") = true ->
  vp_voting_count vp <= mx_max_voting_count x /\
  0 <= mx_max_voting_count x.
Proof.
  intros Hx Hvp Hl. split; [exact (counted_when_named db x vp Hx Hvp Hl)|].
  apply (proj1 (find_most_complex_mergers_In db x)) in Hx.
  apply (complex_groups_In db x) in Hx.
  destruct Hx as [_ ->]. unfold complex_aggregate. cbn [mx_max_voting_count].
  match goal with |- 0 <= match sql_max ?l with _ => _ end =>
    assert (Hpos : forall n, In n l -> 0 <= n); [|destruct l as [|n t]] end.
  - intros n Hn. unfold non_null in Hn. apply in_flat_map in Hn.
    destruct Hn as [[c|] [Hc Hn]]; [|destruct Hn]. destruct Hn as [<-|[]].
    apply in_map_iff in Hc. destruct Hc as [[mc [p|]] [Hc Hj]]; [|discriminate].
    simpl in Hc. injection Hc as <-.
    apply filter_In in Hj. destruct Hj as [Hj _].
    unfold complexity_join in Hj. apply in_flat_map in Hj. destruct Hj as [mc' [_ Hj]].
    assert (Hp : In p (voting_participation db)).
    { destruct (filter (names_predecessor mc') (voting_participation db)) as [|v t] eqn:E.
      - destruct Hj as [Hj|[]]. discriminate.
      - rewrite <- E in Hj. apply in_map_iff in Hj. destruct Hj as [p' [Hp' Hj]].
        injection Hp' as _ <-. now apply filter_In in Hj. }
    unfold voting_participation in Hp. cbv zeta in Hp. apply in_map_iff in Hp.
    destruct Hp as [g [<- _]]. cbn [vp_voting_count]. lia.
  - simpl. lia.
  - simpl. pose proof (fold_max_ge t n). pose proof (Hpos n (or_introl eq_refl)). lia.
Qed.

Lemma max_voting_count_covers_like_matches_witness :
  exists x, In x (find_most_complex_mergers db_substring) /\
            cx_all_predecessors (mx_complexity x) = "261" /\
            2 <= mx_max_voting_count x.
Proof.
  pose (x := {| mx_complexity :=
                  {| cx_current_bfs := Some "300"; cx_current_name := Some "Burg";
                     cx_predecessor_count := 1; cx_max_merge_depth := Some 1;
                     cx_all_predecessors := "261" |};
                mx_max_voting_count := 2 |}).
  assert (Hx : In x (find_most_complex_mergers db_substring))
    by (vm_compute; left; reflexivity).
  exists x. split; [exact Hx|]. split; [reflexivity|].
  refine (proj1 (max_voting_count_covers_like_matches db_substring x
                   {| vp_geo_id := "26"; vp_voting_count := 2 |} Hx _ _)).
  - vm_compute. right. left. reflexivity.
  - vm_compute. reflexivity.
Defined.

(** No predecessor is missed by the LIKE join: the reported
    [max_voting_count] of a merged municipality is at least the voting
    count of each municipality the stable mapping sends to it over one
    change record or more. *)
Theorem max_voting_count_covers_predecessors (db : database)
    (x : complex_merger) (m : mapping_row) (vp : participation_row) :
  In x (find_most_complex_mergers db) ->
  In m (v_stable_municipality_mapping db) ->
  0 < m_merge_depth m ->
  m_analysis_bfs m = cx_current_bfs (mx_complexity x) ->
  m_analysis_name m = cx_current_name (mx_complexity x) ->
  In vp (voting_participation db) ->
  vp_geo_id vp = m_original_bfs m ->
  names_predecessor (mx_complexity x) vp = true /\
  vp_voting_count vp <= mx_max_voting_count x.
Proof.
  intros Hx Hm Hd Hb Hn Hvp Hg.
  assert (Hl : names_predecessor (mx_complexity x) vp = true).
  { pose proof Hx as Hx'.
    apply (proj1 (find_most_complex_mergers_In db x)) in Hx'.
    apply (complex_groups_In db x) in Hx'.
    destruct Hx' as [Hmc _].
    destruct (merger_complexity_predecessor db _ m Hmc Hm Hd Hb Hn) as [l [E Hin]].
    unfold names_predecessor. rewrite E, Hg. exact (like_part _ _ Hin). }
  split; [exact Hl | exact (counted_when_named db x vp Hx Hvp Hl)].
Qed.

Lemma max_voting_count_covers_predecessors_witness :
  exists x, In x (find_most_complex_mergers MoreExamples.db_two_votings) /\
            1 <= mx_max_voting_count x.
Proof.
  pose (x := {| mx_complexity :=
                  {| cx_current_bfs := Some "300"; cx_current_name := Some "Burg";
                     cx_predecessor_count := 2; cx_max_merge_depth := Some 1;
                     cx_all_predecessors := "100,200" |};
                mx_max_voting_count := 1 |}).
  assert (Hx : In x (find_most_complex_mergers MoreExamples.db_two_votings))
    by (vm_compute; left; reflexivity).
  exists x. split; [exact Hx|].
  refine (proj2 (max_voting_count_covers_predecessors MoreExamples.db_two_votings x
                   {| m_original_bfs := "200"; m_original_name := Some "Stadt";
                      m_analysis_bfs := Some "300"; m_analysis_name := Some "Burg";
                      m_first_appearance := Some "20050605"; m_merge_depth := 1 |}
                   {| vp_geo_id := "200"; vp_voting_count := 1 |}
                   Hx _ _ _ _ _ _)).
  - vm_compute. right. left. reflexivity.
  - reflexivity.
  - reflexivity.
  - reflexivity.
  - vm_compute. right. left. reflexivity.
  - reflexivity.
Defined.

End ValidationFacts.
